(** * astroid.modutils: module resolution utilities

    A shallow embedding of [astroid/modutils.py] and the properties of its
    name-to-file and file-to-name resolvers.

    Conventions of the embedding.

    - The host is a POSIX one: [os.sep] is ["/"], [os.path.normcase] is the
      identity, and [os.path.join], [os.path.dirname] and [os.path.splitext]
      are those of [posixpath].
    - Everything the code asks of its environment (the file system, the
      working directory, the interpreter's own finders, [zipimport]) is a
      field of the record [World]; the code never writes to it.
    - The mutable globals of the process ([sys.path_importer_cache],
      [_NORM_PATH_CACHE]) and the Python list objects that the resolvers
      receive by reference live in [State], which every effectful function
      threads through the monad [M]. The importer cache is written by
      [_precache_zipimporters] and by the interpreter's [PathFinder].
    - Exceptions are modelled by their class; their messages are dropped. *)

From Stdlib Require Import String Ascii List Bool Arith Lia.
From stdpp Require Import base option list gmap strings.
Import ListNotations.
Open Scope string_scope.
Open Scope list_scope.

(** ** Python string primitives *)

Module PyStr.

(** [s.startswith(pre)] *)
Fixpoint startswith (s pre : string) : bool :=
  match pre with
  | EmptyString => true
  | String a pre' =>
      match s with
      | EmptyString => false
      | String b s' => Ascii.eqb a b && startswith s' pre'
      end
  end.

(** [s[:n]] for [n >= 0] *)
Fixpoint slice_to (n : nat) (s : string) : string :=
  match n, s with
  | S n', String c s' => String c (slice_to n' s')
  | _, _ => EmptyString
  end.

(** [s[n:]] for [n >= 0] *)
Fixpoint slice_from (n : nat) (s : string) : string :=
  match n, s with
  | S n', String _ s' => slice_from n' s'
  | _, _ => s
  end.

(** [s.endswith(suf)] *)
Definition endswith (s suf : string) : bool :=
  Nat.leb (String.length suf) (String.length s)
  && String.eqb (slice_from (String.length s - String.length suf) s) suf.

(** [s[:-1]] *)
Definition drop_last (s : string) : string :=
  slice_to (String.length s - 1) s.

(** [bool(s)]: a string is true when it is not empty. *)
Definition truthy (s : string) : bool :=
  match s with EmptyString => false | String _ _ => true end.

(** [s.split(sep)] for a one-character separator. *)
Fixpoint split (sep : ascii) (s : string) : list string :=
  match s with
  | EmptyString => [EmptyString]
  | String c s' =>
      if Ascii.eqb c sep then EmptyString :: split sep s'
      else match split sep s' with
           | h :: t => String c h :: t
           | [] => [String c EmptyString]
           end
  end.

(** [s.rfind(c)]; [None] stands for Python's [-1]. *)
Fixpoint rfind (c : ascii) (s : string) : option nat :=
  match s with
  | EmptyString => None
  | String a s' =>
      match rfind c s' with
      | Some i => Some (S i)
      | None => if Ascii.eqb a c then Some 0 else None
      end
  end.

(** [s.rstrip(c)] for a one-character set. *)
Fixpoint rstrip (c : ascii) (s : string) : string :=
  match s with
  | EmptyString => EmptyString
  | String a s' =>
      match rstrip c s' with
      | EmptyString => if Ascii.eqb a c then EmptyString else String a EmptyString
      | r => String a r
      end
  end.

(** every character of [s] is [c] ([s == c * len(s)]) *)
Fixpoint all_char (c : ascii) (s : string) : bool :=
  match s with
  | EmptyString => true
  | String a s' => Ascii.eqb a c && all_char c s'
  end.

(** some character of [s] differs from [c] *)
Fixpoint some_other_char (c : ascii) (s : string) : bool :=
  match s with
  | EmptyString => false
  | String a s' => negb (Ascii.eqb a c) || some_other_char c s'
  end.

(** [sub in s] *)
Fixpoint contains (sub s : string) : bool :=
  startswith s sub
  || match s with
     | EmptyString => false
     | String _ s' => contains sub s'
     end.

(** [s.partition(sep)[0]] when [sep] occurs in [s], [None] when it does
    not (then [partition] returns [(s, '', '')]). *)
Fixpoint partition_head (sep s : string) : option string :=
  if startswith s sep then Some EmptyString
  else match s with
       | EmptyString => None
       | String c s' =>
           match partition_head sep s' with
           | Some h => Some (String c h)
           | None => None
           end
       end.

(** [sep.join(l)] *)
Definition join (sep : string) (l : list string) : string :=
  String.concat sep l.

End PyStr.

(** ** [os.path] on a POSIX host (posixpath, genericpath) *)

Module OsPath.
Import PyStr.

Definition sep : string := "/".
Definition sep_char : ascii := "/"%char.

Definition normcase (s : string) : string := s.

(** [os.path.join(a, b)] *)
Definition join (a b : string) : string :=
  if startswith b sep then b
  else if negb (truthy a) || endswith a sep then a +:+ b
  else a +:+ sep +:+ b.

(** [os.path.join(a, *p)] *)
Definition join_all (a : string) (p : list string) : string :=
  fold_left join p a.

(** [os.path.dirname(p)] *)
Definition dirname (p : string) : string :=
  let i := match rfind sep_char p with None => 0 | Some k => S k end in
  let head := slice_to i p in
  if truthy head && negb (all_char sep_char head)
  then rstrip sep_char head else head.

(** [os.path.splitext(p)]: the extension starts at the last dot of the
    last component, unless that component has only leading dots. *)
Definition splitext (p : string) : string * string :=
  match rfind "."%char p with
  | None => (p, EmptyString)
  | Some dotIndex =>
      let filenameIndex :=
        match rfind sep_char p with None => 0 | Some k => S k end in
      if Nat.leb filenameIndex dotIndex
         && some_other_char "."%char
              (slice_to (dotIndex - filenameIndex) (slice_from filenameIndex p))
      then (slice_to dotIndex p, slice_from dotIndex p)
      else (p, EmptyString)
  end.

End OsPath.

(** ** Values of the module *)

(** [ModuleType], the enumeration of line 50. *)
Inductive ModuleType :=
| C_BUILTIN | C_EXTENSION | PKG_DIRECTORY | PY_CODERESOURCE | PY_COMPILED
| PY_FROZEN | PY_RESOURCE | PY_SOURCE | PY_ZIPMODULE | PY_NAMESPACE.

(** The type tags of the interpreter's [imp] module that are keys of
    [_ImpTypes]. *)
Inductive ImpType :=
| imp_C_BUILTIN | imp_C_EXTENSION | imp_PKG_DIRECTORY | imp_PY_COMPILED
| imp_PY_FROZEN | imp_PY_SOURCE | imp_PY_RESOURCE | imp_PY_CODERESOURCE.

Definition _imp_type_to_module_type (imp_type : ImpType) : ModuleType :=
  match imp_type with
  | imp_C_BUILTIN => C_BUILTIN
  | imp_C_EXTENSION => C_EXTENSION
  | imp_PKG_DIRECTORY => PKG_DIRECTORY
  | imp_PY_COMPILED => PY_COMPILED
  | imp_PY_FROZEN => PY_FROZEN
  | imp_PY_SOURCE => PY_SOURCE
  | imp_PY_RESOURCE => PY_RESOURCE
  | imp_PY_CODERESOURCE => PY_CODERESOURCE
  end.

(** What the [type] field of a [ModuleSpec] can hold: a [ModuleType]
    member, [None] (PEP 420 finder on a plain module), or a raw [imp]
    constant (the [os.path] shortcut of [file_info_from_modpath]). *)
Inductive TypeTag :=
| TyNone
| TyModule (t : ModuleType)
| TyImp (t : ImpType).

(** A path argument as Python passes it around: [None], one string, or a
    list of strings. *)
Inductive PathArg :=
| PNone
| PStr (s : string)
| PList (l : list string).

(** [bool(p)] *)
Definition path_truthy (p : PathArg) : bool :=
  match p with
  | PNone => false
  | PStr s => PyStr.truthy s
  | PList [] => false
  | PList (_ :: _) => true
  end.

(** [a or b] *)
Definition path_or (a b : PathArg) : PathArg :=
  if path_truthy a then a else b.

(** The named tuple [ModuleSpec] of line 690. *)
Record ModuleSpec := mkModuleSpec {
  name : string;
  type : TypeTag;
  location : option string;
  origin : option string;
  submodule_search_locations : PathArg
}.

(** [spec._replace(location=l)] and its siblings *)
Definition replace_location (spec : ModuleSpec) (l : option string) : ModuleSpec :=
  mkModuleSpec (name spec) (type spec) l (origin spec)
               (submodule_search_locations spec).

Definition replace_location_type
  (spec : ModuleSpec) (l : option string) (t : TypeTag) : ModuleSpec :=
  mkModuleSpec (name spec) t l (origin spec) (submodule_search_locations spec).

Definition replace_submodule_search_locations
  (spec : ModuleSpec) (p : PathArg) : ModuleSpec :=
  mkModuleSpec (name spec) (type spec) (location spec) (origin spec) p.

(** An entry of [sys.path_importer_cache]: a [zipimport.zipimporter]
    opened on an archive, or a finder the interpreter put there itself. *)
Inductive Importer :=
| ZipImporter (archive : string)
| HostFinder (entry : string).

(** What [importlib.machinery.PathFinder.find_spec] reports. *)
Record MachinerySpec := mkMachinerySpec {
  ms_name : string;
  ms_origin : option string;
  ms_submodule_search_locations : option (list string)
}.

(** The directory tree [os.walk] sees below a directory: the
    sub-directories with their own trees, and the other entries. *)
#[warnings="-register-all"]
Inductive DirTree :=
| Dir (dirs : list (string * DirTree)) (files : list string).

(** ** The environment *)

Record World := mkWorld {
  (* interpreter *)
  sys_path : list string;
  sys_platform : string;
  python3 : bool;                 (* sys.version_info > (3, 0) *)
  has_pep420 : bool;              (* _HAS_MACHINERY and version > (3, 3) *)
  IS_JYTHON : bool;
  EXT_LIB_DIR : string;
  STD_LIB_DIRS : list string;
  os_path_file : string;          (* os.path.__file__ *)
  (* pkg_resources._namespace_packages, None without pkg_resources *)
  namespace_packages : option (list string);
  imp_find_module : string -> PathArg -> option (option string * ImpType);
  zipimport_zipimporter : string -> option Importer;
  importer_find_module : Importer -> string -> bool;
  PathFinder_find_spec : string -> PathArg -> option MachinerySpec;
  (* the path entries PathFinder.find_spec consults before it answers,
     in order, and what sys.path_hooks make of an entry (None when no
     hook takes it) *)
  PathFinder_scanned : string -> PathArg -> list string;
  path_hooks : string -> option Importer;
  (* file system and working directory *)
  exists_ : string -> bool;       (* os.path.exists *)
  isdir : string -> bool;         (* os.path.isdir *)
  abspath : string -> string;     (* os.path.abspath *)
  realpath : string -> string;    (* os.path.realpath *)
  expanduser : string -> string;  (* os.path.expanduser *)
  read_head : string -> option string;  (* open(p, 'rb').read(4096) *)
  os_walk : string -> option DirTree
}.

(** ** The state of the process *)

(** Calls to the primitives of the host that the properties count. *)
Inductive Event :=
| EvZipOpen (entry_path : string) (opened : bool)
| EvImpFind (modname : string) (path : PathArg)
| EvPathFinder (modname : string) (path : PathArg).

#[global] Instance PathArg_eq_dec : EqDecision PathArg.
Proof. solve_decision. Defined.
#[global] Instance ImpType_eq_dec : EqDecision ImpType.
Proof. solve_decision. Defined.
#[global] Instance ModuleType_eq_dec : EqDecision ModuleType.
Proof. solve_decision. Defined.
#[global] Instance Importer_eq_dec : EqDecision Importer.
Proof. solve_decision. Defined.
#[global] Instance Event_eq_dec : EqDecision Event.
Proof. solve_decision. Defined.

(** A reference to a Python list object. *)
Abbreviation ref := nat (only parsing).

Record State := mkState {
  heap : list (list string);
  pic : list (string * option Importer);  (* sys.path_importer_cache *)
  norm_cache : gmap string string;        (* _NORM_PATH_CACHE *)
  trace : list Event
}.

Definition set_heap (h : list (list string)) (st : State) : State :=
  mkState h (pic st) (norm_cache st) (trace st).
Definition set_pic (p : list (string * option Importer)) (st : State) : State :=
  mkState (heap st) p (norm_cache st) (trace st).
Definition set_norm_cache (c : gmap string string) (st : State) : State :=
  mkState (heap st) (pic st) c (trace st).
Definition log (e : Event) (st : State) : State :=
  mkState (heap st) (pic st) (norm_cache st) (trace st ++ [e]).

(** ** The monad of effectful code *)

Inductive Exc :=
| ImportError | NoSourceFile | AttributeError | KeyError | TypeError
| IndexError | AssertionError | UnboundLocalError.

Definition exc_eqb (a b : Exc) : bool :=
  match a, b with
  | ImportError, ImportError | NoSourceFile, NoSourceFile
  | AttributeError, AttributeError | KeyError, KeyError
  | TypeError, TypeError | IndexError, IndexError
  | AssertionError, AssertionError
  | UnboundLocalError, UnboundLocalError => true
  | _, _ => false
  end.

(** Conditions of the model itself, which no [except] clause catches: a
    loop that ran out of fuel, a reference that is not in the heap. *)
Inductive Fault := OutOfFuel | Dangling.

Inductive Outcome (A : Type) :=
| Ok (a : A)
| Raise (e : Exc)
| Stuck (f : Fault).
Arguments Ok {A} a.
Arguments Raise {A} e.
Arguments Stuck {A} f.

Definition M (A : Type) : Type := State -> Outcome A * State.

Definition ret {A} (a : A) : M A := fun st => (Ok a, st).
Definition raise {A} (e : Exc) : M A := fun st => (Raise e, st).
Definition stuck {A} (f : Fault) : M A := fun st => (Stuck f, st).

Definition bind {A B} (c : M A) (k : A -> M B) : M B :=
  fun st =>
    match c st with
    | (Ok a, st') => k a st'
    | (Raise e, st') => (Raise e, st')
    | (Stuck f, st') => (Stuck f, st')
    end.

(** [try: c  except e: h] *)
Definition try_except {A} (c : M A) (e : Exc) (h : M A) : M A :=
  fun st =>
    match c st with
    | (Raise e', st') => if exc_eqb e e' then h st' else (Raise e', st')
    | r => r
    end.

Definition get : M State := fun st => (Ok st, st).
Definition modify (f : State -> State) : M unit := fun st => (Ok tt, f st).

Declare Scope py_scope.
Delimit Scope py_scope with py.
Notation "x <- c1 ;; c2" := (bind c1 (fun x => c2))
  (at level 100, c1 at next level, right associativity) : py_scope.
Notation "c1 ;;; c2" := (bind c1 (fun _ => c2))
  (at level 100, right associativity) : py_scope.
Open Scope py_scope.

(** *** List objects *)

(** [l[:]], [[a, b]], [a + b]: a new list object. *)
Definition alloc (l : list string) : M ref :=
  fun st => (Ok (length (heap st)), set_heap (heap st ++ [l]) st).

Definition read (r : ref) : M (list string) :=
  fun st =>
    match heap st !! r with
    | Some l => (Ok l, st)
    | None => (Stuck Dangling, st)
    end.

(** [l.pop(0)] *)
Definition pop0 (r : ref) : M string :=
  fun st =>
    match heap st !! r with
    | Some (x :: l) => (Ok x, set_heap (<[r := l]> (heap st)) st)
    | Some [] => (Raise IndexError, st)
    | None => (Stuck Dangling, st)
    end.

(** ** The functions of the module *)

Section Model.
Import PyStr.

Variable w : World.

Definition is_some {A} (o : option A) : bool :=
  match o with Some _ => true | None => false end.

(** Calls to the host that are logged. *)
Definition call_zipimporter (entry_path : string) : M (option Importer) :=
  fun st =>
    let r := zipimport_zipimporter w entry_path in
    (Ok r, log (EvZipOpen entry_path (is_some r)) st).

Definition call_imp_find_module (modname : string) (path : PathArg)
  : M (option (option string * ImpType)) :=
  fun st => (Ok (imp_find_module w modname path), log (EvImpFind modname path) st).

(** [entry_path in pic] *)
Definition pic_mem (entry_path : string) (pic : list (string * option Importer)) : bool :=
  existsb (fun kv => String.eqb (fst kv) entry_path) pic.

(** [PathFinder._path_importer_cache], for each entry that
    [PathFinder.find_spec] consults: an entry that is not in
    [sys.path_importer_cache] is stored there with the finder that the
    path hooks make of it, [None] when there is none. *)
Fixpoint path_importer_cache (entries : list string)
  (pic : list (string * option Importer)) : list (string * option Importer) :=
  match entries with
  | [] => pic
  | entry :: rest =>
      path_importer_cache rest
        (if pic_mem entry pic then pic else pic ++ [(entry, path_hooks w entry)])
  end.

(** [importlib.machinery.PathFinder.find_spec]: besides its answer, it
    leaves in the importer cache a finder for each entry it went
    through. What the path hooks do to make that finder is the
    interpreter's own business and is not logged. *)
Definition call_PathFinder_find_spec (modname : string) (path : PathArg)
  : M (option MachinerySpec) :=
  fun st =>
    (Ok (PathFinder_find_spec w modname path),
     log (EvPathFinder modname path)
       (set_pic (path_importer_cache (PathFinder_scanned w modname path) (pic st))
          st)).

(** Lines 68-73. *)
Definition PY_SOURCE_EXTS : list string :=
  if startswith (sys_platform w) "win" then ["py"; "pyw"] else ["py"].

(** Line 141. *)
Definition _normalize_path (path : string) : string :=
  OsPath.normcase (abspath w path).

(** Line 145. *)
Definition _canonicalize_path (path : string) : string :=
  realpath w (expanduser w path).

(** Line 149, with [is_jython] at its default [IS_JYTHON]. *)
Definition _path_from_filename (filename : string) : string :=
  if negb (IS_JYTHON w) then
    if python3 w then filename
    else if endswith filename ".pyc" then drop_last filename
         else filename
  else
    match partition_head "$py.class" filename with
    | Some head => head +:+ ".py"
    | None => filename
    end.

(** [l.remove(x)]: the first occurrence goes. *)
Fixpoint list_remove (x : string) (l : list string) : list string :=
  match l with
  | [] => []
  | y :: l' => if String.eqb y x then l' else y :: list_remove x l'
  end.

Definition str_in (x : string) (l : list string) : bool :=
  existsb (String.eqb x) l.

(** Line 163. The two lists are changed in place; the function returns
    what they hold afterwards. *)
Fixpoint _handle_blacklist (blacklist dirnames filenames : list string)
  : list string * list string :=
  match blacklist with
  | [] => (dirnames, filenames)
  | norecurs :: rest =>
      if str_in norecurs dirnames
      then _handle_blacklist rest (list_remove norecurs dirnames) filenames
      else if str_in norecurs filenames
      then _handle_blacklist rest dirnames (list_remove norecurs filenames)
      else _handle_blacklist rest dirnames filenames
  end.

(** Line 177. *)
Definition _cache_normalize_path (path : string) : M string :=
  fun st =>
    match norm_cache st !! path with
    | Some r => (Ok r, st)
    | None =>
        if negb (truthy path) then (Ok (_normalize_path path), st)
        else
          let result := _normalize_path path in
          (Ok result, set_norm_cache (<[path := result]> (norm_cache st)) st)
    end.

(** Line 668. *)
Definition _is_namespace (modname : string) : bool :=
  match namespace_packages w with
  | None => false
  | Some names => str_in modname names
  end.

(** Line 846. *)
Fixpoint first_existing (stem : string) (exts : list string) : option string :=
  match exts with
  | [] => None
  | ext :: rest =>
      if exists_ w (stem +:+ "." +:+ ext) then Some (stem +:+ "." +:+ ext)
      else first_existing stem rest
  end.

Definition _has_init (directory : string) : option string :=
  let mod_or_pack := OsPath.join directory "__init__" in
  first_existing mod_or_pack (PY_SOURCE_EXTS ++ ["pyc"; "pyo"]).

(** Line 835. *)
Definition _is_python_file (filename : string) : bool :=
  existsb (endswith filename) [".py"; ".so"; ".pyd"; ".pyw"].

(** Line 297. *)
Fixpoint check_modpath_has_init_loop
  (path : string) (modpath mod_path : list string) : bool :=
  match mod_path with
  | [] => true
  | part :: rest =>
      let modpath := modpath ++ [part] in
      let path := OsPath.join path part in
      match _has_init path with
      | None =>
          let old_namespace := _is_namespace (join "." modpath) in
          if negb old_namespace then false
          else check_modpath_has_init_loop path modpath rest
      | Some _ => check_modpath_has_init_loop path modpath rest
      end
  end.

Definition check_modpath_has_init (path : string) (mod_path : list string) : bool :=
  check_modpath_has_init_loop path [] mod_path.

(** Line 502. *)
Definition get_source_file (filename : string) (include_no_ext : bool) : M string :=
  let filename := abspath w (_path_from_filename filename) in
  let '(base, orig_ext) := OsPath.splitext filename in
  match first_existing base PY_SOURCE_EXTS with
  | Some source_path => ret source_path
  | None =>
      if include_no_ext && negb (truthy orig_ext) && exists_ w base
      then ret base
      else raise NoSourceFile
  end.

(** Line 674. [None] is the implicit result after [IOError]. *)
Definition _is_setuptools_namespace (location : string) : option bool :=
  match read_head w (OsPath.join location "__init__.py") with
  | None => None
  | Some data =>
      let extend_path := contains "pkgutil" data && contains "extend_path" data in
      let declare_namespace :=
        contains "pkg_resources" data
        && contains "declare_namespace(__name__)" data in
      Some (extend_path || declare_namespace)
  end.

(** Line 656. The loop body, then the function. The cache it returns
    is [sys.path_importer_cache] itself, which is [pic] of the state. *)

Fixpoint _precache_zipimporters_loop (path : list string) : M unit :=
  match path with
  | [] => ret tt
  | entry_path :: rest =>
      st <- get ;;
      (if negb (pic_mem entry_path (pic st)) then
         r <- call_zipimporter entry_path ;;
         match r with
         | Some importer =>
             modify (fun st => set_pic (pic st ++ [(entry_path, Some importer)]) st)
         | None => ret tt
         end
       else ret tt) ;;;
      _precache_zipimporters_loop rest
  end.

Definition list_or (path : option (list string)) (default : list string) : list string :=
  match path with
  | Some (x :: l) => x :: l
  | _ => default
  end.

Definition _precache_zipimporters (path : option (list string)) : M unit :=
  let path := list_or path (sys_path w) in
  _precache_zipimporters_loop path.

(** Line 641. *)
Fixpoint _search_zip_loop
  (modpath : list string) (items : list (string * option Importer))
  : Outcome (ModuleType * string * string) :=
  match items with
  | [] => Raise ImportError
  | (filepath, None) :: rest => _search_zip_loop modpath rest
  | (filepath, Some importer) :: rest =>
      match modpath with
      | [] => Raise IndexError
      | m0 :: _ =>
          if importer_find_module w importer m0 then
            if negb (importer_find_module w importer (join OsPath.sep modpath))
            then Raise ImportError
            else Ok (PY_ZIPMODULE,
                     abspath w filepath +:+ OsPath.sep +:+ join OsPath.sep modpath,
                     filepath)
          else _search_zip_loop modpath rest
      end
  end.

Definition _search_zip (modpath : list string) : M (ModuleType * string * string) :=
  fun st => (_search_zip_loop modpath (pic st), st).

(** *** The finders (line 702) *)

Inductive FinderKind := ImpFinder | ZipFinder | PEP420SpecFinder.

(** [ImpFinder.find_module] *)
Definition ImpFinder_find_module (modname : string) (submodule_path : PathArg)
  : M (option ModuleSpec) :=
  r <- call_imp_find_module modname submodule_path ;;
  match r with
  | None => ret None
  | Some (mp_filename, mp_desc) =>
      ret (Some (mkModuleSpec modname
                   (TyModule (_imp_type_to_module_type mp_desc))
                   mp_filename None PNone))
  end.

(** [ZipFinder.find_module] *)
Definition ZipFinder_find_module (modname : string) (module_parts : list string)
  : M (option ModuleSpec) :=
  try_except
    (found <- _search_zip module_parts ;;
     let '(file_type, filename, path) := found in
     ret (Some (mkModuleSpec modname (TyModule file_type) (Some filename)
                  (Some "egg") (PStr path))))
    ImportError
    (ret None).

(** [PEP420SpecFinder.find_module] *)
Definition PEP420SpecFinder_find_module (modname : string) (submodule_path : PathArg)
  : M (option ModuleSpec) :=
  r <- call_PathFinder_find_spec modname submodule_path ;;
  match r with
  | None => ret None
  | Some spec =>
      let is_ns :=
        match ms_origin spec with
        | Some o => String.eqb o "namespace"
        | None => false
        end in
      let location := if is_ns then None else ms_origin spec in
      let type := if is_ns then TyModule PY_NAMESPACE else TyNone in
      ret (Some (mkModuleSpec (ms_name spec) type location (ms_origin spec)
                   (PList (match ms_submodule_search_locations spec with
                           | Some l => l
                           | None => []
                           end))))
  end.

Definition find_module (finder : FinderKind) (modname : string)
  (module_parts processed : list string) (submodule_path : PathArg)
  : M (option ModuleSpec) :=
  match finder with
  | ImpFinder => ImpFinder_find_module modname submodule_path
  | ZipFinder => ZipFinder_find_module modname module_parts
  | PEP420SpecFinder => PEP420SpecFinder_find_module modname submodule_path
  end.

(** [contribute_to_path] of each finder *)
Definition contribute_to_path (finder : FinderKind) (spec : ModuleSpec)
  (processed : list string) : PathArg :=
  match finder with
  | ImpFinder =>
      match location spec with
      | None => PNone
      | Some loc =>
          match _is_setuptools_namespace loc with
          | Some true =>
              PList (map (fun p => OsPath.join_all p processed)
                       (List.filter (fun p => isdir w (OsPath.join_all p processed))
                          (sys_path w)))
          | _ => PList [loc]
          end
      end
  | ZipFinder => PNone
  | PEP420SpecFinder =>
      match type spec with
      | TyModule PY_NAMESPACE => submodule_search_locations spec
      | _ => PNone
      end
  end.

(** Line 780. Building the finders runs [ZipFinder.__init__], which
    fills the importer cache. *)
Fixpoint _find_spec_with_path_loop (finders : list FinderKind) (modname : string)
  (module_parts processed : list string) (submodule_path : PathArg)
  : M (FinderKind * ModuleSpec) :=
  match finders with
  | [] => raise ImportError
  | finder :: rest =>
      spec <- find_module finder modname module_parts processed submodule_path ;;
      match spec with
      | None =>
          _find_spec_with_path_loop rest modname module_parts processed submodule_path
      | Some spec => ret (finder, spec)
      end
  end.

Definition _find_spec_with_path (search_path : list string) (modname : string)
  (module_parts processed : list string) (submodule_path : PathArg)
  : M (FinderKind * ModuleSpec) :=
  _precache_zipimporters (Some search_path) ;;;
  let finders :=
    [ImpFinder; ZipFinder] ++ (if has_pep420 w then [PEP420SpecFinder] else []) in
  _find_spec_with_path_loop finders modname module_parts processed submodule_path.

(** Line 794. *)
Definition to_arg (path : option (list string)) : PathArg :=
  match path with
  | None => PNone
  | Some l => PList l
  end.

(** The [while modpath:] loop. [spec] is [None] as long as the local
    variable is unbound. The fuel bounds the number of iterations;
    [_find_spec] gives the length of the list, which is enough. *)
Fixpoint _find_spec_loop (fuel : nat) (modpath : ref)
  (_path : list string) (path : PathArg)
  (module_parts processed : list string) (submodule_path : PathArg)
  (spec : option ModuleSpec) : M ModuleSpec :=
  pending <- read modpath ;;
  match pending with
  | [] =>
      match spec with
      | Some spec => ret spec
      | None => raise UnboundLocalError
      end
  | _ :: _ =>
      match fuel with
      | 0 => stuck OutOfFuel
      | S fuel =>
          modname <- pop0 modpath ;;
          found <- _find_spec_with_path _path modname module_parts processed
                     (path_or submodule_path path) ;;
          let '(finder, spec) := found in
          let processed := processed ++ [modname] in
          pending <- read modpath ;;
          let submodule_path :=
            match pending with
            | [] => submodule_path
            | _ :: _ => contribute_to_path finder spec processed
            end in
          let spec :=
            match type spec with
            | TyModule PKG_DIRECTORY =>
                replace_submodule_search_locations spec submodule_path
            | _ => spec
            end in
          _find_spec_loop fuel modpath _path path module_parts processed
            submodule_path (Some spec)
      end
  end.

Definition _find_spec (modpath : ref) (path : option (list string)) : M ModuleSpec :=
  let _path := list_or path (sys_path w) in
  (* Need a copy for not mutating the argument. *)
  l <- read modpath ;;
  modpath <- alloc l ;;
  module_parts <- read modpath ;;
  _find_spec_loop (length module_parts) modpath _path (to_arg path)
    module_parts [] PNone None.

(** Line 608. In the [PY_COMPILED] branch, [ModuleSpec.PY_SOURCE] names
    an attribute that the class [ModuleSpec] does not have, and
    [spec.replace] a method that a named tuple does not have: evaluating
    either raises [AttributeError], which [except NoSourceFile] does not
    catch. A location that is [None] makes the path functions raise.
    The function is given in two parts: the chain lookup of its first
    ten lines, and the post-processing of the descriptor it found. *)
Definition _spec_from_modpath_lookup (modpath : ref)
  (path : option (list string)) (context : option string) : M ModuleSpec :=
  match context with
  | Some context =>
      try_except (_find_spec modpath (Some [context]))
        ImportError
        (_find_spec modpath path)
  | None => _find_spec modpath path
  end.

Definition _spec_from_modpath_post (spec : ModuleSpec) : M ModuleSpec :=
  match type spec with
  | TyModule PY_COMPILED =>
      try_except
        (match location spec with
         | None => raise (if python3 w && negb (IS_JYTHON w)
                          then TypeError else AttributeError)
         | Some loc =>
             location <- get_source_file loc false ;;
             raise AttributeError
         end)
        NoSourceFile
        (raise AttributeError)
  | TyModule C_BUILTIN => ret (replace_location spec None)
  | TyModule PKG_DIRECTORY =>
      match location spec with
      | None => raise (if python3 w then TypeError else AttributeError)
      | Some loc =>
          let location := _has_init loc in
          ret (replace_location_type spec location (TyModule PY_SOURCE))
      end
  | _ => ret spec
  end.

Definition _spec_from_modpath (modpath : ref)
  (path : option (list string)) (context : option string) : M ModuleSpec :=
  l <- read modpath ;;
  match l with
  | [] => raise AssertionError
  | _ :: _ =>
      spec <- _spec_from_modpath_lookup modpath path context ;;
      _spec_from_modpath_post spec
  end.

(** Line 362. *)
Definition file_info_from_modpath (modpath : ref)
  (path : option (list string)) (context_file : option string) : M ModuleSpec :=
  let context := option_map OsPath.dirname context_file in
  l <- read modpath ;;
  match l with
  | [] => raise IndexError
  | m0 :: rest =>
      if String.eqb m0 "xml" then
        try_except
          (alias <- alloc ("_xmlplus" :: rest) ;;
           _spec_from_modpath alias path context)
          ImportError
          (_spec_from_modpath modpath path context)
      else if bool_decide (l = ["os"; "path"]) then
        ret (mkModuleSpec "os.path" (TyImp imp_PY_SOURCE)
               (Some (os_path_file w)) None PNone)
      else _spec_from_modpath modpath path context
  end.

(** Line 359. *)
Definition file_from_modpath (modpath : ref)
  (path : option (list string)) (context_file : option string)
  : M (option string) :=
  spec <- file_info_from_modpath modpath path context_file ;;
  ret (location spec).

(** Line 535. *)
Fixpoint is_standard_module_loop (filename : string) (std_path : list string) : M bool :=
  match std_path with
  | [] => ret false
  | path :: rest =>
      p <- _cache_normalize_path path ;;
      if startswith filename p then ret true
      else is_standard_module_loop filename rest
  end.

(** [file_from_modpath([modname])], the body of the [try]. *)
Definition is_standard_module_lookup (modname : string) : M (option string) :=
  arg <- alloc [modname] ;;
  file_from_modpath arg None None.

Definition is_standard_module (modname : string) (std_path : option (list string))
  : M bool :=
  let modname := hd "" (split "." modname) in
  found <- try_except
             (filename <- is_standard_module_lookup modname ;;
              ret (Some filename))
             ImportError
             (ret None) ;;
  match found with
  | None => ret false
  | Some None => ret (negb (_is_namespace modname))
  | Some (Some filename) =>
      let filename := _normalize_path filename in
      ext_lib <- _cache_normalize_path (EXT_LIB_DIR w) ;;
      if startswith filename ext_lib then ret false
      else
        let std_path :=
          match std_path with
          | None => STD_LIB_DIRS w
          | Some l => l
          end in
        is_standard_module_loop filename std_path
  end.

(** Line 576. *)
Definition is_relative (modname from_file : string) : M bool :=
  let from_file :=
    if negb (isdir w from_file) then OsPath.dirname from_file else from_file in
  if str_in from_file (sys_path w) then ret false
  else
    r <- call_imp_find_module (hd "" (split "." modname)) (PList [from_file]) ;;
    match r with
    | Some _ => ret true
    | None => ret false
    end.

(** Line 310. [extrapath] is a dictionary from directories to package
    names, iterated in the order of its keys. *)
Definition dict_get (k : string) (d : list (string * string)) : option string :=
  option_map snd (find (fun kv => String.eqb (fst kv) k) d).

Definition components (s : string) : list string :=
  List.filter (fun pkg => truthy pkg) (split OsPath.sep_char s).

Fixpoint modpath_from_file_extrapath_loop (base : string)
  (extrapath : list (string * string)) (is_package_cb : string -> list string -> bool)
  (keys : list string) : option (Outcome (list string)) :=
  match keys with
  | [] => None
  | key :: rest =>
      let path_ := _canonicalize_path key in
      let path := abspath w path_ in
      if truthy path
         && String.eqb (OsPath.normcase (slice_to (String.length path) base))
                       (OsPath.normcase path)
      then
        let submodpath := components (slice_from (String.length path) base) in
        if is_package_cb path (removelast submodpath) then
          Some (match dict_get path_ extrapath with
                | Some package => Ok (split "." package ++ submodpath)
                | None => Raise KeyError
                end)
        else modpath_from_file_extrapath_loop base extrapath is_package_cb rest
      else modpath_from_file_extrapath_loop base extrapath is_package_cb rest
  end.

Fixpoint modpath_from_file_syspath_loop (base : string)
  (is_package_cb : string -> list string -> bool) (roots : list string)
  : M (list string) :=
  match roots with
  | [] => raise ImportError
  | root :: rest =>
      path <- _cache_normalize_path (_canonicalize_path root) ;;
      if truthy path && startswith (OsPath.normcase base) path then
        let modpath := components (slice_from (String.length path) base) in
        if is_package_cb path (removelast modpath) then ret modpath
        else modpath_from_file_syspath_loop base is_package_cb rest
      else modpath_from_file_syspath_loop base is_package_cb rest
  end.

Definition modpath_from_file_with_callback (filename : string)
  (extrapath : option (list (string * string)))
  (is_package_cb : string -> list string -> bool) : M (list string) :=
  let filename := _path_from_filename filename in
  let filename := realpath w (expanduser w filename) in
  let base := fst (OsPath.splitext filename) in
  match
    match extrapath with
    | Some extrapath =>
        modpath_from_file_extrapath_loop base extrapath is_package_cb
          (map fst extrapath)
    | None => None
    end
  with
  | Some (Ok modpath) => ret modpath
  | Some (Raise e) => raise e
  | Some (Stuck f) => stuck f
  | None => modpath_from_file_syspath_loop base is_package_cb (sys_path w)
  end.

(** Line 336. *)
Definition modpath_from_file (filename : string)
  (extrapath : option (list (string * string))) : M (list string) :=
  modpath_from_file_with_callback filename extrapath check_modpath_has_init.

(** Line 467. [os.walk] visits a directory, lets the caller prune
    [dirnames], then descends into what is left of it. *)
Fixpoint get_module_files_walk (blacklist : list string) (list_all : bool)
  (directory : string) (tree : DirTree) {struct tree} : list string :=
  match tree with
  | Dir dirs filenames =>
      let '(dirnames, filenames) :=
        _handle_blacklist blacklist (map fst dirs) filenames in
      if negb list_all && negb (str_in "__init__.py" filenames) then []
      else
        map (OsPath.join directory) (List.filter _is_python_file filenames)
        ++ flat_map
             (fun '(name, sub) =>
                if str_in name dirnames
                then get_module_files_walk blacklist list_all
                       (OsPath.join directory name) sub
                else [])
             dirs
  end.

Definition get_module_files (src_directory : string) (blacklist : list string)
  (list_all : bool) : list string :=
  match os_walk w src_directory with
  | None => []
  | Some tree => get_module_files_walk blacklist list_all src_directory tree
  end.

(** Line 527. *)
Definition is_python_source (filename : string) : bool :=
  str_in (slice_from 1 (snd (OsPath.splitext filename))) PY_SOURCE_EXTS.

(** Line 408. [BUILTIN_MODULES], the dictionary that line 133 builds
    from [sys.builtin_module_names], is given by its keys.

    The [while] loop over the further dots of a relative name: [rest] is
    [parts[starti:]], and indexing past the end raises. *)
Fixpoint get_module_part_dots (rest : list string) (starti : nat)
  (context_file : option string) : M (nat * option string) :=
  match rest with
  | [] => raise IndexError
  | part :: rest' =>
      if String.eqb part "" then
        match context_file with
        | Some file =>
            get_module_part_dots rest' (S starti) (Some (OsPath.dirname file))
        | None => raise (if python3 w then TypeError else AttributeError)
        end
      else ret (starti, context_file)
  end.

(** The [for] loop: [count] indices are left, [i] is the next one. *)
Fixpoint get_module_part_loop (dotted_name : string) (parts : list string)
  (starti : nat) (path : option (list string)) (context_file : option string)
  (count i : nat) : M string :=
  match count with
  | 0 => ret dotted_name
  | S count =>
      found <- try_except
                 (arg <- alloc (skipn starti (firstn (S i) parts)) ;;
                  file_from_modpath arg path context_file ;;;
                  ret true)
                 ImportError
                 (ret false) ;;
      if found : bool then
        get_module_part_loop dotted_name parts starti path context_file count (S i)
      else if Nat.ltb i (Nat.max 1 (length parts - 2)) then raise ImportError
      else ret (join "." (firstn i parts))
  end.

Definition get_module_part (BUILTIN_MODULES : list string)
  (dotted_name : string) (context_file : option string) : M string :=
  if startswith dotted_name "os.path" then ret "os.path"
  else
    let parts := split "." dotted_name in
    let first := hd "" parts in
    if is_some context_file && str_in first BUILTIN_MODULES then
      if Nat.ltb 2 (length parts) then raise ImportError else ret first
    else if String.eqb first "" && negb (is_some context_file) then
      raise AssertionError
    else
      let path := if String.eqb first "" then Some [] else None in
      let starti := if String.eqb first "" then 1 else 0 in
      dots <- get_module_part_dots (skipn starti parts) starti context_file ;;
      let '(starti, context_file) := dots in
      get_module_part_loop dotted_name parts starti path context_file
        (length parts - starti) starti.

End Model.

(** ** Concrete hosts

    A host given by finite tables: which paths exist, what the
    interpreter's finder answers, which search-path entries are archives
    and what they hold. Paths are absolute and free of links, so that
    [abspath], [realpath] and [expanduser] leave them alone. *)

Module Scenario.

Record Host := mkHost {
  h_sys_path : list string;
  h_jython : bool;
  h_python3 : bool;
  h_files : list string;
  h_dirs : list string;
  h_imp : list (string * PathArg * (option string * ImpType));
  h_members : list (string * string);
  h_walk : list (string * DirTree)
}.

Definition assoc {K V} `{EqDecision K} (k : K) (t : list (K * V)) : option V :=
  option_map snd (find (fun e => bool_decide (fst e = k)) t).

Definition world_of (h : Host) : World :=
  {| sys_path := h_sys_path h;
     sys_platform := "linux";
     python3 := h_python3 h;
     has_pep420 := false;
     IS_JYTHON := h_jython h;
     EXT_LIB_DIR := "/usr/lib/python/site-packages";
     STD_LIB_DIRS := ["/usr/lib/python"];
     os_path_file := "/usr/lib/python/posixpath.py";
     namespace_packages := None;
     imp_find_module := fun modname path => assoc (modname, path) (h_imp h);
     zipimport_zipimporter := fun entry =>
       if bool_decide (entry ∈ map fst (h_members h))
       then Some (ZipImporter entry) else None;
     importer_find_module := fun importer member =>
       match importer with
       | ZipImporter archive => bool_decide ((archive, member) ∈ h_members h)
       | HostFinder _ => false
       end;
     PathFinder_find_spec := fun _ _ => None;
     PathFinder_scanned := fun _ path =>
       match path with
       | PNone => h_sys_path h
       | PList l => l
       | PStr _ => []
       end;
     path_hooks := fun entry =>
       if bool_decide (entry ∈ map fst (h_members h))
       then Some (ZipImporter entry)
       else if bool_decide (entry ∈ h_dirs h) then Some (HostFinder entry)
       else None;
     exists_ := fun p => bool_decide (p ∈ h_files h ++ h_dirs h);
     isdir := fun p => bool_decide (p ∈ h_dirs h);
     abspath := fun p => p;
     realpath := fun p => p;
     expanduser := fun p => p;
     read_head := fun _ => None;
     os_walk := fun top => assoc top (h_walk h) |}.

(** A process that has not resolved anything yet and holds the given
    list objects. *)
Definition fresh (lists : list (list string)) : State :=
  mkState lists [] ∅ [].

(** A package with two modules, on CPython 3. *)
Definition plain_tree : DirTree :=
  Dir [("pkg", Dir [] ["__init__.py"; "sub.py"; "mod.py"])] ["__init__.py"].

Definition plain : World :=
  world_of
    {| h_sys_path := ["/r"]; h_jython := false; h_python3 := true;
       h_files := ["/r/__init__.py"; "/r/pkg/__init__.py"; "/r/pkg/sub.py";
                   "/r/pkg/mod.py"];
       h_dirs := ["/r"; "/r/pkg"];
       h_imp := [("pkg", PNone, (Some "/r/pkg", imp_PKG_DIRECTORY));
                 ("sub", PList ["/r/pkg"], (Some "/r/pkg/sub.py", imp_PY_SOURCE));
                 ("sub", PList ["/r/pkg"; "/r"], (Some "/r/pkg/sub.py", imp_PY_SOURCE));
                 ("mod", PList ["/r/pkg"], (Some "/r/pkg/mod.py", imp_PY_SOURCE))];
       h_members := [];
       h_walk := [("/r", plain_tree)] |}.

(** A package that Jython compiled and whose source was not shipped:
    the directory holds [__init__$py.class] only. *)
Definition jython_compiled : World :=
  world_of
    {| h_sys_path := ["/r"]; h_jython := true; h_python3 := false;
       h_files := ["/r/pkg/__init__$py.class"];
       h_dirs := ["/r"; "/r/pkg"];
       h_imp := [("pkg", PNone, (Some "/r/pkg", imp_PKG_DIRECTORY))];
       h_members := [];
       h_walk := [] |}.

(** A byte-compiled module without its source. *)
Definition sourceless : World :=
  world_of
    {| h_sys_path := ["/r"]; h_jython := false; h_python3 := true;
       h_files := ["/r/mod.pyc"];
       h_dirs := ["/r"];
       h_imp := [("mod", PNone, (Some "/r/mod.pyc", imp_PY_COMPILED))];
       h_members := [];
       h_walk := [] |}.

(** A module that Jython compiled: the finder reports the class file,
    and the source lies next to it. *)
Definition compiled_with_source : World :=
  world_of
    {| h_sys_path := ["/r"]; h_jython := true; h_python3 := false;
       h_files := ["/r/mod$py.class"; "/r/mod.py"];
       h_dirs := ["/r"];
       h_imp := [("mod", PNone, (Some "/r/mod$py.class", imp_PY_COMPILED))];
       h_members := [];
       h_walk := [] |}.

(** An egg on the search path that holds a package, next to a plain
    directory. *)
Definition egg : World :=
  world_of
    {| h_sys_path := ["/r"; "/r/lib.egg"]; h_jython := false; h_python3 := true;
       h_files := ["/r/lib.egg"];
       h_dirs := ["/r"];
       h_imp := [];
       h_members := [("/r/lib.egg", "pkg"); ("/r/lib.egg", "pkg/sub")];
       h_walk := [] |}.

(** A distribution installed in [site-packages], which on this host,
    as on most, lies below the directory of the standard library. *)
Definition site_packages : World :=
  world_of
    {| h_sys_path := ["/usr/lib/python"; "/usr/lib/python/site-packages"];
       h_jython := false; h_python3 := true;
       h_files := ["/usr/lib/python/site-packages/six.py"];
       h_dirs := ["/usr/lib/python"; "/usr/lib/python/site-packages"];
       h_imp := [("six", PNone,
                  (Some "/usr/lib/python/site-packages/six.py", imp_PY_SOURCE))];
       h_members := [];
       h_walk := [] |}.



(** What the finder chain reports for the package of [plain] and of
    [jython_compiled], and for the module of [sourceless] and of
    [compiled_with_source]. *)
Definition pkg_dir : ModuleSpec :=
  mkModuleSpec "pkg" (TyModule PKG_DIRECTORY) (Some "/r/pkg") None PNone.
Definition mod_pyc : ModuleSpec :=
  mkModuleSpec "mod" (TyModule PY_COMPILED) (Some "/r/mod.pyc") None PNone.
Definition mod_class : ModuleSpec :=
  mkModuleSpec "mod" (TyModule PY_COMPILED) (Some "/r/mod$py.class") None PNone.

(** The state of [egg] once its search path has been scanned. *)
Definition egg_scanned : State :=
  snd (_precache_zipimporters egg None (fresh [])).

(** Two archives on the search path; the first holds the package
    without its sub-module, the second holds both. *)
Definition two_eggs : World :=
  world_of
    {| h_sys_path := ["/r/a.egg"; "/r/b.egg"]; h_jython := false;
       h_python3 := true;
       h_files := ["/r/a.egg"; "/r/b.egg"];
       h_dirs := ["/r"];
       h_imp := [];
       h_members := [("/r/a.egg", "pkg"); ("/r/b.egg", "pkg");
                     ("/r/b.egg", "pkg/sub")];
       h_walk := [] |}.

Definition two_eggs_scanned : State :=
  snd (_precache_zipimporters two_eggs None (fresh [])).

(** A host whose finder knows the built-in module [sys]. *)
Definition with_builtin : World :=
  world_of
    {| h_sys_path := ["/r"]; h_jython := false; h_python3 := true;
       h_files := [];
       h_dirs := ["/r"];
       h_imp := [("sys", PNone, (None, imp_C_BUILTIN))];
       h_members := [];
       h_walk := [] |}.

(** The host [plain], where [/link] is a symbolic link to [/r]. *)
Definition linked : World :=
  {| sys_path := sys_path plain;
     sys_platform := sys_platform plain;
     python3 := python3 plain;
     has_pep420 := has_pep420 plain;
     IS_JYTHON := IS_JYTHON plain;
     EXT_LIB_DIR := EXT_LIB_DIR plain;
     STD_LIB_DIRS := STD_LIB_DIRS plain;
     os_path_file := os_path_file plain;
     namespace_packages := namespace_packages plain;
     imp_find_module := imp_find_module plain;
     zipimport_zipimporter := zipimport_zipimporter plain;
     importer_find_module := importer_find_module plain;
     PathFinder_find_spec := PathFinder_find_spec plain;
     PathFinder_scanned := PathFinder_scanned plain;
     path_hooks := path_hooks plain;
     exists_ := exists_ plain;
     isdir := isdir plain;
     abspath := abspath plain;
     realpath := fun p =>
       if PyStr.startswith p "/link" then "/r" +:+ PyStr.slice_from 5 p else p;
     expanduser := expanduser plain;
     read_head := read_head plain;
     os_walk := os_walk plain |}.

(** A package whose directory holds the source of its [__init__] and
    the byte code compiled from it. *)
Definition with_bytecode : World :=
  world_of
    {| h_sys_path := ["/r"]; h_jython := false; h_python3 := false;
       h_files := ["/r/pkg/__init__.pyc"; "/r/pkg/__init__.py"];
       h_dirs := ["/r"; "/r/pkg"];
       h_imp := [("pkg", PNone, (Some "/r/pkg", imp_PKG_DIRECTORY))];
       h_members := [];
       h_walk := [] |}.

(** A host as [w], on an interpreter that has the PEP 420 finder. *)
Definition with_pep420 (w : World) : World :=
  {| sys_path := sys_path w;
     sys_platform := sys_platform w;
     python3 := python3 w;
     has_pep420 := true;
     IS_JYTHON := IS_JYTHON w;
     EXT_LIB_DIR := EXT_LIB_DIR w;
     STD_LIB_DIRS := STD_LIB_DIRS w;
     os_path_file := os_path_file w;
     namespace_packages := namespace_packages w;
     imp_find_module := imp_find_module w;
     zipimport_zipimporter := zipimport_zipimporter w;
     importer_find_module := importer_find_module w;
     PathFinder_find_spec := PathFinder_find_spec w;
     PathFinder_scanned := PathFinder_scanned w;
     path_hooks := path_hooks w;
     exists_ := exists_ w;
     isdir := isdir w;
     abspath := abspath w;
     realpath := realpath w;
     expanduser := expanduser w;
     read_head := read_head w;
     os_walk := os_walk w |}.

End Scenario.

(** ** Vocabulary of the properties *)

(** Effects that stay within a relation [R] between the state before and
    the state after. *)
Definition keeps {A} (R : relation State) (c : M A) : Prop :=
  forall st r st', c st = (r, st') -> R st st'.

(** A computation that does not get stuck. *)
Definition safe {A} (c : M A) : Prop :=
  forall st r st', c st = (r, st') -> forall f, r <> Stuck f.

(** The arguments of one call of [_find_spec_with_path]. *)
Record Lookup := mkLookup {
  lk_search_path : list string;
  lk_modname : string;
  lk_module_parts : list string;
  lk_processed : list string;
  lk_submodule_path : PathArg
}.

Section Vocabulary.
Variable w : World.

(** How often the archive at [entry] was opened with result [opened]. *)
Definition opens (entry : string) (opened : bool) (evs : list Event) : nat :=
  length (List.filter (fun ev => bool_decide (ev = EvZipOpen entry opened)) evs).

(** One lookup through the chain of finders: a call of
    [_find_spec_with_path], which builds the finders, the archive
    finder scanning the search path, and asks them in turn. *)
Definition lookup (c : Lookup) : M (FinderKind * ModuleSpec) :=
  _find_spec_with_path w (lk_search_path c) (lk_modname c) (lk_module_parts c)
    (lk_processed c) (lk_submodule_path c).

(** Successive lookups in one process. What a lookup returns or raises
    is for its caller; the next lookup starts from the state it left. *)
Fixpoint repeated_lookups (calls : list Lookup) : M unit :=
  match calls with
  | [] => ret tt
  | c :: rest => fun st => repeated_lookups rest (snd (lookup c st))
  end.

(** How often [entry] is met on the paths that these lookups scan. *)
Definition occurrences (entry : string) (path : list string) : nat :=
  length (List.filter (String.eqb entry) path).

Fixpoint met (entry : string) (calls : list Lookup) : nat :=
  match calls with
  | [] => 0
  | c :: rest =>
      occurrences entry (list_or (Some (lk_search_path c)) (sys_path w))
      + met entry rest
  end.

(** Nothing was opened between the two states, and the importer cache
    has kept what it held. *)
Definition quiet : relation State :=
  fun a b =>
    exists evs,
      trace b = trace a ++ evs
      /\ (forall e o, opens e o evs = 0)
      /\ (forall e, pic_mem e (pic a) = true -> pic_mem e (pic b) = true).

(** Between the two states [entry] was opened with success at most
    once, and then it is in the cache; it was not opened at all if the
    cache held it; the cache has kept what it held. *)
Definition opened_at_most_once (entry : string) : relation State :=
  fun a b =>
    exists evs,
      trace b = trace a ++ evs
      /\ opens entry true evs <= 1
      /\ (opens entry true evs = 1 -> pic_mem entry (pic b) = true)
      /\ (zipimport_zipimporter w entry = None -> opens entry true evs = 0)
      /\ (pic_mem entry (pic a) = true ->
          pic_mem entry (pic b) = true /\ forall o, opens entry o evs = 0).

(** What one pass over a path does to the cache and to the log. *)
Record pass_spec (path : list string) (st st' : State) (evs : list Event) : Prop := {
  pass_trace : trace st' = trace st ++ evs;
  pass_heap : heap st' = heap st;
  pass_norm : norm_cache st' = norm_cache st;
  pass_cached : forall e, pic_mem e (pic st) = true ->
    pic_mem e (pic st') = true /\ forall b, opens e b evs = 0;
  pass_opened : forall e, pic_mem e (pic st) = false ->
    is_some (zipimport_zipimporter w e) = true ->
    opens e false evs = 0 /\ opens e true evs <= 1
    /\ (opens e true evs = 1 <-> occurrences e path <> 0)
    /\ (pic_mem e (pic st') = true <-> occurrences e path <> 0);
  pass_failed : forall e, pic_mem e (pic st) = false ->
    zipimport_zipimporter w e = None ->
    opens e true evs = 0 /\ opens e false evs = occurrences e path
    /\ pic_mem e (pic st') = false
}.

(** What a pass of [_precache_zipimporters] over [path] makes of the
    importer cache. *)
Fixpoint precached (path : list string) (p : list (string * option Importer))
  : list (string * option Importer) :=
  match path with
  | [] => p
  | entry_path :: rest =>
      precached rest
        (if pic_mem entry_path p then p
         else match zipimport_zipimporter w entry_path with
              | Some importer => p ++ [(entry_path, Some importer)]
              | None => p
              end)
  end.

(** The importer cache is as it was. *)
Definition same_pic : relation State := fun a b => pic b = pic a.

(** A pass over [path] makes the same cache of both. *)
Definition same_scan (path : list string) : relation State :=
  fun a b => precached path (pic b) = precached path (pic a).

(** The outcome of [c] depends on the state through [R] only, and [c]
    maintains [R]. *)
Definition related {A} (R : relation State) (c : M A) : Prop :=
  forall sa sb, R sa sb ->
    fst (c sa) = fst (c sb) /\ R (snd (c sa)) (snd (c sb)).

(** The heap and the path cache are as they were. *)
Definition same_store : relation State :=
  fun a b => heap b = heap a /\ norm_cache b = norm_cache a.

(** Of the list objects only the one at [r] may have changed; none was
    created. *)
Definition only_at (r : ref) : relation State :=
  fun a b =>
    length (heap b) = length (heap a)
    /\ norm_cache b = norm_cache a
    /\ forall r', r' <> r -> heap b !! r' = heap a !! r'.

(** Every list object that was there is still there, unchanged. *)
Definition grows : relation State :=
  fun a b =>
    norm_cache b = norm_cache a
    /\ forall r l, heap a !! r = Some l -> heap b !! r = Some l.

(** The path without extension against which [get_source_file] tries
    the source extensions. *)
Definition source_stem (filename : string) : string :=
  fst (OsPath.splitext (abspath w (_path_from_filename w filename))).

(** The candidates of [_has_init], in the order it tries them. *)
Definition init_candidates (directory : string) : list string :=
  map (fun ext => OsPath.join directory "__init__" +:+ "." +:+ ext)
    (PY_SOURCE_EXTS w ++ ["pyc"; "pyo"]).

(** The path that [modpath_from_file_with_callback] compares with the
    roots: the canonical file name without its extension. *)
Definition file_base (filename : string) : string :=
  fst (OsPath.splitext
         (realpath w (expanduser w (_path_from_filename w filename)))).

(** The root registered under [key] in the extra path, as compared. *)
Definition extra_root (key : string) : string :=
  abspath w (_canonicalize_path w key).

(** The test a root of the extra path passes to be taken: it is a
    prefix of the base, and what follows it validates. *)
Definition root_matches (base : string)
  (is_package_cb : string -> list string -> bool) (key : string) : bool :=
  let path := extra_root key in
  PyStr.truthy path
  && String.eqb (OsPath.normcase (PyStr.slice_to (String.length path) base))
                (OsPath.normcase path)
  && is_package_cb path
       (removelast (components (PyStr.slice_from (String.length path) base))).

(** The directory [is_relative] derives from its second argument. *)
Definition importing_directory (from_file : string) : string :=
  if isdir w from_file then from_file else OsPath.dirname from_file.

(** [c] does not occur in [s]. *)
Fixpoint lacks (c : ascii) (s : string) : bool :=
  match s with
  | EmptyString => true
  | String a s' => negb (Ascii.eqb a c) && lacks c s'
  end.

Fixpoint last_char (s : string) : option ascii :=
  match s with
  | EmptyString => None
  | String a EmptyString => Some a
  | String _ s' => last_char s'
  end.

(** The name of a directory entry: not empty, without separator. *)
Definition good_name (n : string) : bool :=
  PyStr.truthy n && lacks OsPath.sep_char n.

(** A directory with its final separator. *)
Definition with_sep (directory : string) : string :=
  if PyStr.endswith directory OsPath.sep then directory
  else directory +:+ OsPath.sep.

(** The walk of [os.walk] agrees with the disk: the entries have proper
    names, and the files it lists below [directory] exist. *)
#[warnings="-register-all"]
Inductive faithful : string -> DirTree -> Prop :=
| faithful_Dir directory dirs files :
    Forall (fun file => good_name file = true
                        /\ exists_ w (OsPath.join directory file) = true) files ->
    Forall (fun d => good_name (fst d) = true
                     /\ faithful (OsPath.join directory (fst d)) (snd d)) dirs ->
    faithful directory (Dir dirs files).


(** The test a root of the search path passes to be taken by
    [modpath_from_file], once the path cache has given its normal form. *)
Definition root_takes (base : string) (root : string) : bool :=
  let path := _normalize_path w (_canonicalize_path w root) in
  PyStr.truthy path
  && PyStr.startswith (OsPath.normcase base) path
  && check_modpath_has_init w path
       (removelast (components (PyStr.slice_from (String.length path) base))).


(** Every entry of the path cache is the normal form of its key. *)
Definition cache_coherent (st : State) : Prop :=
  forall p v, norm_cache st !! p = Some v -> v = _normalize_path w p.

End Vocabulary.

(** No two entries of a directory have the same name, at any depth. *)
#[warnings="-register-all"]
Inductive distinct_entries : DirTree -> Prop :=
| distinct_entries_Dir dirs files :
    List.NoDup (map fst dirs ++ files) ->
    Forall (fun d => distinct_entries (snd d)) dirs ->
    distinct_entries (Dir dirs files).

(** The tree holds [file] at the end of the chain of directories
    [dirs]; with [need_init], every directory on the way, the root
    included, holds an [__init__.py]. *)
Fixpoint tree_has (need_init : bool) (dirs : list string) (file : string)
  (tree : DirTree) {struct dirs} : Prop :=
  match tree with
  | Dir subs files =>
      (need_init = true -> In "__init__.py" files)
      /\ match dirs with
         | [] => In file files
         | d :: dirs' =>
             exists sub, In (d, sub) subs /\ tree_has need_init dirs' file sub
         end
  end.

(** * Properties *)

(** ** Reasoning about effectful code *)

Lemma bind_Ok {A B} (c : M A) (k : A -> M B) st a st1 :
  c st = (Ok a, st1) -> bind c k st = k a st1.
Proof. intros H. unfold bind. now rewrite H. Qed.

Lemma bind_inv {A B} (c : M A) (k : A -> M B) st r st' :
  bind c k st = (r, st') ->
  (exists a st1, c st = (Ok a, st1) /\ k a st1 = (r, st'))
  \/ (exists e, c st = (Raise e, st') /\ r = Raise e)
  \/ (exists f, c st = (Stuck f, st') /\ r = Stuck f).
Proof.
  unfold bind. destruct (c st) as [[a|e|f] st1]; intros H.
  - left. eauto.
  - right. left. inversion H; subst. eauto.
  - right. right. inversion H; subst. eauto.
Qed.

(** The rules of [keeps], for a preorder [R]. *)
Section Frame.
Context (R : relation State) `{!PreOrder R}.

Let R_refl : forall st, R st st := reflexivity.
Let R_trans : forall a b c, R a b -> R b c -> R a c :=
  fun a b c Hab Hbc => PreOrder_Transitive a b c Hab Hbc.

Lemma keeps_pure {A} (f : State -> Outcome A) : keeps R (fun st => (f st, st)).
Proof. intros st r st' H. inversion H; subst. apply R_refl. Qed.

Lemma keeps_ret {A} (a : A) : keeps R (ret a).
Proof. apply (keeps_pure (fun _ => Ok a)). Qed.

Lemma keeps_raise {A} e : keeps R (@raise A e).
Proof. apply (keeps_pure (fun _ => Raise e)). Qed.

Lemma keeps_stuck {A} f : keeps R (@stuck A f).
Proof. apply (keeps_pure (fun _ => Stuck f)). Qed.

Lemma keeps_get : keeps R get.
Proof. apply (keeps_pure (fun st => Ok st)). Qed.

Lemma keeps_read r : keeps R (read r).
Proof.
  intros st o st'. unfold read. destruct (heap st !! r); intros H;
    inversion H; subst; apply R_refl.
Qed.

Lemma keeps_modify f : (forall st, R st (f st)) -> keeps R (modify f).
Proof. intros Hf st r st' H. inversion H; subst. apply Hf. Qed.

Lemma keeps_bind {A B} (c : M A) (k : A -> M B) :
  keeps R c -> (forall a, keeps R (k a)) -> keeps R (bind c k).
Proof.
  intros Hc Hk st r st' H.
  destruct (bind_inv _ _ _ _ _ H) as [(a & st1 & H1 & H2)|[(e & H1 & _)|(f & H1 & _)]].
  - eapply R_trans; [eapply Hc | eapply Hk]; eauto.
  - eapply Hc; eauto.
  - eapply Hc; eauto.
Qed.

Lemma keeps_try_except {A} (c : M A) e (h : M A) :
  keeps R c -> keeps R h -> keeps R (try_except c e h).
Proof.
  intros Hc Hh st r st'. unfold try_except.
  destruct (c st) as [[a|e'|f] st1] eqn:E.
  - intros H; inversion H; subst. eapply Hc; eauto.
  - destruct (exc_eqb e e').
    + intros H. eapply R_trans; [eapply Hc | eapply Hh]; eauto.
    + intros H; inversion H; subst. eapply Hc; eauto.
  - intros H; inversion H; subst. eapply Hc; eauto.
Qed.
End Frame.

Lemma keeps_weaken {A} (R R' : relation State) (c : M A) :
  (forall a b, R a b -> R' a b) -> keeps R c -> keeps R' c.
Proof. intros Hsub Hc st r st' H. apply Hsub. eapply Hc; eauto. Qed.

Lemma safe_pure {A} (f : State -> Outcome A) (g : State -> State) :
  (forall st fl, f st <> Stuck fl) -> safe (fun st => (f st, g st)).
Proof. intros Hf st r st' H fl. inversion H; subst. apply Hf. Qed.

Lemma safe_ret {A} (a : A) : safe (ret a).
Proof. intros st r st' H f. inversion H. congruence. Qed.

Lemma safe_raise {A} e : safe (@raise A e).
Proof. intros st r st' H f. inversion H. congruence. Qed.

Lemma safe_get : safe get.
Proof. intros st r st' H f. inversion H. congruence. Qed.

Lemma safe_modify g : safe (modify g).
Proof. intros st r st' H f. inversion H. congruence. Qed.

Lemma safe_alloc l : safe (alloc l).
Proof. intros st r st' H f. inversion H. congruence. Qed.

Lemma safe_bind {A B} (c : M A) (k : A -> M B) :
  safe c -> (forall a, safe (k a)) -> safe (bind c k).
Proof.
  intros Hc Hk st r st' H f.
  destruct (bind_inv _ _ _ _ _ H) as [(a & st1 & H1 & H2)|[(e & H1 & ->)|(f' & H1 & ->)]].
  - eapply Hk; eauto.
  - congruence.
  - intros _. eapply Hc; eauto.
Qed.

Lemma safe_try_except {A} (c : M A) e (h : M A) :
  safe c -> safe h -> safe (try_except c e h).
Proof.
  intros Hc Hh st r st'. unfold try_except.
  destruct (c st) as [[a|e'|f] st1] eqn:E.
  - intros H; inversion H; subst. congruence.
  - destruct (exc_eqb e e').
    + intros H. eapply Hh; eauto.
    + intros H; inversion H; subst. congruence.
  - intros _ f' _. eapply Hc; eauto.
Qed.

(** Taking a goal about an effectful term apart along its structure. *)
Ltac effect_step :=
  match goal with
  | |- keeps _ (bind _ _) => apply keeps_bind; [apply _ | idtac | intros ?]
  | |- keeps _ (try_except _ _ _) => apply keeps_try_except; [apply _ | idtac | idtac]
  | |- keeps _ (ret _) => apply keeps_ret; apply _
  | |- keeps _ (raise _) => apply keeps_raise; apply _
  | |- keeps _ (stuck _) => apply keeps_stuck; apply _
  | |- keeps _ get => apply keeps_get; apply _
  | |- keeps _ (read _) => apply keeps_read; apply _
  | |- safe (bind _ _) => apply safe_bind; [idtac | intros ?]
  | |- safe (try_except _ _ _) => apply safe_try_except
  | |- safe (ret _) => apply safe_ret
  | |- safe (raise _) => apply safe_raise
  | |- safe get => apply safe_get
  | |- safe (modify _) => apply safe_modify
  | |- safe (alloc _) => apply safe_alloc
  | |- _ (match ?x with _ => _ end) => destruct x
  end.
Ltac effects := repeat effect_step.

(** ** The importer cache (line 656) *)

Section ImporterCache.
Variable w : World.

Lemma opens_app entry b evs1 evs2 :
  opens entry b (evs1 ++ evs2) = opens entry b evs1 + opens entry b evs2.
Proof. unfold opens. now rewrite List.filter_app, length_app. Qed.

Lemma pic_mem_app entry p q :
  pic_mem entry (p ++ q) = pic_mem entry p || pic_mem entry q.
Proof. unfold pic_mem. apply existsb_app. Qed.

Lemma opens_single e b e' b' :
  opens e b [EvZipOpen e' b'] = if bool_decide (e' = e /\ b' = b) then 1 else 0.
Proof.
  unfold opens. simpl.
  destruct (bool_decide (e' = e /\ b' = b)) eqn:E.
  - apply bool_decide_eq_true in E as [-> ->].
    now rewrite bool_decide_eq_true_2.
  - apply bool_decide_eq_false in E.
    rewrite bool_decide_eq_false_2; [reflexivity|].
    intros H; inversion H; subst; auto.
Qed.

Lemma eqb_refl' s : String.eqb s s = true.
Proof. apply String.eqb_refl. Qed.

Lemma precache_pass path : forall st,
  exists st' evs,
    _precache_zipimporters_loop w path st = (Ok tt, st') /\ pass_spec w path st st' evs.
Proof.
  induction path as [|entry rest IH]; intros st.
  - exists st, []. split; [reflexivity|].
    constructor; simpl; auto using app_nil_r.
    intros e Hc Hz. unfold opens, occurrences. simpl.
      repeat split; try lia; try congruence; intros; try lia; congruence.
  - cbn [_precache_zipimporters_loop].
    unfold bind at 1. cbn [get].
    destruct (pic_mem entry (pic st)) eqn:Hmem; cbn [negb].
    + (* already cached: nothing is opened *)
      unfold bind at 1. cbn [ret].
      destruct (IH st) as (st' & evs & Hrun & Hs).
      exists st', evs. split; [exact Hrun|].
      destruct Hs. constructor; auto.
      * intros e Hc Hz. destruct (pass_opened0 e Hc Hz) as (A & B & C & D).
        assert (String.eqb e entry = false) as Hne.
        { destruct (String.eqb_spec e entry); [congruence|reflexivity]. }
        unfold occurrences in *. cbn [List.filter]. rewrite Hne. auto.
      * intros e Hc Hz. destruct (pass_failed0 e Hc Hz) as (A & B & C).
        assert (String.eqb e entry = false) as Hne.
        { destruct (String.eqb_spec e entry); [congruence|reflexivity]. }
        unfold occurrences in *. cbn [List.filter]. rewrite Hne. auto.
    + unfold bind at 1. unfold bind at 1. unfold call_zipimporter.
      destruct (zipimport_zipimporter w entry) as [importer|] eqn:Hz;
        cbn [is_some modify ret].
      * (* opened: the handle enters the cache *)
        set (st1 := set_pic _ _).
        destruct (IH st1) as (st' & evs & Hrun & Hs).
        exists st', (EvZipOpen entry true :: evs). split; [exact Hrun|].
        assert (pic st1 = pic st ++ [(entry, Some importer)]) as Hpic
          by reflexivity.
        assert (trace st1 = trace st ++ [EvZipOpen entry true]) as Htr
          by reflexivity.
        assert (forall e, pic_mem e (pic st1)
                          = pic_mem e (pic st) || String.eqb entry e) as Hmem1.
        { intros e. rewrite Hpic, pic_mem_app. unfold pic_mem at 2. cbn.
          now rewrite orb_false_r. }
        assert (pic_mem entry (pic st1) = true) as Hin.
        { rewrite Hmem1, eqb_refl'. apply orb_true_r. }
        destruct Hs. constructor.
        -- rewrite pass_trace0, Htr. now rewrite <- app_assoc.
        -- rewrite pass_heap0. reflexivity.
        -- rewrite pass_norm0. reflexivity.
        -- intros e Hc.
           assert (pic_mem e (pic st1) = true) as Hc1.
           { rewrite Hmem1, Hc. reflexivity. }
           destruct (pass_cached0 e Hc1) as [A B]. split; [exact A|].
           intros b. change (EvZipOpen entry true :: evs)
             with ([EvZipOpen entry true] ++ evs).
           rewrite opens_app, B, opens_single.
           rewrite bool_decide_eq_false_2; [reflexivity|].
           intros [-> _]. congruence.
        -- intros e Hc Hze.
           change (EvZipOpen entry true :: evs)
             with ([EvZipOpen entry true] ++ evs).
           rewrite !opens_app, !opens_single.
           unfold occurrences. cbn [List.filter].
           destruct (String.eqb_spec e entry) as [->|Hne].
           ++ destruct (pass_cached0 entry Hin) as [A B].
              rewrite !B.
              rewrite bool_decide_eq_false_2 by (intros [_ ?]; congruence).
              rewrite bool_decide_eq_true_2 by auto.
              cbn [length]. repeat split; intros; first [exact A | lia].
           ++ assert (pic_mem e (pic st1) = false) as Hc1.
              { rewrite Hmem1, Hc. cbn.
                destruct (String.eqb_spec entry e); [congruence|reflexivity]. }
              destruct (pass_opened0 e Hc1 Hze) as (A & B & C & D).
              rewrite !bool_decide_eq_false_2 by (intros [? _]; congruence).
              cbn [Nat.add]. unfold occurrences in *. auto.
        -- intros e Hc Hze.
           change (EvZipOpen entry true :: evs)
             with ([EvZipOpen entry true] ++ evs).
           rewrite !opens_app, !opens_single.
           assert (e <> entry) as Hne by congruence.
           assert (pic_mem e (pic st1) = false) as Hc1.
           { rewrite Hmem1, Hc. cbn.
             destruct (String.eqb_spec entry e); [congruence|reflexivity]. }
           destruct (pass_failed0 e Hc1 Hze) as (A & B & C).
           rewrite !bool_decide_eq_false_2 by (intros [? _]; congruence).
           unfold occurrences in *. cbn [List.filter Nat.add].
           destruct (String.eqb_spec e entry); [congruence|]. auto.
      * (* not an archive: nothing is recorded *)
        set (st1 := log _ st).
        destruct (IH st1) as (st' & evs & Hrun & Hs).
        exists st', (EvZipOpen entry false :: evs). split; [exact Hrun|].
        destruct Hs. constructor.
        -- rewrite pass_trace0.
           change (trace st1) with (trace st ++ [EvZipOpen entry false]).
           now rewrite <- app_assoc.
        -- rewrite pass_heap0. reflexivity.
        -- rewrite pass_norm0. reflexivity.
        -- intros e Hc. destruct (pass_cached0 e Hc) as [A B].
           split; [exact A|]. intros b.
           change (EvZipOpen entry false :: evs)
             with ([EvZipOpen entry false] ++ evs).
           rewrite opens_app, B, opens_single.
           rewrite bool_decide_eq_false_2; [reflexivity|].
           intros [-> _]. congruence.
        -- intros e Hc Hze.
           change (EvZipOpen entry false :: evs)
             with ([EvZipOpen entry false] ++ evs).
           rewrite !opens_app, !opens_single.
           assert (e <> entry) as Hne.
           { intros ->. rewrite Hz in Hze. discriminate. }
           destruct (pass_opened0 e Hc Hze) as (A & B & C & D).
           rewrite !bool_decide_eq_false_2 by (intros [? _]; congruence).
           unfold occurrences in *. cbn [List.filter Nat.add].
           destruct (String.eqb_spec e entry); [congruence|]. auto.
        -- intros e Hc Hze.
           change (EvZipOpen entry false :: evs)
             with ([EvZipOpen entry false] ++ evs).
           rewrite !opens_app, !opens_single.
           destruct (pass_failed0 e Hc Hze) as (A & B & C).
           rewrite bool_decide_eq_false_2 by (intros [_ ?]; congruence).
           unfold occurrences in *. cbn [List.filter].
           destruct (String.eqb_spec e entry) as [->|Hne].
           ++ rewrite bool_decide_eq_true_2 by auto.
              cbn [length Nat.add]. auto.
           ++ rewrite bool_decide_eq_false_2 by (intros [? _]; congruence).
              auto.
Qed.

Lemma precache_run path st :
  exists st' evs,
    _precache_zipimporters w path st = (Ok tt, st')
    /\ pass_spec w (list_or path (sys_path w)) st st' evs.
Proof. unfold _precache_zipimporters. apply precache_pass. Qed.

End ImporterCache.

(** ** What the resolvers leave alone *)

#[global] Instance same_store_preorder : PreOrder same_store.
Proof.
  split.
  - intros st. split; reflexivity.
  - intros a b c [H1 H2] [H3 H4]. split; congruence.
Qed.

#[global] Instance only_at_preorder r : PreOrder (only_at r).
Proof.
  split.
  - intros st. repeat split; reflexivity.
  - intros a b c (H1 & H2 & H3) (H4 & H5 & H6). repeat split; try congruence.
    intros r' Hr. rewrite H6, H3; auto.
Qed.

#[global] Instance grows_preorder : PreOrder grows.
Proof.
  split.
  - intros st. split; auto.
  - intros a b c [H1 H2] [H3 H4]. split; [congruence|auto].
Qed.

Lemma same_store_only_at r a b : same_store a b -> only_at r a b.
Proof. intros [H1 H2]. repeat split; auto; now rewrite H1. Qed.

Lemma same_store_grows a b : same_store a b -> grows a b.
Proof. intros [H1 H2]. split; [auto|]. now rewrite H1. Qed.

Lemma keeps_fun {A} (R : relation State) (f : State -> Outcome A)
  (g : State -> State) :
  (forall st, R st (g st)) -> keeps R (fun st => (f st, g st)).
Proof. intros Hg st r st' H. inversion H; subst. apply Hg. Qed.

Section Resolver.
Variable w : World.

Lemma same_store_log e st : same_store st (log e st).
Proof. split; reflexivity. Qed.

Lemma same_store_set_pic p st : same_store st (set_pic p st).
Proof. split; reflexivity. Qed.

Lemma keeps_call_zipimporter e : keeps same_store (call_zipimporter w e).
Proof. apply keeps_fun. intros st. apply same_store_log. Qed.

Lemma keeps_call_imp_find_module n p :
  keeps same_store (call_imp_find_module w n p).
Proof. apply keeps_fun. intros st. apply same_store_log. Qed.

Lemma keeps_call_PathFinder_find_spec n p :
  keeps same_store (call_PathFinder_find_spec w n p).
Proof. apply keeps_fun. intros st. split; reflexivity. Qed.

Lemma safe_call_zipimporter e : safe (call_zipimporter w e).
Proof. apply safe_pure. congruence. Qed.

Lemma safe_call_imp_find_module n p : safe (call_imp_find_module w n p).
Proof. apply safe_pure. congruence. Qed.

Lemma safe_call_PathFinder_find_spec n p :
  safe (call_PathFinder_find_spec w n p).
Proof. apply safe_pure. congruence. Qed.

Lemma keeps__precache_zipimporters_loop path :
  keeps same_store (_precache_zipimporters_loop w path).
Proof.
  induction path as [|entry rest IH]; cbn [_precache_zipimporters_loop].
  - apply keeps_ret, _.
  - effects;
      first [ exact IH
            | apply keeps_call_zipimporter
            | apply keeps_modify; intros ?; apply same_store_set_pic ].
Qed.

Lemma safe__precache_zipimporters_loop path :
  safe (_precache_zipimporters_loop w path).
Proof.
  induction path as [|entry rest IH]; cbn [_precache_zipimporters_loop].
  - apply safe_ret.
  - effects; try exact IH. apply safe_call_zipimporter.
Qed.

Lemma _search_zip_loop_safe modpath items f :
  _search_zip_loop w modpath items <> Stuck f.
Proof.
  induction items as [|[filepath [importer|]] rest IH]; cbn; try congruence.
  destruct modpath; [congruence|].
  destruct (importer_find_module w importer s); [|exact IH].
  destruct (importer_find_module _ _ _); cbn; congruence.
Qed.

Lemma keeps_find_module finder modname module_parts processed submodule_path :
  keeps same_store
    (find_module w finder modname module_parts processed submodule_path).
Proof.
  destruct finder; cbn [find_module].
  - unfold ImpFinder_find_module. effects.
    apply keeps_call_imp_find_module.
  - unfold ZipFinder_find_module, _search_zip. effects.
    apply keeps_pure, _.
  - unfold PEP420SpecFinder_find_module. effects.
    apply keeps_call_PathFinder_find_spec.
Qed.

Lemma safe_find_module finder modname module_parts processed submodule_path :
  safe (find_module w finder modname module_parts processed submodule_path).
Proof.
  destruct finder; cbn [find_module].
  - unfold ImpFinder_find_module. effects. apply safe_call_imp_find_module.
  - unfold ZipFinder_find_module, _search_zip. effects.
    apply safe_pure. intros st f. apply _search_zip_loop_safe.
  - unfold PEP420SpecFinder_find_module. effects.
    apply safe_call_PathFinder_find_spec.
Qed.

Lemma keeps__find_spec_with_path search_path modname module_parts processed
  submodule_path :
  keeps same_store
    (_find_spec_with_path w search_path modname module_parts processed
       submodule_path).
Proof.
  unfold _find_spec_with_path, _precache_zipimporters.
  apply keeps_bind; [apply _ | apply keeps__precache_zipimporters_loop |].
  intros _.
  generalize ([ImpFinder; ZipFinder]
              ++ (if has_pep420 w then [PEP420SpecFinder] else [])).
  intros finders.
  induction finders as [|finder rest IH]; cbn [_find_spec_with_path_loop].
  - apply keeps_raise, _.
  - effects; try exact IH. apply keeps_find_module.
Qed.

Lemma safe__find_spec_with_path search_path modname module_parts processed
  submodule_path :
  safe (_find_spec_with_path w search_path modname module_parts processed
          submodule_path).
Proof.
  unfold _find_spec_with_path, _precache_zipimporters.
  apply safe_bind; [apply safe__precache_zipimporters_loop|].
  intros _.
  generalize ([ImpFinder; ZipFinder]
              ++ (if has_pep420 w then [PEP420SpecFinder] else [])).
  intros finders.
  induction finders as [|finder rest IH]; cbn [_find_spec_with_path_loop].
  - apply safe_raise.
  - effects; try exact IH. apply safe_find_module.
Qed.

(** *** The component loop (line 820) *)

Lemma read_Some r st l : heap st !! r = Some l -> read r st = (Ok l, st).
Proof. intros H. unfold read. now rewrite H. Qed.

Lemma read_None r st : heap st !! r = None -> read r st = (Stuck Dangling, st).
Proof. intros H. unfold read. now rewrite H. Qed.

Lemma pop0_cons r st x l :
  heap st !! r = Some (x :: l) ->
  pop0 r st = (Ok x, set_heap (<[r := l]> (heap st)) st).
Proof. intros H. unfold pop0. now rewrite H. Qed.

Lemma keeps_pop0 r : keeps (only_at r) (pop0 r).
Proof.
  intros st res st'. unfold pop0.
  destruct (heap st !! r) as [[|x l]|] eqn:E; intros H; inversion H; subst;
    try reflexivity.
  repeat split; cbn.
  - apply length_insert.
  - intros r' Hr. apply list_lookup_insert_ne. congruence.
Qed.

Lemma keeps__find_spec_loop r _path path module_parts :
  forall fuel processed submodule_path spec,
    keeps (only_at r)
      (_find_spec_loop w fuel r _path path module_parts processed
         submodule_path spec).
Proof.
  induction fuel as [|fuel IH]; intros processed submodule_path spec;
    cbn [_find_spec_loop]; effects;
    first [ apply IH
          | apply keeps_pop0
          | eapply keeps_weaken;
            [apply same_store_only_at | apply keeps__find_spec_with_path] ].
Qed.

Lemma _find_spec_unfold r path st l :
  heap st !! r = Some l ->
  _find_spec w r path st
  = _find_spec_loop w (length l) (length (heap st))
      (list_or path (sys_path w)) (to_arg path) l [] PNone None
      (set_heap (heap st ++ [l]) st).
Proof.
  intros Hl. unfold _find_spec.
  rewrite (bind_Ok _ _ _ _ _ (read_Some _ _ _ Hl)).
  assert (alloc l st = (Ok (length (heap st)), set_heap (heap st ++ [l]) st))
    as Halloc by reflexivity.
  rewrite (bind_Ok _ _ _ _ _ Halloc).
  assert (heap (set_heap (heap st ++ [l]) st) !! length (heap st) = Some l)
    as Hnew.
  { cbn. rewrite lookup_app_r by lia. now rewrite Nat.sub_diag. }
  rewrite (bind_Ok _ _ _ _ _ (read_Some _ _ _ Hnew)). reflexivity.
Qed.

Lemma _find_spec_dangling r path st :
  heap st !! r = None -> _find_spec w r path st = (Stuck Dangling, st).
Proof.
  intros Hl. unfold _find_spec, bind. now rewrite (read_None _ _ Hl).
Qed.

(** Resolution creates list objects of its own and changes none that
    was there. *)
Lemma keeps__find_spec r path : keeps grows (_find_spec w r path).
Proof.
  intros st res st' H.
  destruct (heap st !! r) as [l|] eqn:Hl.
  - rewrite (_find_spec_unfold _ _ _ _ Hl) in H.
    apply keeps__find_spec_loop in H. destruct H as (H1 & H2 & H3).
    split; [exact H2|].
    intros r' l' Hr'.
    assert (r' < length (heap st)) as Hlt by (eapply lookup_lt_Some; eauto).
    rewrite H3 by lia. cbn. rewrite lookup_app_l by lia. exact Hr'.
  - rewrite (_find_spec_dangling _ _ _ Hl) in H. inversion H; subst.
    reflexivity.
Qed.

(** With the length of the list as fuel the loop ends by itself. *)
Lemma _find_spec_loop_safe r _path path module_parts :
  forall fuel processed submodule_path spec st pending,
    heap st !! r = Some pending ->
    length pending <= fuel ->
    forall res st',
      _find_spec_loop w fuel r _path path module_parts processed
        submodule_path spec st = (res, st') ->
      forall f, res <> Stuck f.
Proof.
  induction fuel as [|fuel IH];
    intros processed submodule_path spec st pending Hp Hlen res st' H f;
    cbn [_find_spec_loop] in H;
    rewrite (bind_Ok _ _ _ _ _ (read_Some _ _ _ Hp)) in H.
  - destruct pending as [|x l]; [|cbn in Hlen; lia].
    destruct spec; inversion H; congruence.
  - destruct pending as [|x l].
    { destruct spec; inversion H; congruence. }
    rewrite (bind_Ok _ _ _ _ _ (pop0_cons _ _ _ _ Hp)) in H.
    set (st1 := set_heap _ st) in H.
    assert (heap st1 !! r = Some l) as Hp1.
    { subst st1. cbn. apply list_lookup_insert_eq.
      eapply lookup_lt_Some; eauto. }
    destruct (_find_spec_with_path w _path x module_parts processed
                (path_or submodule_path path) st1)
      as [[[finder found]|e|f'] st2] eqn:Hfind.
    + rewrite (bind_Ok _ _ _ _ _ Hfind) in H.
      assert (heap st2 !! r = Some l) as Hp2.
      { apply keeps__find_spec_with_path in Hfind. destruct Hfind as [-> _].
        exact Hp1. }
      rewrite (bind_Ok _ _ _ _ _ (read_Some _ _ _ Hp2)) in H.
      eapply IH in H; [exact H | exact Hp2 | cbn in Hlen; lia].
    + unfold bind in H. rewrite Hfind in H. inversion H; congruence.
    + exfalso. eapply safe__find_spec_with_path; eauto.
Qed.

(** [_find_spec] gets stuck on a dangling reference only. *)
Lemma _find_spec_safe r path st l :
  heap st !! r = Some l ->
  forall res st', _find_spec w r path st = (res, st') ->
  forall f, res <> Stuck f.
Proof.
  intros Hl res st' H f. rewrite (_find_spec_unfold _ _ _ _ Hl) in H.
  eapply _find_spec_loop_safe; [ | | exact H].
  - cbn. rewrite lookup_app_r by lia. now rewrite Nat.sub_diag.
  - reflexivity.
Qed.

(** A resolution that finds something was given a component. *)
Lemma _find_spec_Ok_nonempty r path st spec st' :
  _find_spec w r path st = (Ok spec, st') ->
  exists x l, heap st !! r = Some (x :: l).
Proof.
  intros H. destruct (heap st !! r) as [[|x l]|] eqn:Hl.
  - rewrite (_find_spec_unfold _ _ _ _ Hl) in H. cbn in H.
    unfold bind, read in H. cbn in H.
    rewrite lookup_app_r in H by lia. rewrite Nat.sub_diag in H.
    cbn in H. inversion H.
  - eauto.
  - rewrite (_find_spec_dangling _ _ _ Hl) in H. inversion H.
Qed.

(** *** Post-processing (line 626) *)

Lemma keeps__spec_from_modpath_lookup r path context :
  keeps grows (_spec_from_modpath_lookup w r path context).
Proof.
  unfold _spec_from_modpath_lookup. effects; apply keeps__find_spec.
Qed.

Lemma _spec_from_modpath_lookup_Ok_nonempty r path context st spec st1 :
  _spec_from_modpath_lookup w r path context st = (Ok spec, st1) ->
  exists x l, heap st !! r = Some (x :: l).
Proof.
  unfold _spec_from_modpath_lookup. destruct context as [context|].
  - unfold try_except.
    destruct (_find_spec w r (Some [context]) st) as [[a|e|f] st2] eqn:E.
    + intros _. eapply _find_spec_Ok_nonempty; eauto.
    + destruct (exc_eqb ImportError e); [|discriminate].
      intros H. apply _find_spec_Ok_nonempty in H as (x & l & Hl).
      destruct (heap st !! r) as [l0|] eqn:Hl0.
      * apply keeps__find_spec in E as [_ Hg].
        rewrite (Hg _ _ Hl0) in Hl. inversion Hl; subst. eauto.
      * rewrite (_find_spec_dangling _ _ _ Hl0) in E. discriminate.
    + discriminate.
  - apply _find_spec_Ok_nonempty.
Qed.

(** Once the chain lookup has found a descriptor, what the resolution
    returns is the post-processing of that descriptor. *)
Lemma _spec_from_modpath_after_lookup r path context st spec st1 :
  _spec_from_modpath_lookup w r path context st = (Ok spec, st1) ->
  _spec_from_modpath w r path context st = _spec_from_modpath_post w spec st1.
Proof.
  intros H. destruct (_spec_from_modpath_lookup_Ok_nonempty _ _ _ _ _ _ H)
    as (x & l & Hl).
  unfold _spec_from_modpath.
  rewrite (bind_Ok _ _ _ _ _ (read_Some _ _ _ Hl)).
  now rewrite (bind_Ok _ _ _ _ _ H).
Qed.

Lemma first_existing_None stem exts :
  first_existing w stem exts = None <->
  forall ext, In ext exts -> exists_ w (stem +:+ "." +:+ ext) = false.
Proof.
  induction exts as [|e rest IH]; cbn.
  - split; [intros _ ext []|reflexivity].
  - destruct (exists_ w (stem +:+ "." +:+ e)) eqn:E.
    + split; [discriminate|]. intros H. rewrite (H e) in E by auto.
      discriminate.
    + rewrite IH. split.
      * intros H ext [<-|Hin]; auto.
      * intros H ext Hin. auto.
Qed.

Lemma first_existing_Some stem exts p :
  first_existing w stem exts = Some p ->
  exists_ w p = true /\ In p (map (fun ext => stem +:+ "." +:+ ext) exts).
Proof.
  induction exts as [|e rest IH]; cbn; [discriminate|].
  destruct (exists_ w (stem +:+ "." +:+ e)) eqn:E.
  - intros H; inversion H; subst. auto.
  - intros H. destruct (IH H). auto.
Qed.

Lemma first_existing_is_Some stem exts ext :
  In ext exts -> exists_ w (stem +:+ "." +:+ ext) = true ->
  exists p, first_existing w stem exts = Some p.
Proof.
  intros Hin He. destruct (first_existing w stem exts) eqn:E; [eauto|].
  rewrite first_existing_None in E. rewrite (E _ Hin) in He. discriminate.
Qed.

Lemma first_existing_find stem exts :
  first_existing w stem exts
  = List.find (exists_ w) (map (fun ext => stem +:+ "." +:+ ext) exts).
Proof.
  induction exts as [|ext rest IH]; cbn [first_existing map List.find];
    [reflexivity|].
  now destruct (exists_ w (stem +:+ "." +:+ ext)).
Qed.

(** C1, as the code has it: a package directory found by the chain
    lookup comes back as a SOURCE descriptor located at the first of
    [__init__.py], ..., [__init__.pyc], [__init__.pyo] that exists in
    it, in this order; when none of them exists the resolution still
    returns the descriptor, of kind SOURCE and without a location. *)
Theorem package_directory_becomes_source modpath path context st spec st1 loc :
  _spec_from_modpath_lookup w modpath path context st = (Ok spec, st1) ->
  type spec = TyModule PKG_DIRECTORY ->
  location spec = Some loc ->
  _spec_from_modpath w modpath path context st
  = (Ok (replace_location_type spec (_has_init w loc) (TyModule PY_SOURCE)), st1)
  /\ match _has_init w loc with
     | Some init => exists_ w init = true /\ In init (init_candidates w loc)
     | None => forall init, In init (init_candidates w loc) ->
                            exists_ w init = false
     end
  /\ _has_init w loc = List.find (exists_ w) (init_candidates w loc)
  /\ (forall init, _has_init w loc = Some init ->
        exists earlier later,
          init_candidates w loc = earlier ++ init :: later
          /\ Forall (fun candidate => exists_ w candidate = false) earlier).
Proof.
  intros Hlook Hty Hloc.
  assert (Hfind : _has_init w loc
                  = List.find (exists_ w) (init_candidates w loc)).
  { unfold _has_init, init_candidates. apply first_existing_find. }
  split; [|split; [|split]].
  - rewrite (_spec_from_modpath_after_lookup _ _ _ _ _ _ Hlook).
    unfold _spec_from_modpath_post. now rewrite Hty, Hloc.
  - unfold _has_init, init_candidates.
    destruct (first_existing _ _ _) as [init|] eqn:E.
    + now apply first_existing_Some in E.
    + intros init Hin. apply in_map_iff in Hin as (ext & <- & Hin).
      eapply first_existing_None; eauto.
  - exact Hfind.
  - intros init. rewrite Hfind. clear.
    induction (init_candidates w loc) as [|c l IH]; cbn [List.find];
      [discriminate|].
    destruct (exists_ w c) eqn:Hc.
    + intros [= ->]. exists [], l. split; [reflexivity|constructor].
    + intros H. destruct (IH H) as (earlier & later & -> & Hall).
      exists (c :: earlier), later. split; [reflexivity|now constructor].
Qed.

(** C2, what the code does instead: for a COMPILED descriptor without
    any sibling source, [get_source_file] raises [NoSourceFile], the
    handler is entered, and its [spec.replace] raises [AttributeError]:
    the descriptor is not returned. *)
Theorem compiled_without_source_raises modpath path context st spec st1 loc :
  _spec_from_modpath_lookup w modpath path context st = (Ok spec, st1) ->
  type spec = TyModule PY_COMPILED ->
  location spec = Some loc ->
  (forall ext, In ext (PY_SOURCE_EXTS w) ->
               exists_ w (source_stem w loc +:+ "." +:+ ext) = false) ->
  get_source_file w loc false st1 = (Raise NoSourceFile, st1)
  /\ _spec_from_modpath w modpath path context st = (Raise AttributeError, st1).
Proof.
  intros Hlook Hty Hloc Hno.
  assert (get_source_file w loc false st1 = (Raise NoSourceFile, st1)) as Hsrc.
  { unfold get_source_file. unfold source_stem in Hno.
    destruct (OsPath.splitext _) as [base orig_ext]. cbn [fst] in Hno.
    apply first_existing_None in Hno. now rewrite Hno. }
  split; [exact Hsrc|].
  rewrite (_spec_from_modpath_after_lookup _ _ _ _ _ _ Hlook).
  unfold _spec_from_modpath_post. rewrite Hty, Hloc.
  unfold try_except, bind. now rewrite Hsrc.
Qed.

(** C3, what the code does instead: for a COMPILED descriptor whose
    source exists, [get_source_file] finds the source, and building the
    new descriptor raises [AttributeError] on [ModuleSpec.PY_SOURCE]:
    no SOURCE descriptor is returned. *)
Theorem compiled_with_source_raises modpath path context st spec st1 loc ext :
  _spec_from_modpath_lookup w modpath path context st = (Ok spec, st1) ->
  type spec = TyModule PY_COMPILED ->
  location spec = Some loc ->
  In ext (PY_SOURCE_EXTS w) ->
  exists_ w (source_stem w loc +:+ "." +:+ ext) = true ->
  (exists source_path,
      get_source_file w loc false st1 = (Ok source_path, st1)
      /\ exists_ w source_path = true)
  /\ _spec_from_modpath w modpath path context st = (Raise AttributeError, st1).
Proof.
  intros Hlook Hty Hloc Hin Hex.
  assert (exists source_path,
             get_source_file w loc false st1 = (Ok source_path, st1)
             /\ exists_ w source_path = true) as (source_path & Hsrc & Hsp).
  { unfold get_source_file. unfold source_stem in Hex.
    destruct (OsPath.splitext _) as [base orig_ext]. cbn [fst] in Hex.
    destruct (first_existing_is_Some _ _ _ Hin Hex) as (p & Hp).
    rewrite Hp. exists p. split; [reflexivity|].
    now apply first_existing_Some in Hp. }
  split; [eauto|].
  rewrite (_spec_from_modpath_after_lookup _ _ _ _ _ _ Hlook).
  unfold _spec_from_modpath_post. rewrite Hty, Hloc.
  unfold try_except, bind. now rewrite Hsrc.
Qed.

(** *** The archive finder (line 745) *)

Lemma _search_zip_loop_Ok modpath items file_type filename path :
  _search_zip_loop w modpath items = Ok (file_type, filename, path) ->
  file_type = PY_ZIPMODULE
  /\ filename = abspath w path +:+ "/" +:+ PyStr.join "/" modpath
  /\ exists importer,
       In (path, Some importer) items
       /\ importer_find_module w importer (hd "" modpath) = true
       /\ importer_find_module w importer (PyStr.join "/" modpath) = true.
Proof.
  induction items as [|[filepath [importer|]] rest IH]; cbn [_search_zip_loop].
  - discriminate.
  - destruct modpath as [|m0 ms]; [discriminate|].
    destruct (importer_find_module w importer m0) eqn:E0.
    + destruct (importer_find_module w importer (PyStr.join OsPath.sep (m0 :: ms)))
        eqn:E1; cbn [negb]; [|discriminate].
      intros H; inversion H; subst. repeat split.
      exists importer. repeat split; auto. now left.
    + intros H. destruct (IH H) as (A & B & importer' & C & D & E).
      repeat split; auto. exists importer'. repeat split; auto. now right.
  - intros H. destruct (IH H) as (A & B & importer' & C & D & E).
    repeat split; auto. exists importer'. repeat split; auto. now right.
Qed.

(** C4, as the code has it: a descriptor produced by the archive finder
    has kind [PY_ZIPMODULE], is located at the absolute path of the
    archive followed by the separator and the components of the whole
    module path, and its origin is the string ["egg"]. The archive is
    one whose handle is in the importer cache and which holds the first
    component and the whole path. *)
Theorem zip_finder_descriptor modname module_parts st spec st' :
  ZipFinder_find_module w modname module_parts st = (Ok (Some spec), st') ->
  st' = st
  /\ name spec = modname
  /\ type spec = TyModule PY_ZIPMODULE
  /\ origin spec = Some "egg"
  /\ exists archive importer,
       In (archive, Some importer) (pic st)
       /\ importer_find_module w importer (hd "" module_parts) = true
       /\ importer_find_module w importer (PyStr.join "/" module_parts) = true
       /\ location spec
          = Some (abspath w archive +:+ "/" +:+ PyStr.join "/" module_parts)
       /\ submodule_search_locations spec = PStr archive.
Proof.
  unfold ZipFinder_find_module, try_except, bind, _search_zip.
  destruct (_search_zip_loop w module_parts (pic st))
    as [[[file_type filename] path]|e|f] eqn:E.
  - cbn [ret]. intros H; inversion H; subst. cbn.
    apply _search_zip_loop_Ok in E as (-> & -> & importer & A & B & C).
    repeat split. exists path, importer. repeat split; auto.
  - destruct (exc_eqb ImportError e); cbn [ret]; discriminate.
  - discriminate.
Qed.

End Resolver.

(** ** Resolving twice *)

#[global] Instance same_pic_preorder : PreOrder same_pic.
Proof.
  split.
  - intros st. reflexivity.
  - intros a b c H1 H2. unfold same_pic in *. congruence.
Qed.

#[global] Instance same_scan_preorder w path : PreOrder (same_scan w path).
Proof.
  split.
  - intros st. reflexivity.
  - intros a b c H1 H2. unfold same_scan in *. congruence.
Qed.

Lemma related_ret {A} R (a : A) : related R (ret a).
Proof. intros sa sb H. split; [reflexivity|exact H]. Qed.

Lemma related_raise {A} R e : related R (@raise A e).
Proof. intros sa sb H. split; [reflexivity|exact H]. Qed.

Lemma related_bind {A B} R (c : M A) (k : A -> M B) :
  related R c -> (forall a, related R (k a)) -> related R (bind c k).
Proof.
  intros Hc Hk sa sb H. destruct (Hc sa sb H) as [Hout Hst]. unfold bind.
  destruct (c sa) as [[a|e|f] sa'], (c sb) as [[b|e'|f'] sb'];
    cbn [fst snd] in *; try discriminate.
  - inversion Hout; subst. now apply Hk.
  - inversion Hout; subst. split; [reflexivity|exact Hst].
  - inversion Hout; subst. split; [reflexivity|exact Hst].
Qed.

Lemma related_try_except {A} R (c : M A) e (h : M A) :
  related R c -> related R h -> related R (try_except c e h).
Proof.
  intros Hc Hh sa sb H. destruct (Hc sa sb H) as [Hout Hst]. unfold try_except.
  destruct (c sa) as [[a|e1|f] sa'], (c sb) as [[b|e2|f'] sb'];
    cbn [fst snd] in *; try discriminate; try (split; [exact Hout|exact Hst]).
  inversion Hout; subst. destruct (exc_eqb e e2); [now apply Hh|].
  split; [reflexivity|exact Hst].
Qed.

Section Twice.
Variable w : World.

Lemma pic_mem_precached path : forall p e,
  pic_mem e p = true -> pic_mem e (precached w path p) = true.
Proof.
  induction path as [|entry rest IH]; intros p e He; cbn [precached]; [exact He|].
  apply IH. destruct (pic_mem entry p); [exact He|].
  destruct (zipimport_zipimporter w entry); [|exact He].
  rewrite pic_mem_app, He. reflexivity.
Qed.

(** After a pass every entry of the path is cached or does not open. *)
Lemma precached_saturated path : forall p e,
  In e path ->
  pic_mem e (precached w path p) = true \/ zipimport_zipimporter w e = None.
Proof.
  induction path as [|entry rest IH]; intros p e Hin; [destruct Hin|].
  cbn [precached]. destruct Hin as [<-|Hin]; [|now apply IH].
  destruct (pic_mem entry p) eqn:Hmem.
  - left. now apply pic_mem_precached.
  - destruct (zipimport_zipimporter w entry) as [importer|] eqn:Hz; [|now right].
    left. apply pic_mem_precached. rewrite pic_mem_app. cbn.
    rewrite String.eqb_refl. apply orb_true_r.
Qed.

Lemma precached_fixed path : forall p,
  (forall e, In e path ->
             pic_mem e p = true \/ zipimport_zipimporter w e = None) ->
  precached w path p = p.
Proof.
  induction path as [|entry rest IH]; intros p Hsat; cbn [precached]; [reflexivity|].
  destruct (Hsat entry (or_introl eq_refl)) as [-> | ->].
  - apply IH. intros e He. apply Hsat. now right.
  - destruct (pic_mem entry p); apply IH; intros e He; apply Hsat; now right.
Qed.

(** A second pass over the same path changes nothing. *)
Lemma precached_idempotent path p :
  precached w path (precached w path p) = precached w path p.
Proof. apply precached_fixed. intros e He. now apply precached_saturated. Qed.

Lemma _precache_zipimporters_loop_pic path : forall st,
  exists st',
    _precache_zipimporters_loop w path st = (Ok tt, st')
    /\ pic st' = precached w path (pic st).
Proof.
  induction path as [|entry rest IH]; intros st;
    cbn [_precache_zipimporters_loop precached]; [now exists st|].
  unfold bind at 1. cbn [get].
  destruct (pic_mem entry (pic st)); cbn [negb].
  - unfold bind at 1. cbn [ret]. apply IH.
  - unfold bind at 1. unfold bind at 1. unfold call_zipimporter.
    destruct (zipimport_zipimporter w entry) as [importer|];
      cbn [is_some modify ret].
    + destruct (IH (set_pic (pic st ++ [(entry, Some importer)])
                      (log (EvZipOpen entry true) st)))
        as (st' & H1 & H2).
      exists st'. split; [exact H1|exact H2].
    + destruct (IH (log (EvZipOpen entry false) st)) as (st' & H1 & H2).
      exists st'. split; [exact H1|exact H2].
Qed.


(** From here on, the chain is that of an interpreter without the
    PEP 420 finder: only [_precache_zipimporters] writes the importer
    cache. *)
Hypothesis no_pep420 : has_pep420 w = false.

Lemma related_find_module finder modname module_parts processed submodule_path :
  related same_pic
    (find_module w finder modname module_parts processed submodule_path).
Proof.
  assert (forall A (r : Outcome A) e,
             related same_pic (fun st => (r, log e st))) as Hlog.
  { intros A r e sa sb H. split; [reflexivity|exact H]. }
  destruct finder; cbn [find_module].
  - unfold ImpFinder_find_module. apply related_bind; [apply Hlog|].
    intros [[? ?]|]; apply related_ret.
  - unfold ZipFinder_find_module.
    apply related_try_except; [|apply related_ret].
    apply related_bind.
    + intros sa sb H. unfold _search_zip. cbn [fst snd]. unfold same_pic in H.
      rewrite H. auto.
    + intros [[? ?] ?]. apply related_ret.
  - unfold PEP420SpecFinder_find_module. apply related_bind.
    + intros sa sb H. unfold call_PathFinder_find_spec, same_pic in *.
      cbn [fst snd pic log set_pic]. now rewrite H.
    + intros [?|]; apply related_ret.
Qed.

Lemma related__find_spec_with_path_loop finders modname module_parts processed
  submodule_path :
  related same_pic
    (_find_spec_with_path_loop w finders modname module_parts processed
       submodule_path).
Proof.
  induction finders as [|finder rest IH]; cbn [_find_spec_with_path_loop].
  - apply related_raise.
  - apply related_bind; [apply related_find_module|].
    intros [spec|]; [apply related_ret|exact IH].
Qed.

Lemma keeps_pic_find_module finder modname module_parts processed submodule_path :
  finder <> PEP420SpecFinder ->
  keeps same_pic
    (find_module w finder modname module_parts processed submodule_path).
Proof.
  assert (forall A (r : State -> Outcome A) e,
             keeps same_pic (fun st => (r st, log e st))) as Hlog.
  { intros A r e. apply keeps_fun. reflexivity. }
  destruct finder; cbn [find_module]; intros Hfinder.
  - unfold ImpFinder_find_module. effects. apply Hlog.
  - unfold ZipFinder_find_module, _search_zip. effects. apply keeps_pure, _.
  - congruence.
Qed.

Lemma keeps_pic__find_spec_with_path_loop finders modname module_parts processed
  submodule_path :
  Forall (fun finder => finder <> PEP420SpecFinder) finders ->
  keeps same_pic
    (_find_spec_with_path_loop w finders modname module_parts processed
       submodule_path).
Proof.
  induction 1 as [|finder rest Hfinder _ IH]; cbn [_find_spec_with_path_loop].
  - apply keeps_raise, _.
  - effects; try exact IH. now apply keeps_pic_find_module.
Qed.

(** The path that [ZipFinder.__init__] scans. *)
Let scanned (search_path : list string) : list string :=
  list_or (Some search_path) (sys_path w).

(** One lookup through the chain: its outcome is the same from two states
    that a scan makes alike, and it leaves the cache scanned. *)
Lemma _find_spec_with_path_twice search_path modname module_parts processed
  submodule_path sa sb :
  same_scan w (scanned search_path) sa sb ->
  fst (_find_spec_with_path w search_path modname module_parts processed
         submodule_path sa)
  = fst (_find_spec_with_path w search_path modname module_parts processed
           submodule_path sb)
  /\ pic (snd (_find_spec_with_path w search_path modname module_parts processed
                submodule_path sa))
     = precached w (scanned search_path) (pic sa)
  /\ pic (snd (_find_spec_with_path w search_path modname module_parts processed
                submodule_path sb))
     = precached w (scanned search_path) (pic sb).
Proof.
  intros Hscan. unfold _find_spec_with_path, _precache_zipimporters.
  fold (scanned search_path).
  destruct (_precache_zipimporters_loop_pic (scanned search_path) sa)
    as (sa1 & Ha & Hpa).
  destruct (_precache_zipimporters_loop_pic (scanned search_path) sb)
    as (sb1 & Hb & Hpb).
  rewrite !(bind_Ok _ _ _ _ _ Ha), !(bind_Ok _ _ _ _ _ Hb).
  rewrite no_pep420. set (finders := [ImpFinder; ZipFinder] ++ []).
  assert (Forall (fun finder => finder <> PEP420SpecFinder) finders) as Hfinders.
  { repeat constructor; discriminate. }
  assert (same_pic sa1 sb1) as Hpic.
  { unfold same_pic. rewrite Hpa, Hpb. exact Hscan. }
  destruct (related__find_spec_with_path_loop finders modname module_parts
              processed submodule_path sa1 sb1 Hpic) as [Hout _].
  split; [exact Hout|].
  split.
  - rewrite <- Hpa.
    destruct (_find_spec_with_path_loop w finders modname module_parts processed
                submodule_path sa1) as [r s1] eqn:E.
    apply keeps_pic__find_spec_with_path_loop in E; [exact E|exact Hfinders].
  - rewrite <- Hpb.
    destruct (_find_spec_with_path_loop w finders modname module_parts processed
                submodule_path sb1) as [r s1] eqn:E.
    apply keeps_pic__find_spec_with_path_loop in E; [exact E|exact Hfinders].
Qed.

Lemma keeps_scan__find_spec_with_path search_path modname module_parts processed
  submodule_path :
  keeps (same_scan w (scanned search_path))
    (_find_spec_with_path w search_path modname module_parts processed
       submodule_path).
Proof.
  intros st r st' H.
  destruct (_find_spec_with_path_twice search_path modname module_parts processed
              submodule_path st st (reflexivity _)) as (_ & Hp & _).
  rewrite H in Hp. cbn [snd] in Hp. unfold same_scan. rewrite Hp.
  apply precached_idempotent.
Qed.

Lemma same_pic_same_scan path a b : same_pic a b -> same_scan w path a b.
Proof. unfold same_pic, same_scan. now intros ->. Qed.

Lemma keeps_scan__find_spec_loop r _path path module_parts :
  forall fuel processed submodule_path spec,
    keeps (same_scan w (scanned _path))
      (_find_spec_loop w fuel r _path path module_parts processed
         submodule_path spec).
Proof.
  assert (keeps same_pic (pop0 r)) as Hpop.
  { intros st res st'. unfold pop0.
    destruct (heap st !! r) as [[|x l]|]; intros H; inversion H; reflexivity. }
  induction fuel as [|fuel IH]; intros processed submodule_path spec;
    cbn [_find_spec_loop]; effects;
    first [ apply IH
          | apply keeps_scan__find_spec_with_path
          | eapply keeps_weaken; [apply same_pic_same_scan | exact Hpop] ].
Qed.

(** The loop, from two states that hold the same pending list and that a
    scan makes alike: the outcome is the same. *)
Lemma _find_spec_loop_twice _path path module_parts :
  forall fuel ra rb processed submodule_path spec sa sb,
    heap sa !! ra = heap sb !! rb ->
    same_scan w (scanned _path) sa sb ->
    fst (_find_spec_loop w fuel ra _path path module_parts processed
           submodule_path spec sa)
    = fst (_find_spec_loop w fuel rb _path path module_parts processed
             submodule_path spec sb).
Proof.
  induction fuel as [|fuel IH];
    intros ra rb processed submodule_path spec sa sb Hheap Hscan;
    cbn [_find_spec_loop];
    (destruct (heap sb !! rb) as [pending|] eqn:Hb;
     [ rewrite (bind_Ok _ _ _ _ _ (read_Some _ _ _ Hheap)),
               (bind_Ok _ _ _ _ _ (read_Some _ _ _ Hb))
     | unfold bind; now rewrite (read_None _ _ Hheap), (read_None _ _ Hb) ]);
    (destruct pending as [|x rest]; [now destruct spec|]);
    [reflexivity|].
  rewrite (bind_Ok _ _ _ _ _ (pop0_cons _ _ _ _ Hheap)),
          (bind_Ok _ _ _ _ _ (pop0_cons _ _ _ _ Hb)).
  set (sa1 := set_heap _ sa). set (sb1 := set_heap _ sb).
  assert (heap sa1 !! ra = Some rest) as Ha1.
  { subst sa1. cbn. apply list_lookup_insert_eq. eapply lookup_lt_Some; eauto. }
  assert (heap sb1 !! rb = Some rest) as Hb1.
  { subst sb1. cbn. apply list_lookup_insert_eq. eapply lookup_lt_Some; eauto. }
  assert (same_scan w (scanned _path) sa1 sb1) as Hscan1 by exact Hscan.
  destruct (_find_spec_with_path_twice _path x module_parts processed
              (path_or submodule_path path) sa1 sb1 Hscan1) as (Hout & Hpa & Hpb).
  destruct (_find_spec_with_path w _path x module_parts processed
              (path_or submodule_path path) sa1) as [oa sa2] eqn:Ea.
  destruct (_find_spec_with_path w _path x module_parts processed
              (path_or submodule_path path) sb1) as [ob sb2] eqn:Eb.
  cbn [fst snd] in Hout, Hpa, Hpb. subst ob.
  destruct oa as [[finder found]|e|f].
  - rewrite (bind_Ok _ _ _ _ _ Ea), (bind_Ok _ _ _ _ _ Eb).
    assert (heap sa2 !! ra = Some rest) as Ha2.
    { apply keeps__find_spec_with_path in Ea as [-> _]. exact Ha1. }
    assert (heap sb2 !! rb = Some rest) as Hb2.
    { apply keeps__find_spec_with_path in Eb as [-> _]. exact Hb1. }
    rewrite (bind_Ok _ _ _ _ _ (read_Some _ _ _ Ha2)),
            (bind_Ok _ _ _ _ _ (read_Some _ _ _ Hb2)).
    apply IH; [congruence|].
    unfold same_scan. rewrite Hpa, Hpb.
    rewrite !precached_idempotent. exact Hscan.
  - unfold bind. now rewrite Ea, Eb.
  - unfold bind. now rewrite Ea, Eb.
Qed.

Lemma scanned_list_or path :
  scanned (list_or path (sys_path w)) = list_or path (sys_path w).
Proof.
  unfold scanned. destruct path as [[|x l]|]; cbn; try reflexivity;
    now destruct (sys_path w).
Qed.

(** Without the PEP 420 finder, resolving the same list a second time
    has the outcome of the first time. *)
Lemma _find_spec_twice r path st :
  fst (_find_spec w r path (snd (_find_spec w r path st)))
  = fst (_find_spec w r path st).
Proof.
  destruct (heap st !! r) as [l|] eqn:Hl.
  - destruct (_find_spec w r path st) as [res st1] eqn:H. cbn [fst snd].
    pose proof (keeps__find_spec _ _ _ _ _ _ H) as [_ Hg].
    pose proof (Hg _ _ Hl) as Hl1.
    rewrite (_find_spec_unfold _ _ _ _ _ Hl1).
    rewrite (_find_spec_unfold _ _ _ _ _ Hl) in H.
    replace res with (fst (res, st1)) by reflexivity. rewrite <- H.
    apply _find_spec_loop_twice.
    + cbn. rewrite !lookup_app_r by lia. now rewrite !Nat.sub_diag.
    + rewrite scanned_list_or.
      pose proof (keeps_scan__find_spec_loop _ _ _ _ _ _ _ _ _ _ _ H) as Hk.
      rewrite scanned_list_or in Hk. symmetry. exact Hk.
  - now rewrite !(_find_spec_dangling _ _ _ _ Hl).
Qed.

End Twice.

(** ** Lookups and the importer cache (lines 656, 780) *)

#[global] Instance quiet_preorder : PreOrder quiet.
Proof.
  split.
  - intros st. exists []. rewrite app_nil_r. auto.
  - intros a b c (evs1 & T1 & O1 & C1) (evs2 & T2 & O2 & C2).
    exists (evs1 ++ evs2). split; [rewrite T2, T1; now rewrite app_assoc|].
    split; [|auto].
    intros e o. unfold opens in *. rewrite List.filter_app, length_app.
    now rewrite (O1 e o), (O2 e o).
Qed.

#[global] Instance opened_at_most_once_preorder w entry :
  PreOrder (opened_at_most_once w entry).
Proof.
  split.
  - intros st. exists []. rewrite app_nil_r. cbn.
    repeat split; auto; lia.
  - intros a b c (evs1 & T1 & L1 & I1 & Z1 & C1) (evs2 & T2 & L2 & I2 & Z2 & C2).
    exists (evs1 ++ evs2). split; [rewrite T2, T1; now rewrite app_assoc|].
    assert (Happ : forall o, opens entry o (evs1 ++ evs2)
                             = opens entry o evs1 + opens entry o evs2).
    { intros o. unfold opens. now rewrite List.filter_app, length_app. }
    assert (Hfirst : opens entry true evs1 = 1 -> opens entry true evs2 = 0).
    { intros H. apply I1, C2 in H as [_ H]. apply H. }
    rewrite Happ. split; [|split; [|split]].
    + destruct (Nat.eq_dec (opens entry true evs1) 1) as [H|H];
        [rewrite (Hfirst H)|]; lia.
    + intros H. destruct (Nat.eq_dec (opens entry true evs1) 1) as [H1|H1].
      * now apply C2, I1.
      * apply I2. lia.
    + intros Hz. rewrite (Z1 Hz), (Z2 Hz). reflexivity.
    + intros Ha. destruct (C1 Ha) as [Hb O1]. destruct (C2 Hb) as [Hc O2].
      split; [exact Hc|]. intros o. now rewrite Happ, O1, O2.
Qed.

Lemma quiet_opened_at_most_once w entry a b :
  quiet a b -> opened_at_most_once w entry a b.
Proof.
  intros (evs & T & O & C). exists evs. rewrite (O entry true).
  repeat split; auto; try lia; discriminate.
Qed.

Section Lookups.
Variable w : World.

Lemma quiet_log e st :
  (forall entry o, e <> EvZipOpen entry o) -> quiet st (log e st).
Proof.
  intros He. exists [e]. split; [reflexivity|]. split; [|auto].
  intros entry o. unfold opens. cbn.
  rewrite bool_decide_eq_false_2; [reflexivity|apply He].
Qed.

Lemma quiet_set_heap h st : quiet st (set_heap h st).
Proof. exists []. cbn. rewrite app_nil_r. auto. Qed.

Lemma pic_mem_path_importer_cache entries : forall p e,
  pic_mem e p = true -> pic_mem e (path_importer_cache w entries p) = true.
Proof.
  induction entries as [|entry rest IH]; intros p e He;
    cbn [path_importer_cache]; [exact He|].
  apply IH. destruct (pic_mem entry p); [exact He|].
  rewrite pic_mem_app, He. reflexivity.
Qed.

Lemma keeps_quiet_pop0 r : keeps quiet (pop0 r).
Proof.
  intros st res st'. unfold pop0.
  destruct (heap st !! r) as [[|x l]|]; intros H; inversion H; subst;
    first [apply quiet_set_heap | reflexivity].
Qed.

Lemma keeps_quiet_alloc l : keeps quiet (alloc l).
Proof. apply keeps_fun. intros st. apply quiet_set_heap. Qed.

Lemma keeps_quiet_find_module finder modname module_parts processed
  submodule_path :
  keeps quiet (find_module w finder modname module_parts processed submodule_path).
Proof.
  destruct finder; cbn [find_module].
  - unfold ImpFinder_find_module. effects.
    apply keeps_fun. intros st. now apply quiet_log.
  - unfold ZipFinder_find_module, _search_zip. effects. apply keeps_pure, _.
  - unfold PEP420SpecFinder_find_module. effects.
    apply keeps_fun. intros st.
    transitivity (set_pic (path_importer_cache w
                             (PathFinder_scanned w modname submodule_path)
                             (pic st)) st).
    + exists []. cbn. rewrite app_nil_r. split; [reflexivity|].
      split; [reflexivity|]. intros e. apply pic_mem_path_importer_cache.
    + now apply quiet_log.
Qed.

Lemma keeps_quiet__find_spec_with_path_loop finders modname module_parts
  processed submodule_path :
  keeps quiet
    (_find_spec_with_path_loop w finders modname module_parts processed
       submodule_path).
Proof.
  induction finders as [|finder rest IH]; cbn [_find_spec_with_path_loop];
    effects; first [exact IH | apply keeps_quiet_find_module].
Qed.

(** A scan opens an entry with success at most once, and then caches it. *)
Lemma keeps_opened__precache_zipimporters entry path :
  keeps (opened_at_most_once w entry) (_precache_zipimporters w path).
Proof.
  intros st r st' H.
  destruct (precache_run w path st) as (st1 & evs & Hrun & Hs).
  rewrite Hrun in H. inversion H; subst. clear H.
  destruct Hs as [Ptr _ _ Pc Po Pf]. exists evs. split; [exact Ptr|].
  destruct (pic_mem entry (pic st)) eqn:Hmem.
  - destruct (Pc entry Hmem) as [A B]. rewrite (B true).
    repeat split; auto; try lia; discriminate.
  - destruct (zipimport_zipimporter w entry) as [importer|] eqn:Hz.
    + destruct (Po entry Hmem) as (A & B & C & D); [now rewrite Hz|].
      repeat split; try discriminate; [exact B|].
      intros H. apply D, C, H.
    + destruct (Pf entry Hmem Hz) as (A & B & C). rewrite A.
      repeat split; auto; try lia; discriminate.
Qed.

Lemma keeps_opened__find_spec_with_path entry search_path modname module_parts
  processed submodule_path :
  keeps (opened_at_most_once w entry)
    (_find_spec_with_path w search_path modname module_parts processed
       submodule_path).
Proof.
  unfold _find_spec_with_path. effects.
  - apply keeps_opened__precache_zipimporters.
  - eapply keeps_weaken; [apply quiet_opened_at_most_once|].
    apply keeps_quiet__find_spec_with_path_loop.
Qed.

Lemma keeps_opened__find_spec_loop entry r _path path module_parts :
  forall fuel processed submodule_path spec,
    keeps (opened_at_most_once w entry)
      (_find_spec_loop w fuel r _path path module_parts processed
         submodule_path spec).
Proof.
  induction fuel as [|fuel IH]; intros processed submodule_path spec;
    cbn [_find_spec_loop]; effects;
    first [ apply IH
          | apply keeps_opened__find_spec_with_path
          | eapply keeps_weaken;
              [apply quiet_opened_at_most_once | apply keeps_quiet_pop0] ].
Qed.

Lemma keeps_opened__find_spec entry r path :
  keeps (opened_at_most_once w entry) (_find_spec w r path).
Proof.
  unfold _find_spec. effects;
    first [ apply keeps_opened__find_spec_loop
          | eapply keeps_weaken;
              [apply quiet_opened_at_most_once | apply keeps_quiet_alloc] ].
Qed.

Lemma keeps_opened_file_info_from_modpath entry r path context_file :
  keeps (opened_at_most_once w entry)
    (file_info_from_modpath w r path context_file).
Proof.
  assert (Hpost : forall spec,
             keeps (opened_at_most_once w entry) (_spec_from_modpath_post w spec)).
  { intros spec. unfold _spec_from_modpath_post, get_source_file. effects. }
  assert (Hspec : forall r' context,
             keeps (opened_at_most_once w entry)
               (_spec_from_modpath w r' path context)).
  { intros r' context. unfold _spec_from_modpath, _spec_from_modpath_lookup.
    effects; first [apply keeps_opened__find_spec | apply Hpost]. }
  unfold file_info_from_modpath. effects;
    first [ apply Hspec
          | eapply keeps_weaken;
              [apply quiet_opened_at_most_once | apply keeps_quiet_alloc] ].
Qed.

(** What one lookup does about an entry. *)
Lemma lookup_effect c st entry :
  exists evs,
    trace (snd (lookup w c st)) = trace st ++ evs
    /\ opens entry true evs <= 1
    /\ (zipimport_zipimporter w entry = None -> opens entry true evs = 0)
    /\ (pic_mem entry (pic st) = true ->
        pic_mem entry (pic (snd (lookup w c st))) = true
        /\ forall o, opens entry o evs = 0)
    /\ (opens entry true evs = 1 ->
        pic_mem entry (pic (snd (lookup w c st))) = true)
    /\ (pic_mem entry (pic st) = false ->
        zipimport_zipimporter w entry = None ->
        opens entry false evs
        = occurrences entry (list_or (Some (lk_search_path c)) (sys_path w))
        /\ (has_pep420 w = false ->
            pic_mem entry (pic (snd (lookup w c st))) = false)).
Proof.
  destruct (lookup w c st) as [r st2] eqn:Hrun. cbn [snd].
  pose proof (keeps_opened__find_spec_with_path entry _ _ _ _ _ _ _ _ Hrun)
    as (evs & T & L & I & Z & C).
  exists evs. repeat split; auto; try (now apply C).
  - unfold lookup, _find_spec_with_path in Hrun.
    destruct (precache_run w (Some (lk_search_path c)) st)
      as (st1 & evs1 & Hscan & Hs).
    rewrite (bind_Ok _ _ _ _ _ Hscan) in Hrun.
    pose proof (keeps_quiet__find_spec_with_path_loop _ _ _ _ _ _ _ _ Hrun)
      as (evs2 & T2 & O2 & _).
    destruct Hs as [Ptr _ _ _ _ Pf]. destruct (Pf entry H H0) as (_ & B & _).
    assert (evs = evs1 ++ evs2) as ->.
    { apply (app_inv_head (trace st)). rewrite <- T, T2, Ptr.
      now rewrite app_assoc. }
    rewrite opens_app, B, (O2 entry false). lia.
  - intros Hpep. unfold lookup, _find_spec_with_path in Hrun.
    destruct (precache_run w (Some (lk_search_path c)) st)
      as (st1 & evs1 & Hscan & Hs).
    rewrite (bind_Ok _ _ _ _ _ Hscan) in Hrun. rewrite Hpep in Hrun.
    apply keeps_pic__find_spec_with_path_loop in Hrun;
      [|repeat constructor; discriminate].
    unfold same_pic in Hrun. rewrite Hrun.
    destruct Hs as [_ _ _ _ _ Pf]. now destruct (Pf entry H H0) as (_ & _ & ?).
Qed.

(** C7, as the code has it. Over any number of lookups through the
    chain, and so over a whole resolution, [_precache_zipimporters]
    creates an archive handle at most once for an entry, and never for
    an entry that the cache holds. An entry that does not open as an archive is not recorded by
    the scan: a lookup that starts with the entry out of the cache tries
    it once for each time it meets it, however often this has failed
    before. Only the finder of the interpreter, which the PEP 420 finder
    consults, may store the entry; where that finder is not in the
    chain the entry never enters the cache, and is tried every time a
    lookup meets it. *)
Theorem archive_handle_created_at_most_once calls : forall st entry,
  exists st' evs,
    repeated_lookups w calls st = (Ok tt, st')
    /\ trace st' = trace st ++ evs
    /\ opens entry true evs <= 1
    /\ (pic_mem entry (pic st) = true ->
        pic_mem entry (pic st') = true /\ forall b, opens entry b evs = 0)
    /\ (pic_mem entry (pic st) = false ->
        zipimport_zipimporter w entry = None ->
        opens entry true evs = 0
        /\ opens entry false evs <= met w entry calls
        /\ (has_pep420 w = false \/ length calls <= 1 ->
            opens entry false evs = met w entry calls)
        /\ (has_pep420 w = false -> pic_mem entry (pic st') = false))
    /\ (forall modpath path context_file s,
          opened_at_most_once w entry s
            (snd (file_info_from_modpath w modpath path context_file s))).
Proof.
  assert (Hres : forall entry modpath path context_file s,
             opened_at_most_once w entry s
               (snd (file_info_from_modpath w modpath path context_file s))).
  { intros entry modpath path context_file s.
    destruct (file_info_from_modpath w modpath path context_file s)
      as [res s'] eqn:E. cbn [snd].
    eapply keeps_opened_file_info_from_modpath. exact E. }
  induction calls as [|c rest IH]; intros st entry.
  - exists st, []. cbn. rewrite app_nil_r.
    repeat split; auto; try lia.
  - destruct (lookup_effect c st entry) as (evs1 & T1 & L1 & Z1 & C1 & I1 & F1).
    destruct (IH (snd (lookup w c st)) entry)
      as (st' & evs & Hrest & Htr & Hle & Hc & Hf & _).
    exists st', (evs1 ++ evs). cbn [repeated_lookups].
    split; [exact Hrest|].
    split; [rewrite Htr, T1; now rewrite app_assoc|].
    rewrite !opens_app.
    split; [|split; [|split; [|apply Hres]]].
    + destruct (Nat.eq_dec (opens entry true evs1) 1) as [H1|H1].
      * destruct (Hc (I1 H1)) as [_ H0]. rewrite (H0 true). lia.
      * lia.
    + intros Hmem. destruct (C1 Hmem) as [Hmem1 O1].
      destruct (Hc Hmem1) as [Hmem' O']. split; [exact Hmem'|].
      intros b. now rewrite opens_app, O1, O'.
    + intros Hmem Hz. destruct (F1 Hmem Hz) as [Hocc Hout].
      rewrite (Z1 Hz), Hocc. cbn [met length].
      destruct (pic_mem entry (pic (snd (lookup w c st)))) eqn:Hmem1.
      * destruct (Hc eq_refl) as [Hmem' O']. rewrite !O'.
        split; [reflexivity|]. split; [lia|]. split.
        -- intros [Hpep|Hlen]; [discriminate (Hout Hpep)|].
           destruct rest; [cbn; lia|cbn in Hlen; lia].
        -- intros Hpep. discriminate (Hout Hpep).
      * destruct (Hf eq_refl Hz) as (A & B & C & D). rewrite A.
        split; [reflexivity|]. split; [lia|]. split; [|exact D].
        intros [Hpep|Hlen]; [rewrite C; auto|].
        rewrite C; [reflexivity|]. right. lia.
Qed.

End Lookups.

(** ** The classifiers and the file-to-name resolver *)

Section Classifiers.
Variable w : World.

Lemma keeps_alloc l : keeps grows (alloc l).
Proof.
  intros st r st' H. inversion H; subst. split; [reflexivity|].
  intros r' l' Hr'. cbn. now apply lookup_app_l_Some.
Qed.

Lemma keeps_get_source_file filename include_no_ext :
  keeps same_store (get_source_file w filename include_no_ext).
Proof. unfold get_source_file. effects. Qed.

Lemma keeps__spec_from_modpath_post spec :
  keeps same_store (_spec_from_modpath_post w spec).
Proof.
  unfold _spec_from_modpath_post. effects. apply keeps_get_source_file.
Qed.

Lemma keeps__spec_from_modpath r path context :
  keeps grows (_spec_from_modpath w r path context).
Proof.
  unfold _spec_from_modpath. effects.
  - apply keeps__spec_from_modpath_lookup.
  - eapply keeps_weaken;
      [apply same_store_grows | apply keeps__spec_from_modpath_post].
Qed.

Lemma keeps_file_info_from_modpath r path context_file :
  keeps grows (file_info_from_modpath w r path context_file).
Proof.
  unfold file_info_from_modpath. effects;
    first [apply keeps__spec_from_modpath | apply keeps_alloc].
Qed.

Lemma keeps_file_from_modpath r path context_file :
  keeps grows (file_from_modpath w r path context_file).
Proof.
  unfold file_from_modpath. effects. apply keeps_file_info_from_modpath.
Qed.

Lemma keeps_is_standard_module_lookup modname :
  keeps grows (is_standard_module_lookup w modname).
Proof.
  unfold is_standard_module_lookup. effects;
    first [apply keeps_file_from_modpath | apply keeps_alloc].
Qed.

(** With a coherent cache, [_cache_normalize_path] is [_normalize_path]. *)
Lemma _cache_normalize_path_coherent path st :
  cache_coherent w st ->
  exists st',
    _cache_normalize_path w path st = (Ok (_normalize_path w path), st')
    /\ cache_coherent w st'
    /\ heap st' = heap st /\ pic st' = pic st /\ trace st' = trace st.
Proof.
  intros Hc. unfold _cache_normalize_path.
  destruct (norm_cache st !! path) as [v|] eqn:E.
  - exists st. rewrite (Hc _ _ E). auto.
  - destruct (PyStr.truthy path); cbn [negb].
    + eexists. split; [reflexivity|]. split; [|auto].
      intros p v. cbn. rewrite lookup_insert. case_decide.
      * subst. intros H; inversion H. reflexivity.
      * apply Hc.
    + exists st. auto.
Qed.

Lemma _cache_normalize_path_same_cache path sa sb :
  norm_cache sa = norm_cache sb ->
  fst (_cache_normalize_path w path sa) = fst (_cache_normalize_path w path sb).
Proof.
  intros H. unfold _cache_normalize_path. rewrite H.
  destruct (norm_cache sb !! path); [reflexivity|].
  now destruct (negb (PyStr.truthy path)).
Qed.

(** C8: a module whose top-level component resolves to a file below
    [EXT_LIB_DIR] is not standard, whatever [std_path] holds: the test
    against the third-party root comes first and decides. The root is
    compared in the normal form that [_cache_normalize_path] gives of
    it. *)
Theorem third_party_root_decides_first modname std_path st filename st1 ext_lib :
  is_standard_module_lookup w (hd "" (PyStr.split "." modname)) st
  = (Ok (Some filename), st1) ->
  fst (_cache_normalize_path w (EXT_LIB_DIR w) st) = Ok ext_lib ->
  PyStr.startswith (_normalize_path w filename) ext_lib = true ->
  fst (is_standard_module w modname std_path st) = Ok false.
Proof.
  intros Hlook Hext Hunder. unfold is_standard_module.
  assert (norm_cache st = norm_cache st1) as Hn.
  { apply keeps_is_standard_module_lookup in Hlook as [Hn _]. now symmetry. }
  rewrite (_cache_normalize_path_same_cache _ _ _ Hn) in Hext.
  destruct (_cache_normalize_path w (EXT_LIB_DIR w) st1) as [r st2] eqn:Hrun.
  cbn [fst] in Hext. subst r.
  unfold bind at 1. unfold try_except.
  rewrite (bind_Ok _ _ _ _ _ Hlook). cbn [ret].
  rewrite (bind_Ok _ _ _ _ _ Hrun). now rewrite Hunder.
Qed.

Lemma str_in_In x l : str_in x l = true <-> In x l.
Proof.
  unfold str_in. rewrite existsb_exists. split.
  - intros (y & Hin & Heq). apply String.eqb_eq in Heq. now subst.
  - intros Hin. exists x. split; [exact Hin|apply String.eqb_refl].
Qed.

(** C9, as the code has it: when the directory derived from
    [from_file] ([from_file] itself if it is a directory, its
    [dirname] otherwise) is a root of the search path, [is_relative]
    answers false and leaves the state as it was: no lookup is made. *)
Theorem is_relative_false_at_search_path_root modname from_file st :
  In (importing_directory w from_file) (sys_path w) ->
  is_relative w modname from_file st = (Ok false, st).
Proof.
  intros Hin. apply str_in_In in Hin. unfold importing_directory in Hin.
  unfold is_relative.
  destruct (isdir w from_file); cbn [negb] in *; now rewrite Hin.
Qed.

(** *** The extra path (line 315) *)

Lemma modpath_from_file_extrapath_first_match base extrapath cb
  keys_before key keys_after :
  Forall (fun k => root_matches w base cb k = false) keys_before ->
  root_matches w base cb key = true ->
  modpath_from_file_extrapath_loop w base extrapath cb
    (keys_before ++ key :: keys_after)
  = Some
      match dict_get (_canonicalize_path w key) extrapath with
      | Some package =>
          Ok (PyStr.split "." package
              ++ components
                   (PyStr.slice_from (String.length (extra_root w key)) base))
      | None => Raise KeyError
      end.
Proof.
  intros Hbefore Hkey.
  induction Hbefore as [|k ks Hk _ IH]; cbn [app modpath_from_file_extrapath_loop].
  - unfold root_matches, extra_root in Hkey.
    apply andb_true_iff in Hkey as [Hkey Hcb].
    rewrite Hkey, Hcb. reflexivity.
  - unfold root_matches, extra_root in Hk.
    destruct (PyStr.truthy _ && String.eqb _ _); [|exact IH].
    cbn [andb] in Hk. rewrite Hk. exact IH.
Qed.

Lemma dict_get_own_key key package before after :
  ~ In key (map fst before) ->
  dict_get key (before ++ (key, package) :: after) = Some package.
Proof.
  intros Hnot. unfold dict_get.
  induction before as [|[k v] rest IH]; cbn [app find fst].
  - now rewrite String.eqb_refl.
  - destruct (String.eqb_spec k key) as [->|Hne].
    + exfalso. apply Hnot. now left.
    + apply IH. intros Hin. apply Hnot. now right.
Qed.

(** C6, as the code has it: with an extra path, the first pair (in the
    order of the dictionary) whose root is a prefix of the base and
    whose remainder validates decides; the result is the package name
    registered under the canonical form of that root, split at the
    dots, followed by all the components of the remainder, the last
    one included. For a root that is its own canonical form the
    package name is the one of the pair itself. *)
Theorem extra_path_prefix_then_all_components filename cb before key package
  after registered st :
  Forall (fun kv => root_matches w (file_base w filename) cb (fst kv) = false)
    before ->
  root_matches w (file_base w filename) cb key = true ->
  dict_get (_canonicalize_path w key) (before ++ (key, package) :: after)
  = Some registered ->
  modpath_from_file_with_callback w filename
    (Some (before ++ (key, package) :: after)) cb st
  = (Ok (PyStr.split "." registered
         ++ components
              (PyStr.slice_from (String.length (extra_root w key))
                 (file_base w filename))), st)
  /\ (_canonicalize_path w key = key ->
      ~ In key (map fst before) ->
      registered = package).
Proof.
  intros Hbefore Hkey Hreg. split.
  - unfold modpath_from_file_with_callback. fold (file_base w filename).
    rewrite map_app. cbn [map fst].
    rewrite (modpath_from_file_extrapath_first_match _ _ _ _ _ _
               (proj2 (Forall_map _ _ _) Hbefore) Hkey).
    now rewrite Hreg.
  - intros Hcanon Hnot. rewrite Hcanon in Hreg.
    rewrite (dict_get_own_key _ _ _ _ Hnot) in Hreg. congruence.
Qed.

End Classifiers.

(** ** Strings and paths *)

Section Strings.
Import PyStr.

#[local] Arguments String.append !_ _ / : simpl nomatch.

Lemma app_assoc_s (a b c : string) : (a +:+ b) +:+ c = a +:+ (b +:+ c).
Proof. induction a as [|x a IH]; cbn; [reflexivity|now rewrite IH]. Qed.

Lemma app_nil_r_s (a : string) : a +:+ "" = a.
Proof. induction a as [|x a IH]; cbn; [reflexivity|now rewrite IH]. Qed.

Lemma length_app_s (a b : string) :
  String.length (a +:+ b) = String.length a + String.length b.
Proof. induction a as [|x a IH]; cbn; [reflexivity|now rewrite IH]. Qed.

Lemma slice_from_app (a b : string) : slice_from (String.length a) (a +:+ b) = b.
Proof. induction a as [|x a IH]; cbn; [now destruct b|exact IH]. Qed.

Lemma slice_from_app_ge (a b : string) k :
  slice_from (String.length a + k) (a +:+ b) = slice_from k b.
Proof. induction a as [|x a IH]; cbn; [reflexivity|exact IH]. Qed.

Lemma slice_to_app_ge (a b : string) k :
  slice_to (String.length a + k) (a +:+ b) = a +:+ slice_to k b.
Proof. induction a as [|x a IH]; cbn; [reflexivity|now rewrite IH]. Qed.

Lemma slice_to_0 (s : string) : slice_to 0 s = "".
Proof. now destruct s. Qed.

Lemma slice_to_app (a b : string) : slice_to (String.length a) (a +:+ b) = a.
Proof.
  rewrite <- (Nat.add_0_r (String.length a)), slice_to_app_ge, slice_to_0.
  apply app_nil_r_s.
Qed.

Lemma slice_to_from (n : nat) (s : string) : slice_to n s +:+ slice_from n s = s.
Proof.
  revert s. induction n as [|n IH]; intros [|x s]; cbn; try reflexivity.
  now rewrite IH.
Qed.


Lemma truthy_app_r (a b : string) : truthy b = true -> truthy (a +:+ b) = true.
Proof. destruct a; cbn; auto. Qed.

Lemma truthy_app_l (a b : string) : truthy a = true -> truthy (a +:+ b) = true.
Proof. destruct a; cbn; [discriminate|reflexivity]. Qed.

(** *** Occurrences of a character *)

Lemma lacks_app c (a b : string) : lacks c (a +:+ b) = lacks c a && lacks c b.
Proof.
  induction a as [|x a IH]; cbn; [reflexivity|].
  rewrite IH. now rewrite andb_assoc.
Qed.





Lemma split_lacks c (s : string) : lacks c s = true -> split c s = [s].
Proof.
  induction s as [|x s IH]; cbn; [reflexivity|].
  intros H. apply andb_true_iff in H as [Hx Hs].
  apply negb_true_iff in Hx. rewrite Hx, (IH Hs). reflexivity.
Qed.

Lemma split_app c (a rest : string) :
  lacks c a = true -> split c (a +:+ String c rest) = a :: split c rest.
Proof.
  induction a as [|x a IH]; cbn.
  - intros _. now rewrite Ascii.eqb_refl.
  - intros H. apply andb_true_iff in H as [Hx Hs].
    apply negb_true_iff in Hx. rewrite Hx, (IH Hs). reflexivity.
Qed.

(** *** The last character *)

Lemma endswith_char (s : string) c :
  endswith s (String c "") = true <-> last_char s = Some c.
Proof.
  unfold endswith. cbn [String.length].
  induction s as [|x s IH]; cbn [String.length last_char].
  - cbn. split; discriminate.
  - destruct s as [|y s].
    + cbn. destruct (Ascii.eqb_spec x c); split; intros H;
        try discriminate; try reflexivity; congruence.
    + rewrite <- IH. cbn [String.length Nat.leb Nat.sub andb].
      rewrite Nat.sub_0_r. reflexivity.
Qed.

Lemma last_char_app (a b : string) :
  truthy b = true -> last_char (a +:+ b) = last_char b.
Proof.
  intros Hb. induction a as [|x a IH]; cbn; [reflexivity|].
  destruct (a +:+ b) eqn:E; [|exact IH].
  destruct a, b; cbn in *; discriminate.
Qed.

Lemma last_char_lacks c (s : string) : lacks c s = true -> last_char s <> Some c.
Proof.
  induction s as [|x s IH]; cbn; [discriminate|].
  intros H. apply andb_true_iff in H as [Hx Hs]. apply negb_true_iff in Hx.
  destruct s as [|y s].
  - intros E; inversion E; subst. now rewrite Ascii.eqb_refl in Hx.
  - auto.
Qed.

Lemma last_char_snoc (a : string) c : last_char (a +:+ String c "") = Some c.
Proof. now rewrite last_char_app. Qed.

Lemma endswith_app_good (a d : string) :
  good_name d = true -> endswith (a +:+ d) OsPath.sep = false.
Proof.
  intros Hd. apply andb_true_iff in Hd as [Ht Hl].
  destruct (endswith (a +:+ d) OsPath.sep) eqn:E; [|reflexivity].
  apply endswith_char in E. rewrite last_char_app in E by exact Ht.
  now apply last_char_lacks in Hl.
Qed.

Lemma good_name_not_absolute (d : string) :
  good_name d = true -> startswith d OsPath.sep = false.
Proof.
  intros Hd. apply andb_true_iff in Hd as [Ht Hl].
  destruct d as [|x d]; [discriminate|]. cbn [lacks] in Hl.
  apply andb_true_iff in Hl as [Hx _]. apply negb_true_iff in Hx.
  change (startswith (String x d) OsPath.sep)
    with (Ascii.eqb OsPath.sep_char x && startswith d "").
  rewrite Ascii.eqb_sym, Hx. reflexivity.
Qed.



(** *** [os.path.join] *)

Lemma with_sep_ends (D : string) : last_char (with_sep D) = Some OsPath.sep_char.
Proof.
  unfold with_sep. destruct (endswith D OsPath.sep) eqn:E.
  - now apply endswith_char in E.
  - apply last_char_snoc.
Qed.


Lemma join_good (D x : string) :
  truthy D = true -> startswith x OsPath.sep = false ->
  OsPath.join D x = with_sep D +:+ x.
Proof.
  intros HD Hx. unfold OsPath.join, with_sep. rewrite Hx, HD. cbn [negb orb].
  destruct (endswith D OsPath.sep); [reflexivity|]. now rewrite app_assoc_s.
Qed.

Lemma with_sep_join (D d : string) :
  truthy D = true -> good_name d = true ->
  with_sep (OsPath.join D d) = OsPath.join D d +:+ OsPath.sep.
Proof.
  intros HD Hd. rewrite join_good by auto using good_name_not_absolute.
  unfold with_sep. now rewrite endswith_app_good.
Qed.

Lemma truthy_with_sep (D : string) : truthy (with_sep D) = true.
Proof.
  unfold with_sep. destruct (endswith D OsPath.sep) eqn:E.
  - destruct D; [discriminate|reflexivity].
  - apply truthy_app_r. reflexivity.
Qed.

Lemma truthy_join (D x : string) : truthy D = true -> truthy (OsPath.join D x) = true.
Proof.
  intros HD. unfold OsPath.join.
  destruct (startswith x OsPath.sep) eqn:E.
  - destruct x; [discriminate|reflexivity].
  - destruct (negb (truthy D) || endswith D OsPath.sep); now apply truthy_app_l.
Qed.


(** Below a directory, a chain of names is the directory, the separator,
    and the names joined by the separator. *)
Lemma join_all_good (names : list string) : forall D,
  truthy D = true -> names <> [] -> Forall (fun n => good_name n = true) names ->
  OsPath.join_all D names = with_sep D +:+ PyStr.join OsPath.sep names.
Proof.
  induction names as [|n names IH]; intros D HD Hne Hgood; [congruence|].
  inversion Hgood as [|? ? Hn Hrest]; subst.
  unfold OsPath.join_all in *. cbn [fold_left].
  destruct names as [|m names].
  - cbn. apply join_good; auto using good_name_not_absolute.
  - rewrite IH; [|now apply truthy_join|discriminate|exact Hrest].
    rewrite with_sep_join by auto.
    rewrite join_good by auto using good_name_not_absolute.
    cbn [PyStr.join String.concat]. now rewrite !app_assoc_s.
Qed.

Lemma join_all_snoc D names x :
  OsPath.join_all D (names ++ [x]) = OsPath.join (OsPath.join_all D names) x.
Proof. unfold OsPath.join_all. now rewrite fold_left_app. Qed.


(** *** [os.path.splitext] *)






(** *** Components *)


Lemma components_join (names : list string) :
  names <> [] -> Forall (fun n => good_name n = true) names ->
  components (PyStr.join OsPath.sep names) = names.
Proof.
  induction names as [|n names IH]; intros Hne Hgood; [congruence|].
  inversion Hgood as [|? ? Hn Hrest]; subst.
  apply andb_true_iff in Hn as [Ht Hl].
  destruct names as [|m names].
  - cbn [PyStr.join String.concat]. unfold components.
    rewrite (split_lacks _ _ Hl). cbn [List.filter]. now rewrite Ht.
  - change (PyStr.join OsPath.sep (n :: m :: names))
      with (n +:+ String OsPath.sep_char (PyStr.join OsPath.sep (m :: names))).
    unfold components. rewrite (split_app _ _ _ Hl). cbn [List.filter].
    rewrite Ht. f_equal. apply IH; [discriminate|exact Hrest].
Qed.



End Strings.

(** ** Discovery and the way back (lines 467, 310, 362) *)

Lemma DirTree_nested_ind (P : DirTree -> Prop) :
  (forall dirs files, Forall (fun d => P (snd d)) dirs -> P (Dir dirs files)) ->
  forall tree, P tree.
Proof.
  intros H. fix IH 1. intros [dirs files]. apply H.
  induction dirs as [|[name sub] dirs IHd]; constructor; [apply IH | exact IHd].
Qed.

Section Discovery.
Variable w : World.
Import PyStr.

Lemma list_remove_incl x l : incl (list_remove x l) l.
Proof.
  induction l as [|y l IH]; cbn; [apply incl_refl|].
  destruct (String.eqb y x).
  - apply incl_tl, incl_refl.
  - intros z [<-|Hz]; [now left|right; auto].
Qed.

Lemma _handle_blacklist_incl blacklist : forall dirnames filenames dn fn,
  _handle_blacklist blacklist dirnames filenames = (dn, fn) ->
  incl dn dirnames /\ incl fn filenames.
Proof.
  induction blacklist as [|norecurs rest IH]; intros dirnames filenames dn fn;
    cbn [_handle_blacklist].
  - intros H; inversion H; subst. split; apply incl_refl.
  - destruct (str_in norecurs dirnames).
    + intros H. apply IH in H as [H1 H2]. split; [|exact H2].
      eapply incl_tran; [exact H1|apply list_remove_incl].
    + destruct (str_in norecurs filenames).
      * intros H. apply IH in H as [H1 H2]. split; [exact H1|].
        eapply incl_tran; [exact H2|apply list_remove_incl].
      * apply IH.
Qed.



Lemma PY_SOURCE_EXTS_py : exists rest, PY_SOURCE_EXTS w = "py" :: rest.
Proof. unfold PY_SOURCE_EXTS. destruct (startswith _ _); eauto. Qed.



(** The loop over the search path, with a coherent path cache: the first
    root that takes the base decides. *)
Lemma modpath_from_file_syspath_loop_spec base : forall roots st,
  cache_coherent w st ->
  exists st',
    modpath_from_file_syspath_loop w base (check_modpath_has_init w) roots st
    = (match find (root_takes w base) roots with
       | Some root =>
           Ok (components
                 (slice_from
                    (String.length (_normalize_path w (_canonicalize_path w root)))
                    base))
       | None => Raise ImportError
       end, st')
    /\ cache_coherent w st'.
Proof.
  induction roots as [|root roots IH]; intros st Hc;
    cbn [modpath_from_file_syspath_loop find].
  - exists st. auto.
  - destruct (_cache_normalize_path_coherent w (_canonicalize_path w root) st Hc)
      as (st1 & Hrun & Hc1 & _).
    rewrite (bind_Ok _ _ _ _ _ Hrun). unfold root_takes.
    destruct (truthy _ && startswith _ _); cbn [andb]; [|now apply IH].
    destruct (check_modpath_has_init w _ _); [|now apply IH].
    exists st1. auto.
Qed.



(** *** Resolving what the finder agrees on *)

Lemma _find_spec_with_path_imp _path modname module_parts processed parg st loc ty :
  imp_find_module w modname parg = Some (loc, ty) ->
  exists st',
    _find_spec_with_path w _path modname module_parts processed parg st
    = (Ok (ImpFinder,
           mkModuleSpec modname (TyModule (_imp_type_to_module_type ty)) loc
             None PNone), st')
    /\ heap st' = heap st.
Proof.
  intros Himp. unfold _find_spec_with_path.
  destruct (precache_run w (Some _path) st) as (st1 & evs & Hrun & Hs).
  rewrite (bind_Ok _ _ _ _ _ Hrun).
  cbn [app _find_spec_with_path_loop find_module].
  unfold ImpFinder_find_module, call_imp_find_module, bind. rewrite Himp.
  eexists. split; [reflexivity|]. cbn. now destruct Hs.
Qed.






End Discovery.

(** ** The properties on concrete hosts *)

Section OnHosts.
Import Scenario.

(** The package of [plain] resolves to its [__init__.py]. *)
(** C7 as the specification words it fails. On a host with the PEP 420
    finder the package of the egg is resolved twice: the directory
    ["/r"] does not open as an archive and is not recorded, so the
    second resolution opens it again, while the egg is opened once.
    Within one resolution of [pkg.sub] on [plain] the directory is tried
    once for each component. What ends the retries is a lookup that goes
    as far as the finder of the interpreter, as one for a module that
    does not exist does: that finder stores the directory. *)
Lemma failed_open_is_retried :
  fst (file_info_from_modpath (with_pep420 egg) 0 None None (fresh [["pkg"]]))
  = Ok (mkModuleSpec "pkg" (TyModule PY_ZIPMODULE) (Some "/r/lib.egg/pkg")
          (Some "egg") (PStr "/r/lib.egg"))
  /\ trace (snd (file_info_from_modpath (with_pep420 egg) 0 None None
                   (snd (file_info_from_modpath (with_pep420 egg) 0 None None
                           (fresh [["pkg"]])))))
     = [EvZipOpen "/r" false; EvZipOpen "/r/lib.egg" true; EvImpFind "pkg" PNone;
        EvZipOpen "/r" false; EvImpFind "pkg" PNone]
  /\ pic (snd (file_info_from_modpath (with_pep420 egg) 0 None None
                 (snd (file_info_from_modpath (with_pep420 egg) 0 None None
                         (fresh [["pkg"]])))))
     = [("/r/lib.egg", Some (ZipImporter "/r/lib.egg"))]
  /\ trace (snd (file_info_from_modpath plain 0 None None
                   (fresh [["pkg"; "sub"]])))
     = [EvZipOpen "/r" false; EvImpFind "pkg" PNone;
        EvZipOpen "/r" false; EvImpFind "sub" (PList ["/r/pkg"])]
  /\ trace (snd (file_info_from_modpath (with_pep420 plain) 0 None None
                   (snd (file_info_from_modpath (with_pep420 plain) 0 None None
                           (fresh [["nope"]])))))
     = [EvZipOpen "/r" false; EvImpFind "nope" PNone; EvPathFinder "nope" PNone;
        EvImpFind "nope" PNone; EvPathFinder "nope" PNone].
Proof. repeat split; vm_compute; reflexivity. Qed.

Lemma package_directory_becomes_source_witness :
  exists st1,
    _spec_from_modpath_lookup with_bytecode 0 None None (fresh [["pkg"]])
    = (Ok pkg_dir, st1)
    /\ init_candidates with_bytecode "/r/pkg"
       = ["/r/pkg/__init__.py"; "/r/pkg/__init__.pyc"; "/r/pkg/__init__.pyo"]
    /\ fst (_spec_from_modpath with_bytecode 0 None None (fresh [["pkg"]]))
       = Ok (mkModuleSpec "pkg" (TyModule PY_SOURCE)
               (Some "/r/pkg/__init__.py") None PNone)
    /\ (_spec_from_modpath with_bytecode 0 None None (fresh [["pkg"]])
        = (Ok (replace_location_type pkg_dir (_has_init with_bytecode "/r/pkg")
                 (TyModule PY_SOURCE)), st1)
        /\ match _has_init with_bytecode "/r/pkg" with
           | Some init =>
               exists_ with_bytecode init = true
               /\ In init (init_candidates with_bytecode "/r/pkg")
           | None =>
               forall init, In init (init_candidates with_bytecode "/r/pkg") ->
                            exists_ with_bytecode init = false
           end
        /\ _has_init with_bytecode "/r/pkg"
           = List.find (exists_ with_bytecode)
               (init_candidates with_bytecode "/r/pkg")
        /\ (forall init, _has_init with_bytecode "/r/pkg" = Some init ->
              exists earlier later,
                init_candidates with_bytecode "/r/pkg"
                = earlier ++ init :: later
                /\ Forall (fun candidate =>
                             exists_ with_bytecode candidate = false) earlier)).
Proof.
  eexists. split; [vm_compute; reflexivity|].
  split; [vm_compute; reflexivity|]. split; [vm_compute; reflexivity|].
  apply (package_directory_becomes_source with_bytecode 0 None None
           (fresh [["pkg"]]) pkg_dir _ "/r/pkg").
  - vm_compute. reflexivity.
  - reflexivity.
  - reflexivity.
Defined.

(** C1 as the specification words it fails: on Jython a package shipped
    as [__init__$py.class] is found as a package directory, has none of
    the files [_has_init] looks for, and is returned all the same, as
    a SOURCE descriptor without a location. *)
Lemma package_without_init_is_returned :
  exists st1,
    _spec_from_modpath_lookup jython_compiled 0 None None (fresh [["pkg"]])
    = (Ok pkg_dir, st1)
    /\ _has_init jython_compiled "/r/pkg" = None
    /\ _spec_from_modpath jython_compiled 0 None None (fresh [["pkg"]])
       = (Ok (mkModuleSpec "pkg" (TyModule PY_SOURCE) None None PNone), st1)
    /\ fst (file_info_from_modpath jython_compiled 0 None None (fresh [["pkg"]]))
       = Ok (mkModuleSpec "pkg" (TyModule PY_SOURCE) None None PNone).
Proof. eexists. repeat split; vm_compute; reflexivity. Qed.

(** A module present as [mod.pyc] only: the resolution ends in
    [AttributeError]. *)
Lemma compiled_without_source_raises_witness :
  exists st1,
    _spec_from_modpath_lookup sourceless 0 None None (fresh [["mod"]])
    = (Ok mod_pyc, st1)
    /\ (get_source_file sourceless "/r/mod.pyc" false st1
        = (Raise NoSourceFile, st1)
        /\ _spec_from_modpath sourceless 0 None None (fresh [["mod"]])
           = (Raise AttributeError, st1)).
Proof.
  eexists. split.
  - vm_compute. reflexivity.
  - apply (compiled_without_source_raises sourceless 0 None None
             (fresh [["mod"]]) mod_pyc _ "/r/mod.pyc").
    + vm_compute. reflexivity.
    + reflexivity.
    + reflexivity.
    + intros ext [<-|[]]. vm_compute. reflexivity.
Defined.

(** The same through the public entry point. *)
Lemma sourceless_module_raises_AttributeError :
  fst (file_info_from_modpath sourceless 0 None None (fresh [["mod"]]))
  = Raise AttributeError.
Proof. vm_compute. reflexivity. Qed.

(** A module reported as [mod$py.class] with [mod.py] next to it: the
    resolution ends in [AttributeError] as well. *)
Lemma compiled_with_source_raises_witness :
  exists st1,
    _spec_from_modpath_lookup compiled_with_source 0 None None (fresh [["mod"]])
    = (Ok mod_class, st1)
    /\ ((exists source_path,
            get_source_file compiled_with_source "/r/mod$py.class" false st1
            = (Ok source_path, st1)
            /\ exists_ compiled_with_source source_path = true)
        /\ _spec_from_modpath compiled_with_source 0 None None (fresh [["mod"]])
           = (Raise AttributeError, st1)).
Proof.
  eexists. split.
  - vm_compute. reflexivity.
  - apply (compiled_with_source_raises compiled_with_source 0 None None
             (fresh [["mod"]]) mod_class _ "/r/mod$py.class" "py").
    + vm_compute. reflexivity.
    + reflexivity.
    + reflexivity.
    + now left.
    + vm_compute. reflexivity.
Defined.

Lemma compiled_module_with_source_raises_AttributeError :
  fst (file_info_from_modpath compiled_with_source 0 None None (fresh [["mod"]]))
  = Raise AttributeError
  /\ fst (get_source_file compiled_with_source "/r/mod$py.class" false (fresh []))
     = Ok "/r/mod.py".
Proof. split; vm_compute; reflexivity. Qed.

Lemma zip_finder_descriptor_witness :
  exists spec,
    ZipFinder_find_module egg "pkg" ["pkg"; "sub"] egg_scanned
    = (Ok (Some spec), egg_scanned)
    /\ (egg_scanned = egg_scanned
        /\ name spec = "pkg"
        /\ type spec = TyModule PY_ZIPMODULE
        /\ origin spec = Some "egg"
        /\ exists archive importer,
             In (archive, Some importer) (pic egg_scanned)
             /\ importer_find_module egg importer (hd "" ["pkg"; "sub"]) = true
             /\ importer_find_module egg importer (PyStr.join "/" ["pkg"; "sub"])
                = true
             /\ location spec
                = Some (abspath egg archive +:+ "/" +:+ PyStr.join "/" ["pkg"; "sub"])
             /\ submodule_search_locations spec = PStr archive).
Proof.
  eexists. split.
  - vm_compute. reflexivity.
  - apply (zip_finder_descriptor egg "pkg" ["pkg"; "sub"] egg_scanned).
    vm_compute. reflexivity.
Defined.

(** C4 as the specification words it fails: the origin of a descriptor
    found in an archive is ["egg"], not ["archive"]. *)
Lemma zip_descriptor_origin_is_egg :
  fst (file_info_from_modpath egg 0 None None (fresh [["pkg"; "sub"]]))
  = Ok (mkModuleSpec "sub" (TyModule PY_ZIPMODULE) (Some "/r/lib.egg/pkg/sub")
          (Some "egg") (PStr "/r/lib.egg"))
  /\ origin (mkModuleSpec "sub" (TyModule PY_ZIPMODULE)
               (Some "/r/lib.egg/pkg/sub") (Some "egg") (PStr "/r/lib.egg"))
     <> Some "archive".
Proof. split; [vm_compute; reflexivity | discriminate]. Qed.

(** [six] lies below [site-packages] and below the standard library
    directory at once; it is not standard. *)
Lemma third_party_root_decides_first_witness :
  exists st1,
    is_standard_module_lookup site_packages
      (hd "" (PyStr.split "." "six.moves")) (fresh [])
    = (Ok (Some "/usr/lib/python/site-packages/six.py"), st1)
    /\ fst (_cache_normalize_path site_packages (EXT_LIB_DIR site_packages)
              (fresh []))
       = Ok "/usr/lib/python/site-packages"
    /\ PyStr.startswith
         (_normalize_path site_packages "/usr/lib/python/site-packages/six.py")
         "/usr/lib/python/site-packages" = true
    /\ PyStr.startswith
         (_normalize_path site_packages "/usr/lib/python/site-packages/six.py")
         "/usr/lib/python" = true
    /\ fst (is_standard_module site_packages "six.moves"
              (Some ["/usr/lib/python"]) (fresh []))
       = Ok false.
Proof.
  eexists. split; [vm_compute; reflexivity|].
  split; [vm_compute; reflexivity|]. split; [vm_compute; reflexivity|].
  split; [vm_compute; reflexivity|].
  eapply (third_party_root_decides_first site_packages "six.moves"
            (Some ["/usr/lib/python"]) (fresh [])
            "/usr/lib/python/site-packages/six.py" _
            "/usr/lib/python/site-packages").
  - vm_compute. reflexivity.
  - vm_compute. reflexivity.
  - vm_compute. reflexivity.
Defined.

Lemma is_relative_false_at_search_path_root_witness :
  In (importing_directory plain "/r/top.py") (sys_path plain)
  /\ is_relative plain "pkg.sub" "/r/top.py" (fresh []) = (Ok false, fresh []).
Proof.
  assert (In (importing_directory plain "/r/top.py") (sys_path plain)) as H.
  { vm_compute. now left. }
  split; [exact H|].
  apply (is_relative_false_at_search_path_root plain "pkg.sub" "/r/top.py"
           (fresh []) H).
Defined.

(** C9 as the specification words it fails: [from_file] is the package
    directory ["/r/pkg"]; its [dirname] is the search-path root ["/r"],
    yet the module is looked up in ["/r/pkg"] and found relative. *)
Lemma is_relative_true_below_search_path_root :
  In (OsPath.dirname "/r/pkg") (sys_path plain)
  /\ is_relative plain "mod" "/r/pkg" (fresh [])
     = (Ok true, mkState [] [] ∅ [EvImpFind "mod" (PList ["/r/pkg"])]).
Proof. split; [vm_compute; now left | vm_compute; reflexivity]. Qed.

Lemma extra_path_prefix_then_all_components_witness :
  Forall (fun kv => root_matches plain (file_base plain "/r/pkg/sub.py")
                      (check_modpath_has_init plain) (fst kv) = false)
    [("/elsewhere", "x")]
  /\ root_matches plain (file_base plain "/r/pkg/sub.py")
       (check_modpath_has_init plain) "/r" = true
  /\ dict_get (_canonicalize_path plain "/r")
       ([("/elsewhere", "x")] ++ ("/r", "a.b") :: []) = Some "a.b"
  /\ modpath_from_file_with_callback plain "/r/pkg/sub.py"
       (Some ([("/elsewhere", "x")] ++ ("/r", "a.b") :: []))
       (check_modpath_has_init plain) (fresh [])
     = (Ok ["a"; "b"; "pkg"; "sub"], fresh []).
Proof.
  assert (Forall (fun kv => root_matches plain (file_base plain "/r/pkg/sub.py")
                              (check_modpath_has_init plain) (fst kv) = false)
            [("/elsewhere", "x")]) as H1.
  { repeat constructor. }
  assert (root_matches plain (file_base plain "/r/pkg/sub.py")
            (check_modpath_has_init plain) "/r" = true) as H2.
  { vm_compute. reflexivity. }
  assert (dict_get (_canonicalize_path plain "/r")
            ([("/elsewhere", "x")] ++ ("/r", "a.b") :: []) = Some "a.b") as H3.
  { vm_compute. reflexivity. }
  split; [exact H1|]. split; [exact H2|]. split; [exact H3|].
  exact (proj1 (extra_path_prefix_then_all_components plain "/r/pkg/sub.py"
                  (check_modpath_has_init plain) [("/elsewhere", "x")] "/r" "a.b"
                  [] "a.b" (fresh []) H1 H2 H3)).
Defined.

(** C6 as the specification words it fails: the module name, last
    component of the remainder, is part of the result. *)
Lemma extra_path_result_keeps_last_component :
  root_matches plain (file_base plain "/r/pkg/sub.py")
    (check_modpath_has_init plain) "/r/pkg" = true
  /\ components (PyStr.slice_from (String.length (extra_root plain "/r/pkg"))
                   (file_base plain "/r/pkg/sub.py")) = ["sub"]
  /\ fst (modpath_from_file plain "/r/pkg/sub.py" (Some [("/r/pkg", "a.b")])
            (fresh []))
     = Ok ["a"; "b"; "sub"]
  /\ ["a"; "b"; "sub"] <> PyStr.split "." "a.b" ++ removelast ["sub"].
Proof. repeat split; try (vm_compute; reflexivity). discriminate. Qed.

Lemma plain_tree_faithful : faithful plain "/r" plain_tree.
Proof.
  repeat first [ apply faithful_Dir | apply Forall_cons | apply Forall_nil
               | split | (vm_compute; reflexivity) ].
Qed.

Lemma fresh_coherent w lists : cache_coherent w (fresh lists).
Proof. intros p v H. cbn in H. rewrite lookup_empty in H. discriminate. Qed.



(** A resolution consumes its copy of the list, not the list. *)
Example _find_spec_consumes_a_copy :
  heap (snd (_find_spec plain 0 None (fresh [["pkg"; "sub"]])))
  = [["pkg"; "sub"]; []].
Proof. vm_compute. reflexivity. Qed.

End OnHosts.

(** * Further properties of the module *)

(** ** File names (lines 149, 502, 527, 835) *)

Section FileNames.
Variable w : World.
Import PyStr.

#[local] Arguments String.append !_ _ / : simpl nomatch.

Lemma rfind_Some_slice c (s : string) i :
  rfind c s = Some i -> exists rest, slice_from i s = String c rest.
Proof.
  revert i. induction s as [|a s IH]; intros i; cbn [rfind]; [discriminate|].
  destruct (rfind c s) as [j|] eqn:E.
  - intros [= <-]. cbn [slice_from]. apply IH. reflexivity.
  - destruct (Ascii.eqb_spec a c) as [->|]; [|discriminate].
    intros [= <-]. cbn [slice_from]. eauto.
Qed.

(** [root + ext == p], as the documentation of [os.path.splitext] has it. *)
Lemma splitext_concat (p : string) :
  fst (OsPath.splitext p) +:+ snd (OsPath.splitext p) = p.
Proof.
  unfold OsPath.splitext. destruct (rfind "." p) as [i|].
  - destruct (_ && _); cbn [fst snd].
    + apply slice_to_from.
    + apply app_nil_r_s.
  - cbn [fst snd]. apply app_nil_r_s.
Qed.

(** The extension is empty or begins with a period. *)
Lemma splitext_ext (p : string) :
  snd (OsPath.splitext p) = ""
  \/ exists rest, snd (OsPath.splitext p) = String "." rest.
Proof.
  unfold OsPath.splitext. destruct (rfind "." p) as [i|] eqn:E.
  - destruct (_ && _); cbn [fst snd]; [|now left].
    right. eapply rfind_Some_slice. exact E.
  - now left.
Qed.

Lemma endswith_app (a b : string) : endswith (a +:+ b) b = true.
Proof.
  unfold endswith. rewrite length_app_s.
  replace (String.length a + String.length b - String.length b)
    with (String.length a) by lia.
  rewrite slice_from_app, String.eqb_refl, andb_true_r.
  apply Nat.leb_le. lia.
Qed.

Lemma endswith_unique (s a b : string) :
  endswith s a = true -> endswith s b = true ->
  String.length a = String.length b -> a = b.
Proof.
  unfold endswith. intros Ha Hb Hl.
  apply andb_true_iff in Ha as [_ Ha]. apply andb_true_iff in Hb as [_ Hb].
  apply String.eqb_eq in Ha, Hb. rewrite Hl in Ha. congruence.
Qed.

Lemma slice_from_S n : forall s : string,
  slice_from (S n) s = slice_from 1 (slice_from n s).
Proof.
  induction n as [|n IH]; intros [|x s]; try reflexivity.
  cbn [slice_from] in *. rewrite IH. reflexivity.
Qed.

Lemma endswith_tail (s suf : string) c :
  endswith s (String c suf) = true -> endswith s suf = true.
Proof.
  unfold endswith. cbn [String.length]. intros H.
  apply andb_true_iff in H as [Hl H].
  apply Nat.leb_le in Hl. apply String.eqb_eq in H.
  apply andb_true_iff. split; [apply Nat.leb_le; lia|].
  replace (String.length s - String.length suf)
    with (S (String.length s - S (String.length suf))) by lia.
  rewrite slice_from_S, H. cbn [slice_from]. apply String.eqb_refl.
Qed.

(** X1: [_is_python_file] says of itself that it ignores the compiled
    files; it does, for every name with one of their two extensions. *)
Theorem compiled_files_are_not_python_files (filename : string) :
  endswith filename ".pyc" = true \/ endswith filename ".pyo" = true ->
  _is_python_file filename = false.
Proof.
  intros H. unfold _is_python_file. cbn [existsb].
  assert (Hno : forall a b : string,
            endswith filename a = true -> String.length a = String.length b ->
            a <> b -> endswith filename b = false).
  { intros a b Ha Hl Hab. destruct (endswith filename b) eqn:Hb; [|reflexivity].
    destruct Hab. now apply (endswith_unique filename). }
  destruct H as [H|H]; pose proof (endswith_tail _ _ _ H) as H3.
  - rewrite (Hno "pyc" ".py"), (Hno "pyc" ".so"), (Hno ".pyc" ".pyd"),
      (Hno ".pyc" ".pyw"); auto; discriminate.
  - rewrite (Hno "pyo" ".py"), (Hno "pyo" ".so"), (Hno ".pyo" ".pyd"),
      (Hno ".pyo" ".pyw"); auto; discriminate.
Qed.

Lemma PY_SOURCE_EXTS_cases ext :
  str_in ext (PY_SOURCE_EXTS w) = true -> ext = "py" \/ ext = "pyw".
Proof.
  unfold PY_SOURCE_EXTS, str_in.
  destruct (startswith (sys_platform w) "win"); cbn [existsb]; intros H;
    repeat (apply orb_true_iff in H as [H|H]);
    try discriminate; apply String.eqb_eq in H; auto.
Qed.

(** X2: what [is_python_source] accepts, [_is_python_file] accepts. *)
Theorem python_source_is_python_file (filename : string) :
  is_python_source w filename = true -> _is_python_file filename = true.
Proof.
  unfold is_python_source. intros H.
  apply PY_SOURCE_EXTS_cases in H.
  pose proof (splitext_concat filename) as Hc.
  destruct (splitext_ext filename) as [E|[rest E]]; rewrite E in H, Hc.
  - cbn in H. destruct H; discriminate.
  - cbn [slice_from] in H. unfold _is_python_file. cbn [existsb].
    rewrite <- Hc.
    destruct H as [-> | ->]; rewrite endswith_app;
      rewrite ?orb_true_r; reflexivity.
Qed.

(** X3: [get_source_file] returns a path that exists, or raises
    [NoSourceFile]; it returns the first source extension that exists
    beside the stem, and raises only when none does. *)
Theorem get_source_file_returns_existing filename include_no_ext st :
  exists r,
    get_source_file w filename include_no_ext st = (r, st)
    /\ match r with
       | Ok p =>
           exists_ w p = true
           /\ (In p (map (fun ext => source_stem w filename +:+ "." +:+ ext)
                       (PY_SOURCE_EXTS w))
               \/ (include_no_ext = true /\ p = source_stem w filename))
       | Raise e =>
           e = NoSourceFile
           /\ forall ext, In ext (PY_SOURCE_EXTS w) ->
                exists_ w (source_stem w filename +:+ "." +:+ ext) = false
       | Stuck _ => False
       end.
Proof.
  unfold get_source_file, source_stem.
  destruct (OsPath.splitext (abspath w (_path_from_filename w filename)))
    as [base orig_ext]. cbn [fst].
  destruct (first_existing w base (PY_SOURCE_EXTS w)) as [p|] eqn:E.
  - eexists. split; [reflexivity|].
    apply first_existing_Some in E as [He Hin]. auto.
  - destruct (include_no_ext && negb (truthy orig_ext) && exists_ w base) eqn:C.
    + eexists. split; [reflexivity|].
      apply andb_true_iff in C as [C He]. apply andb_true_iff in C as [C _].
      auto.
    + eexists. split; [reflexivity|]. split; [reflexivity|].
      now apply first_existing_None.
Qed.

(** X4: the docstring of [get_source_file]: the name of a Python source
    file that exists, absolute already, is returned as it is. *)
Theorem get_source_file_of_source_file filename include_no_ext st :
  _path_from_filename w filename = filename ->
  abspath w filename = filename ->
  snd (OsPath.splitext filename) = ".py" ->
  exists_ w filename = true ->
  get_source_file w filename include_no_ext st = (Ok filename, st).
Proof.
  intros Hp Ha Hext He. unfold get_source_file. rewrite Hp, Ha.
  pose proof (splitext_concat filename) as Hc. rewrite Hext in Hc.
  destruct (OsPath.splitext filename) as [base orig_ext]. cbn [fst snd] in *.
  destruct (PY_SOURCE_EXTS_py w) as [rest ->]. cbn [first_existing].
  change (base +:+ "." +:+ "py") with (base +:+ ".py").
  rewrite Hc, He. reflexivity.
Qed.

Lemma partition_head_class (stem : string) :
  lacks "$" stem = true ->
  partition_head "$py.class" (stem +:+ "$py.class") = Some stem.
Proof.
  induction stem as [|c stem IH]; intros H.
  - reflexivity.
  - cbn [lacks] in H. apply andb_true_iff in H as [Hc H].
    apply negb_true_iff in Hc. rewrite Ascii.eqb_sym in Hc.
    change (String c stem +:+ "$py.class") with (String c (stem +:+ "$py.class")).
    cbn [partition_head startswith]. rewrite Hc. cbn [andb].
    now rewrite IH.
Qed.

(** X5: from the name of a compiled file to the name of its source:
    Jython's [$py.class] and, on Python 2, [.pyc] give [.py]; on
    CPython 3 the name is left as it is. *)
Theorem _path_from_filename_of_compiled (stem : string) :
  lacks "$" stem = true ->
  _path_from_filename w
    (stem +:+ (if IS_JYTHON w then "$py.class" else ".pyc"))
  = if negb (IS_JYTHON w) && python3 w then stem +:+ ".pyc"
    else stem +:+ ".py".
Proof.
  intros H. unfold _path_from_filename.
  destruct (IS_JYTHON w); cbn [negb andb].
  - now rewrite partition_head_class.
  - destruct (python3 w); [reflexivity|].
    rewrite endswith_app. unfold drop_last. rewrite length_app_s.
    replace (String.length stem + String.length ".pyc" - 1)
      with (String.length stem + 3) by (cbn; lia).
    now rewrite slice_to_app_ge.
Qed.

End FileNames.

(** ** Listing the files of a package (lines 163, 467) *)

Section Listing.
Variable w : World.
Import PyStr.

Lemma list_remove_In x l y :
  List.NoDup l -> In y (list_remove x l) <-> In y l /\ y <> x.
Proof.
  induction l as [|z l IH]; cbn [list_remove]; intros Hnd.
  - cbn. tauto.
  - inversion Hnd as [|? ? Hz Hnd']; subst.
    destruct (String.eqb_spec z x) as [->|Hne].
    + cbn. split.
      * intros H. split; [now right|]. intros ->. contradiction.
      * intros [[<-|H] Hy]; [congruence|exact H].
    + cbn. rewrite (IH Hnd'). split.
      * intros [<-|[H Hy]]; auto.
      * intros [[<-|H] Hy]; auto.
Qed.

Lemma list_remove_NoDup x l : List.NoDup l -> List.NoDup (list_remove x l).
Proof.
  induction l as [|z l IH]; cbn [list_remove]; intros Hnd; [exact Hnd|].
  inversion Hnd as [|? ? Hz Hnd']; subst.
  destruct (String.eqb z x); [exact Hnd'|].
  constructor; [|auto].
  intros H. apply list_remove_incl in H. contradiction.
Qed.

(** What [_handle_blacklist] leaves of the names of a directory. *)
Lemma _handle_blacklist_spec blacklist : forall dirnames filenames dn fn,
  List.NoDup dirnames -> List.NoDup filenames ->
  _handle_blacklist blacklist dirnames filenames = (dn, fn) ->
  (forall n, In n dn <-> In n dirnames /\ ~ In n blacklist)
  /\ (forall n, In n fn -> In n filenames)
  /\ (forall n, In n filenames -> ~ In n blacklist -> In n fn)
  /\ (forall n, In n blacklist -> ~ In n dirnames -> ~ In n fn).
Proof.
  induction blacklist as [|x rest IH]; intros dirnames filenames dn fn Hd Hf;
    cbn [_handle_blacklist].
  - intros [= <- <-]. cbn. repeat split; tauto.
  - destruct (str_in x dirnames) eqn:Exd.
    + apply str_in_In in Exd. intros H.
      apply IH in H as (H1 & H2 & H3 & H4);
        [|now apply list_remove_NoDup|exact Hf].
      split; [|split; [|split]].
      * intros n. rewrite H1, list_remove_In by exact Hd. cbn [In].
        split; [intros [[? ?] ?]|intros [? ?]]; repeat split; auto;
          intros [?|?]; congruence || auto.
      * exact H2.
      * intros n Hn Hnb. apply H3; [exact Hn|]. intros ?. apply Hnb. now right.
      * intros n [<-|Hn] Hnd; [contradiction|].
        apply H4; [exact Hn|]. intros Hr. apply list_remove_incl in Hr. auto.
    + assert (Hxd : ~ In x dirnames).
      { intros Hx. apply str_in_In in Hx. congruence. }
      destruct (str_in x filenames) eqn:Exf.
      * intros H.
        apply IH in H as (H1 & H2 & H3 & H4);
          [|exact Hd|now apply list_remove_NoDup].
        split; [|split; [|split]].
        -- intros n. rewrite H1. cbn [In].
           split; [intros [? ?]|intros [? ?]]; split; auto.
           intros [<-|?]; auto.
        -- intros n Hn. apply H2 in Hn. now apply list_remove_incl in Hn.
        -- intros n Hn Hnb. apply H3; [|intros ?; apply Hnb; now right].
           apply list_remove_In; [exact Hf|]. split; [exact Hn|].
           intros ->. apply Hnb. now left.
        -- intros n [<-|Hn] Hnd; [|now apply H4].
           intros Hx. apply H2, list_remove_In in Hx as [_ Hx]; [|exact Hf].
           congruence.
      * assert (Hxf : ~ In x filenames).
        { intros Hx. apply str_in_In in Hx. congruence. }
        intros H. apply IH in H as (H1 & H2 & H3 & H4); [|exact Hd|exact Hf].
        split; [|split; [|split]].
        -- intros n. rewrite H1. cbn [In].
           split; [intros [? ?]|intros [? ?]]; split; auto.
           intros [<-|?]; auto.
        -- exact H2.
        -- intros n Hn Hnb. apply H3; [exact Hn|]. intros ?. apply Hnb. now right.
        -- intros n [<-|Hn] Hnd; [|now apply H4].
           intros Hx. apply H2 in Hx. contradiction.
Qed.

(** X6: [_handle_blacklist] removes the blacklisted names and nothing
    else: of the directories those that are not blacklisted stay; of
    the files, one goes only if it is blacklisted, and goes if it is
    blacklisted and no directory has its name. *)
Theorem _handle_blacklist_prunes blacklist dirnames filenames dn fn :
  List.NoDup dirnames -> List.NoDup filenames ->
  _handle_blacklist blacklist dirnames filenames = (dn, fn) ->
  (forall n, In n dn <-> In n dirnames /\ ~ In n blacklist)
  /\ (forall n, In n fn -> In n filenames)
  /\ (forall n, In n filenames -> ~ In n blacklist -> In n fn)
  /\ (forall n, In n blacklist -> ~ In n dirnames -> ~ In n fn).
Proof. apply _handle_blacklist_spec. Qed.

Lemma walk_list_all_incl blacklist : forall tree D,
  incl (get_module_files_walk blacklist false D tree)
       (get_module_files_walk blacklist true D tree).
Proof.
  induction tree as [dirs files IH] using DirTree_nested_ind.
  intros D. cbn [get_module_files_walk].
  destruct (_handle_blacklist blacklist (map fst dirs) files)
    as [dirnames filenames].
  cbn [negb andb].
  destruct (str_in "__init__.py" filenames); cbn [negb];
    [|apply incl_nil_l].
  apply incl_app_app; [apply incl_refl|].
  intros f Hin. apply in_flat_map in Hin as ([name sub] & Hd & Hin).
  apply in_flat_map. exists (name, sub). split; [exact Hd|].
  destruct (str_in name dirnames); [|exact Hin].
  rewrite Forall_forall in IH.
  apply (IH (name, sub)); [now apply list_elem_of_In|exact Hin].
Qed.

(** X7: [list_all] only adds files to the listing. *)
Theorem list_all_only_adds src_directory blacklist :
  incl (get_module_files w src_directory blacklist false)
       (get_module_files w src_directory blacklist true).
Proof.
  unfold get_module_files. destruct (os_walk w src_directory).
  - apply walk_list_all_incl.
  - apply incl_refl.
Qed.

Lemma endswith_inv (s suf : string) :
  endswith s suf = true -> exists a, s = a +:+ suf.
Proof.
  unfold endswith. intros H. apply andb_true_iff in H as [_ H].
  apply String.eqb_eq in H.
  exists (slice_to (String.length s - String.length suf) s).
  pose proof (slice_to_from (String.length s - String.length suf) s) as E.
  rewrite H in E. now symmetry.
Qed.

Lemma endswith_app_l (x s suf : string) :
  endswith s suf = true -> endswith (x +:+ s) suf = true.
Proof.
  intros H. apply endswith_inv in H as [a ->].
  rewrite <- app_assoc_s. apply endswith_app.
Qed.

Lemma join_suffix (a b : string) : exists x, OsPath.join a b = x +:+ b.
Proof.
  unfold OsPath.join. destruct (startswith b OsPath.sep).
  - now exists "".
  - destruct (_ || _).
    + now exists a.
    + exists (a +:+ OsPath.sep). now rewrite app_assoc_s.
Qed.

Lemma _is_python_file_join D file :
  _is_python_file file = true -> _is_python_file (OsPath.join D file) = true.
Proof.
  unfold _is_python_file. intros H.
  destruct (join_suffix D file) as [x ->].
  apply existsb_exists in H as (suf & Hin & H).
  apply existsb_exists. exists suf. split; [exact Hin|].
  now apply endswith_app_l.
Qed.

Lemma walk_sound blacklist list_all : forall tree D f,
  In f (get_module_files_walk blacklist list_all D tree) ->
  _is_python_file f = true
  /\ (faithful w D tree -> exists_ w f = true).
Proof.
  induction tree as [dirs files IH] using DirTree_nested_ind.
  intros D f. cbn [get_module_files_walk].
  destruct (_handle_blacklist blacklist (map fst dirs) files)
    as [dirnames filenames] eqn:Hb.
  apply _handle_blacklist_incl in Hb as [_ Hincl].
  destruct (negb list_all && negb (str_in "__init__.py" filenames));
    [intros []|].
  intros Hin. apply in_app_or in Hin as [Hin|Hin].
  - apply in_map_iff in Hin as (file & <- & Hfile).
    apply filter_In in Hfile as [Hfile Hpy].
    split; [now apply _is_python_file_join|].
    intros Hf. inversion Hf as [? ? ? Hfiles Hdirs]; subst.
    apply Hincl in Hfile. rewrite Forall_forall in Hfiles.
    now apply list_elem_of_In, Hfiles in Hfile as [_ He].
  - apply in_flat_map in Hin as ([name sub] & Hd & Hin).
    destruct (str_in name dirnames); [|destruct Hin].
    rewrite Forall_forall in IH. apply list_elem_of_In in Hd.
    destruct (IH _ Hd _ _ Hin) as [Hpy He].
    split; [exact Hpy|].
    intros Hf. inversion Hf as [? ? ? Hfiles Hdirs]; subst.
    rewrite Forall_forall in Hdirs. apply He. now apply (Hdirs _ Hd).
Qed.

(** X8: every path [get_module_files] returns has one of the extensions
    of [_is_python_file], and is that of a file on the disk when the
    walk agrees with the disk. *)
Theorem get_module_files_lists_python_files src_directory blacklist list_all f :
  In f (get_module_files w src_directory blacklist list_all) ->
  _is_python_file f = true
  /\ forall tree, os_walk w src_directory = Some tree ->
       faithful w src_directory tree -> exists_ w f = true.
Proof.
  unfold get_module_files.
  destruct (os_walk w src_directory) as [tree|]; [|intros []].
  intros Hin. apply walk_sound in Hin as [Hpy He].
  split; [exact Hpy|]. intros ? [= <-]. exact He.
Qed.

Lemma NoDup_app_disjoint {A} (l1 l2 : list A) a :
  List.NoDup (l1 ++ l2) -> In a l1 -> ~ In a l2.
Proof.
  induction l1 as [|x l1 IH]; cbn; intros Hnd; [intros []|].
  inversion Hnd as [|? ? Hx Hnd']; subst.
  intros [<-|Ha] H2; [|now apply IH].
  apply Hx, in_or_app. now right.
Qed.

Lemma walk_honours_blacklist blacklist list_all : forall tree D f,
  distinct_entries tree ->
  In f (get_module_files_walk blacklist list_all D tree) ->
  exists dirs file,
    f = OsPath.join (OsPath.join_all D dirs) file
    /\ tree_has (negb list_all) dirs file tree
    /\ _is_python_file file = true
    /\ forall n, In n (dirs ++ [file]) -> ~ In n blacklist.
Proof.
  induction tree as [dirs files IH] using DirTree_nested_ind.
  intros D f Hdist. inversion Hdist as [? ? Hnd Hsub]; subst.
  cbn [get_module_files_walk].
  destruct (_handle_blacklist blacklist (map fst dirs) files)
    as [dirnames filenames] eqn:Hb.
  apply _handle_blacklist_spec in Hb as (H1 & H2 & H3 & H4);
    [|eapply NoDup_app_remove_r; exact Hnd|eapply NoDup_app_remove_l; exact Hnd].
  destruct (negb list_all && negb (str_in "__init__.py" filenames)) eqn:Hgo;
    [intros []|].
  assert (Hinit : negb list_all = true -> In "__init__.py" files).
  { intros Hla. rewrite Hla in Hgo. cbn [andb] in Hgo.
    apply negb_false_iff, str_in_In in Hgo. now apply H2. }
  intros Hin. apply in_app_or in Hin as [Hin|Hin].
  - apply in_map_iff in Hin as (file & <- & Hfile).
    apply filter_In in Hfile as [Hfile Hpy].
    exists [], file. split; [reflexivity|].
    split; [cbn [tree_has]; split; [exact Hinit|now apply H2]|].
    split; [exact Hpy|].
    intros n [<-|[]] Hn. apply (H4 file Hn); [|exact Hfile].
    intros Hdir. apply H2 in Hfile.
    now apply (NoDup_app_disjoint _ _ file Hnd).
  - apply in_flat_map in Hin as ([name sub] & Hd & Hin).
    destruct (str_in name dirnames) eqn:Hname; [|destruct Hin].
    apply str_in_In, H1 in Hname as [_ Hname].
    rewrite Forall_forall in IH, Hsub.
    pose proof Hd as Hd'. apply list_elem_of_In in Hd'.
    destruct (IH _ Hd' _ _ (Hsub _ Hd') Hin)
      as (dirs' & file & -> & Hhas & Hpy & Hno).
    exists (name :: dirs'), file. split; [reflexivity|].
    split; [cbn [tree_has]; split; [exact Hinit|now exists sub]|].
    split; [exact Hpy|].
    intros n [<-|Hn]; [exact Hname|now apply Hno].
Qed.

(** The names on a chain of a tree that agrees with the disk are proper
    names. *)
Lemma tree_has_good need_init file : forall dirs tree D,
  faithful w D tree ->
  tree_has need_init dirs file tree ->
  Forall (fun n => good_name n = true) (dirs ++ [file]).
Proof.
  induction dirs as [|d dirs IH]; intros [subs files] D Hf [_ Hhas];
    inversion Hf as [? ? ? Hfiles Hdirs]; subst.
  - rewrite Forall_forall in Hfiles.
    apply list_elem_of_In, Hfiles in Hhas as [Hgood _].
    now constructor.
  - destruct Hhas as (sub & Hin & Hhas).
    rewrite Forall_forall in Hdirs.
    apply list_elem_of_In, Hdirs in Hin as [Hgood Hsub].
    constructor; [exact Hgood|]. eapply IH; eauto.
Qed.

Lemma app_inv_head_s (a b c : string) : a +:+ b = a +:+ c -> b = c.
Proof.
  induction a as [|x a IH]; cbn; [auto|]. intros [= H]. auto.
Qed.

(** A chain of proper names below a root is read off the path it makes. *)
Lemma chain_of_path D names names' :
  truthy D = true ->
  Forall (fun n => good_name n = true) names -> names <> [] ->
  Forall (fun n => good_name n = true) names' -> names' <> [] ->
  OsPath.join_all D names = OsPath.join_all D names' ->
  names = names'.
Proof.
  intros HD Hg Hne Hg' Hne' H.
  rewrite (join_all_good names D HD Hne Hg),
          (join_all_good names' D HD Hne' Hg') in H.
  apply app_inv_head_s in H.
  rewrite <- (components_join names Hne Hg), <- (components_join names' Hne' Hg').
  now rewrite H.
Qed.

(** X9: the blacklist is honoured. In a tree whose directories have
    distinct entry names, a path that [get_module_files] returns is that
    of a file of the tree, reached from the root through directories of
    the tree, none of which has a blacklisted name, nor has the file;
    and where the walk agrees with the disk, the path of a file of the
    tree that has a blacklisted name, or lies below a directory that has
    one, is not returned. *)
Theorem get_module_files_honours_blacklist src_directory blacklist list_all
  tree :
  os_walk w src_directory = Some tree ->
  distinct_entries tree ->
  (forall f,
      In f (get_module_files w src_directory blacklist list_all) ->
      exists dirs file,
        f = OsPath.join (OsPath.join_all src_directory dirs) file
        /\ tree_has (negb list_all) dirs file tree
        /\ _is_python_file file = true
        /\ forall n, In n (dirs ++ [file]) -> ~ In n blacklist)
  /\ (truthy src_directory = true ->
      faithful w src_directory tree ->
      forall dirs file n,
        tree_has false dirs file tree ->
        In n (dirs ++ [file]) -> In n blacklist ->
        ~ In (OsPath.join (OsPath.join_all src_directory dirs) file)
             (get_module_files w src_directory blacklist list_all)).
Proof.
  unfold get_module_files. intros -> Hdist. split.
  - intros f. now apply walk_honours_blacklist.
  - intros Hsrc Hf dirs file n Hhas Hn Hbl Hin.
    apply walk_honours_blacklist in Hin
      as (dirs' & file' & Heq & Hhas' & _ & Hno); [|exact Hdist].
    pose proof (tree_has_good _ _ _ _ _ Hf Hhas) as Hgood.
    pose proof (tree_has_good _ _ _ _ _ Hf Hhas') as Hgood'.
    rewrite <- !join_all_snoc in Heq.
    apply chain_of_path in Heq; auto; try (now destruct dirs);
      try (now destruct dirs').
    apply (Hno n); [|exact Hbl]. now rewrite <- Heq.
Qed.

(** X10: the test for [__init__.py] comes after the pruning: a directory
    without one, or one whose [__init__.py] is blacklisted, yields
    nothing, nor does anything below it. *)
Theorem get_module_files_needs_init src_directory blacklist dirs files :
  os_walk w src_directory = Some (Dir dirs files) ->
  List.NoDup (map fst dirs ++ files) ->
  ~ In "__init__.py" files \/ In "__init__.py" blacklist ->
  get_module_files w src_directory blacklist false = [].
Proof.
  unfold get_module_files. intros -> Hnd Hno. cbn [get_module_files_walk].
  destruct (_handle_blacklist blacklist (map fst dirs) files)
    as [dirnames filenames] eqn:Hb.
  apply _handle_blacklist_spec in Hb as (H1 & H2 & H3 & H4);
    [|eapply NoDup_app_remove_r; exact Hnd|eapply NoDup_app_remove_l; exact Hnd].
  destruct (str_in "__init__.py" filenames) eqn:Hinit; [|reflexivity].
  apply str_in_In in Hinit. exfalso.
  destruct Hno as [Hno|Hno]; [now apply Hno, H2|].
  apply (H4 _ Hno); [|exact Hinit].
  intros Hdir. apply H2 in Hinit.
  now apply (NoDup_app_disjoint _ _ "__init__.py" Hnd).
Qed.

Lemma walk_complete blacklist list_all file : forall dirs tree D,
  distinct_entries tree ->
  tree_has (negb list_all) dirs file tree ->
  _is_python_file file = true ->
  (forall n, In n (dirs ++ [file]) -> ~ In n blacklist) ->
  (list_all = false -> ~ In "__init__.py" blacklist) ->
  In (OsPath.join (OsPath.join_all D dirs) file)
     (get_module_files_walk blacklist list_all D tree).
Proof.
  induction dirs as [|d dirs IH]; intros [subs files] D Hdist Hhas Hpy Hbl Hinit;
    inversion Hdist as [? ? Hnd Hsub]; subst;
    cbn [tree_has] in Hhas; destruct Hhas as [Hneed Hhas];
    cbn [get_module_files_walk];
    destruct (_handle_blacklist blacklist (map fst subs) files)
      as [dirnames filenames] eqn:Hb;
    apply _handle_blacklist_spec in Hb as (H1 & H2 & H3 & H4);
    try (eapply NoDup_app_remove_r; exact Hnd);
    try (eapply NoDup_app_remove_l; exact Hnd).
  all: assert (Hgo : negb list_all && negb (str_in "__init__.py" filenames)
                     = false).
  1, 3: destruct list_all; [reflexivity|]; cbn [negb andb];
    apply negb_false_iff, str_in_In, H3; [now apply Hneed|now apply Hinit].
  all: rewrite Hgo; apply in_or_app.
  - left. cbn [OsPath.join_all fold_left]. apply in_map, filter_In.
    split; [|exact Hpy]. apply H3; [exact Hhas|]. apply Hbl. now left.
  - right. destruct Hhas as (sub & Hin & Hhas).
    apply in_flat_map. exists (d, sub). split; [exact Hin|].
    assert (Hd : str_in d dirnames = true).
    { apply str_in_In, H1. split.
      - apply in_map_iff. now exists (d, sub).
      - apply Hbl. now left. }
    rewrite Hd.
    change (OsPath.join_all D (d :: dirs))
      with (OsPath.join_all (OsPath.join D d) dirs).
    rewrite Forall_forall in Hsub.
    apply IH; auto.
    + apply (Hsub (d, sub)). now apply list_elem_of_In.
    + intros n Hn. apply Hbl. now right.
Qed.

(** X11: nothing is left out: a file of the tree with one of the
    extensions of [_is_python_file] is listed when no name on the way to
    it is blacklisted and, unless [list_all] is set, every directory on
    the way holds an [__init__.py] that is not blacklisted either. *)
Theorem get_module_files_lists_every_module src_directory blacklist list_all
  tree dirs file :
  os_walk w src_directory = Some tree ->
  distinct_entries tree ->
  tree_has (negb list_all) dirs file tree ->
  _is_python_file file = true ->
  (forall n, In n (dirs ++ [file]) -> ~ In n blacklist) ->
  (list_all = false -> ~ In "__init__.py" blacklist) ->
  In (OsPath.join (OsPath.join_all src_directory dirs) file)
     (get_module_files w src_directory blacklist list_all).
Proof.
  unfold get_module_files. intros ->. apply walk_complete.
Qed.

End Listing.

(** ** Packages and the way from a file to its name (lines 177, 297, 310) *)

Section Packages.
Variable w : World.
Import PyStr.

Lemma check_modpath_has_init_loop_snoc parts : forall path acc part,
  check_modpath_has_init_loop w path acc (parts ++ [part])
  = check_modpath_has_init_loop w path acc parts
    && (is_some (_has_init w (OsPath.join_all path (parts ++ [part])))
        || _is_namespace w (join "." (acc ++ parts ++ [part]))).
Proof.
  induction parts as [|p parts IH]; intros path acc part;
    cbn [app check_modpath_has_init_loop].
  - cbn [OsPath.join_all fold_left].
    destruct (_has_init w (OsPath.join path part)); cbn [is_some orb andb];
      [reflexivity|].
    now destruct (_is_namespace w (join "." (acc ++ [part]))).
  - change (OsPath.join_all path (p :: parts ++ [part]))
      with (OsPath.join_all (OsPath.join path p) (parts ++ [part])).
    replace (acc ++ p :: parts ++ [part]) with ((acc ++ [p]) ++ parts ++ [part])
      by now rewrite <- app_assoc.
    destruct (_has_init w (OsPath.join path p)); [apply IH|].
    destruct (_is_namespace w (join "." (acc ++ [p]))); cbn [negb];
      [apply IH|reflexivity].
Qed.

(** X12: a path of packages is accepted when the path without its last
    component is, and the directory of the last component holds an
    [__init__] file or its dotted name is a declared namespace. *)
Theorem check_modpath_has_init_snoc path parts part :
  check_modpath_has_init w path (parts ++ [part])
  = check_modpath_has_init w path parts
    && (is_some (_has_init w (OsPath.join_all path (parts ++ [part])))
        || _is_namespace w (join "." (parts ++ [part]))).
Proof. apply (check_modpath_has_init_loop_snoc parts path []). Qed.

(** X13: the path cache answers a second call with the answer of the
    first, whatever the working directory has become; it never forgets
    an entry, and never holds one for the empty string. *)
Theorem _cache_normalize_path_memoizes path st v st1 :
  _cache_normalize_path w path st = (Ok v, st1) ->
  (truthy path = true ->
   forall w', _cache_normalize_path w' path st1 = (Ok v, st1))
  /\ (forall p u, norm_cache st !! p = Some u -> norm_cache st1 !! p = Some u)
  /\ (norm_cache st !! "" = None -> norm_cache st1 !! "" = None).
Proof.
  unfold _cache_normalize_path.
  destruct (norm_cache st !! path) as [r|] eqn:E.
  - intros [= <- <-]. split; [|split]; auto.
    intros _ w'. now rewrite E.
  - destruct (truthy path) eqn:Ht; cbn [negb].
    + intros [= <- <-]. cbn [norm_cache set_norm_cache].
      split; [|split].
      * intros _ w'. now rewrite lookup_insert_eq.
      * intros p u Hp. rewrite lookup_insert_ne; [exact Hp|congruence].
      * intros H. rewrite lookup_insert_ne; [exact H|].
        intros ->. discriminate.
    + intros [= <- <-]. split; [discriminate|]. auto.
Qed.

Lemma modpath_from_file_extrapath_no_match base extrapath cb keys :
  Forall (fun k => root_matches w base cb k = false) keys ->
  modpath_from_file_extrapath_loop w base extrapath cb keys = None.
Proof.
  induction 1 as [|key keys Hk _ IH]; cbn [modpath_from_file_extrapath_loop];
    [reflexivity|].
  unfold root_matches, extra_root in Hk.
  destruct (truthy _ && String.eqb _ _); [|exact IH].
  cbn [andb] in Hk. now rewrite Hk.
Qed.

(** X14: an extra path none of whose roots takes the file changes
    nothing: the search path decides as it does without one. *)
Theorem extra_path_without_match_is_ignored filename extrapath cb st :
  Forall (fun k => root_matches w (file_base w filename) cb k = false)
    (map fst extrapath) ->
  modpath_from_file_with_callback w filename (Some extrapath) cb st
  = modpath_from_file_with_callback w filename None cb st.
Proof.
  intros H. unfold modpath_from_file_with_callback.
  apply modpath_from_file_extrapath_no_match with (extrapath := extrapath) in H.
  unfold file_base in H. now rewrite H.
Qed.

Lemma dict_get_None k (d : list (string * string)) :
  ~ In k (map fst d) -> dict_get k d = None.
Proof.
  unfold dict_get. induction d as [|[k' v] d IH]; cbn; [reflexivity|].
  intros H. destruct (String.eqb_spec k' k) as [->|_]; [tauto|].
  apply IH. tauto.
Qed.

(** X15: the extra path is looked up under the canonical form of the
    root that matched, not under the key as the caller wrote it: a root
    whose canonical form is not itself a key ends the call with
    [KeyError]. *)
Theorem extra_path_key_must_be_canonical filename cb extrapath before key
  after st :
  map fst extrapath = before ++ key :: after ->
  Forall (fun k => root_matches w (file_base w filename) cb k = false) before ->
  root_matches w (file_base w filename) cb key = true ->
  ~ In (_canonicalize_path w key) (map fst extrapath) ->
  modpath_from_file_with_callback w filename (Some extrapath) cb st
  = (Raise KeyError, st).
Proof.
  intros Hkeys Hbefore Hkey Hnot. unfold modpath_from_file_with_callback.
  rewrite Hkeys.
  pose proof (modpath_from_file_extrapath_first_match w _ extrapath cb
                before key after Hbefore Hkey) as H.
  unfold file_base in H. rewrite H.
  now rewrite (dict_get_None _ _ Hnot).
Qed.

(** X16: without an extra path, the first root of the search path that
    takes the file gives the name, and [ImportError] is raised exactly
    when no root takes it. *)
Theorem modpath_from_file_first_root_that_takes filename st :
  cache_coherent w st ->
  fst (modpath_from_file w filename None st)
  = match find (root_takes w (file_base w filename)) (sys_path w) with
    | Some root =>
        Ok (components
              (slice_from
                 (String.length (_normalize_path w (_canonicalize_path w root)))
                 (file_base w filename)))
    | None => Raise ImportError
    end.
Proof.
  intros Hc. unfold modpath_from_file, modpath_from_file_with_callback.
  destruct (modpath_from_file_syspath_loop_spec w (file_base w filename)
              (sys_path w) st Hc) as (st' & H & _).
  unfold file_base in *. now rewrite H.
Qed.

End Packages.

(** ** The chain of finders (lines 641, 656, 780, 794) *)

Section Chain.
Variable w : World.
Import PyStr.

(** What one lookup through the chain comes to. *)
Lemma _find_spec_with_path_outcome search_path modname module_parts processed
  submodule_path st :
  fst (_find_spec_with_path w search_path modname module_parts processed
         submodule_path st)
  = match imp_find_module w modname submodule_path with
    | Some (location, kind) =>
        Ok (ImpFinder,
            mkModuleSpec modname (TyModule (_imp_type_to_module_type kind))
              location None PNone)
    | None =>
        match _search_zip_loop w module_parts
                (precached w (list_or (Some search_path) (sys_path w)) (pic st))
        with
        | Ok (kind, filename, archive) =>
            Ok (ZipFinder,
                mkModuleSpec modname (TyModule kind) (Some filename)
                  (Some "egg") (PStr archive))
        | Raise ImportError =>
            if has_pep420 w then
              match fst (PEP420SpecFinder_find_module w modname submodule_path st)
              with
              | Ok (Some spec) => Ok (PEP420SpecFinder, spec)
              | _ => Raise ImportError
              end
            else Raise ImportError
        | Raise e => Raise e
        | Stuck f => Stuck f
        end
    end.
Proof.
  unfold _find_spec_with_path, _precache_zipimporters.
  destruct (_precache_zipimporters_loop_pic w
              (list_or (Some search_path) (sys_path w)) st) as (st1 & Hrun & Hpic).
  rewrite (bind_Ok _ _ _ _ _ Hrun). rewrite <- Hpic.
  cbn [app _find_spec_with_path_loop find_module].
  unfold ImpFinder_find_module, call_imp_find_module.
  unfold bind at 1. unfold bind at 1.
  destruct (imp_find_module w modname submodule_path) as [[location kind]|];
    [reflexivity|].
  unfold ret at 1. unfold ZipFinder_find_module, try_except, _search_zip.
  unfold bind at 1. unfold bind at 1. cbn [pic log].
  destruct (_search_zip_loop w module_parts (pic st1)) as [[[kind filename] archive]|e|f];
    [reflexivity| |reflexivity].
  destruct e; cbn [exc_eqb]; try reflexivity.
  unfold ret at 1.
  destruct (has_pep420 w); cbn [app _find_spec_with_path_loop find_module];
    [|reflexivity].
  unfold PEP420SpecFinder_find_module, call_PathFinder_find_spec, bind.
  destruct (PathFinder_find_spec w modname submodule_path); reflexivity.
Qed.


(** X18: the first archive of the cache that holds the first component
    decides: when it lacks the whole path the search ends with
    [ImportError], whatever the archives after it hold. *)
Theorem _search_zip_commits_to_first_archive before archive importer after
  m0 rest st :
  pic st = before ++ (archive, Some importer) :: after ->
  Forall (fun kv => match snd kv with
                    | Some i => importer_find_module w i m0 = false
                    | None => True
                    end) before ->
  importer_find_module w importer m0 = true ->
  _search_zip w (m0 :: rest) st
  = (if importer_find_module w importer (join OsPath.sep (m0 :: rest))
     then Ok (PY_ZIPMODULE,
              abspath w archive +:+ OsPath.sep +:+ join OsPath.sep (m0 :: rest),
              archive)
     else Raise ImportError, st).
Proof.
  intros Hpic Hbefore Hfirst. unfold _search_zip. rewrite Hpic. f_equal.
  clear Hpic.
  induction Hbefore as [|[path [i|]] before Hkv _ IH];
    cbn [app _search_zip_loop snd] in *.
  - rewrite Hfirst.
    destruct (importer_find_module w importer (join OsPath.sep (m0 :: rest)));
      reflexivity.
  - now rewrite Hkv.
  - exact IH.
Qed.

Lemma pic_mem_false_notin entry (p : list (string * option Importer)) :
  pic_mem entry p = false -> ~ In entry (map fst p).
Proof.
  unfold pic_mem. intros H Hin. apply in_map_iff in Hin as (kv & <- & Hkv).
  assert (existsb (fun kv0 => String.eqb (fst kv0) (fst kv)) p = true).
  { apply existsb_exists. exists kv. split; [exact Hkv|apply String.eqb_refl]. }
  congruence.
Qed.

Lemma precached_grows path : forall p,
  exists new,
    precached w path p = p ++ new
    /\ Forall (fun kv => In (fst kv) path
                         /\ zipimport_zipimporter w (fst kv) = snd kv
                         /\ snd kv <> None) new
    /\ (List.NoDup (map fst p) -> List.NoDup (map fst (p ++ new))).
Proof.
  induction path as [|entry rest IH]; intros p; cbn [precached].
  - exists []. rewrite app_nil_r. auto.
  - destruct (pic_mem entry p) eqn:Hmem.
    + destruct (IH p) as (new & -> & Hnew & Hnd).
      exists new. split; [reflexivity|]. split; [|exact Hnd].
      eapply Forall_impl; [exact Hnew|]. cbn. intros kv (? & ? & ?). auto.
    + destruct (zipimport_zipimporter w entry) as [importer|] eqn:Hzip.
      * destruct (IH (p ++ [(entry, Some importer)])) as (new & -> & Hnew & Hnd).
        exists ((entry, Some importer) :: new).
        rewrite <- app_assoc. split; [reflexivity|]. split.
        -- constructor; [cbn; rewrite Hzip; repeat split; auto; discriminate|].
           eapply Forall_impl; [exact Hnew|]. cbn. intros kv (? & ? & ?). auto.
        -- intros Hp. rewrite <- app_assoc in Hnd. apply Hnd.
           rewrite map_app. cbn [map fst]. apply List.NoDup_app; [exact Hp| |].
           ++ constructor; [intros []|constructor].
           ++ intros a Ha [<-|[]]. now apply pic_mem_false_notin in Hmem.
      * destruct (IH p) as (new & -> & Hnew & Hnd).
        exists new. split; [reflexivity|]. split; [|exact Hnd].
        eapply Forall_impl; [exact Hnew|]. cbn. intros kv (? & ? & ?). auto.
Qed.

(** X19: a scan only adds to the importer cache: the entries it held stay
    as they are and in place, every entry added pairs an entry of the
    scanned path with the handle opened on it, and no key is added
    twice. *)
Theorem importer_cache_only_grows path st :
  exists st' new,
    _precache_zipimporters w path st = (Ok tt, st')
    /\ pic st' = pic st ++ new
    /\ Forall (fun kv => In (fst kv) (list_or path (sys_path w))
                         /\ zipimport_zipimporter w (fst kv) = snd kv
                         /\ snd kv <> None) new
    /\ (List.NoDup (map fst (pic st)) -> List.NoDup (map fst (pic st'))).
Proof.
  unfold _precache_zipimporters.
  destruct (_precache_zipimporters_loop_pic w (list_or path (sys_path w)) st)
    as (st' & Hrun & Hpic).
  destruct (precached_grows (list_or path (sys_path w)) (pic st))
    as (new & Hp & Hnew & Hnd).
  exists st', new. rewrite Hpic, Hp. auto.
Qed.

Lemma _spec_from_modpath_post_Ok spec0 st spec st' :
  _spec_from_modpath_post w spec0 st = (Ok spec, st') ->
  type spec <> TyModule PKG_DIRECTORY
  /\ type spec <> TyModule PY_COMPILED
  /\ (type spec = TyModule C_BUILTIN -> location spec = None)
  /\ name spec = name spec0.
Proof.
  unfold _spec_from_modpath_post.
  destruct (type spec0) as [|[]|t] eqn:E;
    try (intros [= <- <-]; rewrite ?E; cbn; repeat split; congruence).
  - destruct (location spec0); [|destruct (python3 w); discriminate].
    intros [= <- <-]. cbn. repeat split; congruence.
  - unfold try_except. destruct (location spec0) as [loc|].
    + unfold bind. destruct (get_source_file w loc false st) as [[p|e|f] st1];
        cbn; [discriminate| |discriminate].
      destruct e; cbn; discriminate.
    + destruct (python3 w && negb (IS_JYTHON w)); cbn; discriminate.
Qed.

Lemma _spec_from_modpath_Ok r path context st spec st' :
  _spec_from_modpath w r path context st = (Ok spec, st') ->
  exists spec0 st1,
    _spec_from_modpath_lookup w r path context st = (Ok spec0, st1)
    /\ _spec_from_modpath_post w spec0 st1 = (Ok spec, st').
Proof.
  unfold _spec_from_modpath, read, bind.
  destruct (heap st !! r) as [[|m l]|]; try discriminate.
  destruct (_spec_from_modpath_lookup w r path context st) as [[spec0|e|f] st1];
    try discriminate.
  eauto.
Qed.

(** X20: a descriptor that [file_info_from_modpath] returns is never that
    of a package directory nor of a byte-compiled file, and that of a
    built-in module has no location. *)
Theorem file_info_from_modpath_kinds r path context_file st spec st' :
  file_info_from_modpath w r path context_file st = (Ok spec, st') ->
  type spec <> TyModule PKG_DIRECTORY
  /\ type spec <> TyModule PY_COMPILED
  /\ (type spec = TyModule C_BUILTIN -> location spec = None).
Proof.
  assert (Hspec : forall r' context st0,
             _spec_from_modpath w r' path context st0 = (Ok spec, st') ->
             type spec <> TyModule PKG_DIRECTORY
             /\ type spec <> TyModule PY_COMPILED
             /\ (type spec = TyModule C_BUILTIN -> location spec = None)).
  { intros r' context st0 H.
    apply _spec_from_modpath_Ok in H as (spec0 & st1 & _ & H).
    apply _spec_from_modpath_post_Ok in H. tauto. }
  unfold file_info_from_modpath, read. unfold bind at 1.
  destruct (heap st !! r) as [[|m0 rest]|]; try discriminate.
  destruct (String.eqb m0 "xml").
  - unfold try_except, alloc. unfold bind at 1.
    match goal with
    | |- context [_spec_from_modpath w ?a ?p ?c ?s] =>
        destruct (_spec_from_modpath w a p c s) as [[s1|e|f] st1] eqn:E
    end.
    + intros [= <- <-]. eapply Hspec. exact E.
    + destruct (exc_eqb ImportError e); [apply Hspec|discriminate].
    + discriminate.
  - destruct (bool_decide _); [|apply Hspec].
    intros [= <- <-]. cbn. repeat split; congruence.
Qed.

(** X21: an empty module path is an error of its own kind at each level:
    [_find_spec] reads a variable that no iteration has bound,
    [_spec_from_modpath] fails its assertion, and the two public
    functions index the empty list. *)
Theorem empty_module_path_raises r path context st :
  heap st !! r = Some [] ->
  fst (_find_spec w r path st) = Raise UnboundLocalError
  /\ fst (_spec_from_modpath w r path context st) = Raise AssertionError
  /\ fst (file_info_from_modpath w r path context st) = Raise IndexError
  /\ fst (file_from_modpath w r path context st) = Raise IndexError.
Proof.
  intros Hr. split; [|split; [|split]].
  - rewrite (_find_spec_unfold _ _ _ _ _ Hr). cbn [length _find_spec_loop].
    assert (Hc : heap (set_heap (heap st ++ [[]]) st) !! length (heap st)
                 = Some []).
    { cbn. rewrite lookup_app_r by lia. now rewrite Nat.sub_diag. }
    now rewrite (bind_Ok _ _ _ _ _ (read_Some _ _ _ Hc)).
  - unfold _spec_from_modpath.
    now rewrite (bind_Ok _ _ _ _ _ (read_Some _ _ _ Hr)).
  - unfold file_info_from_modpath.
    now rewrite (bind_Ok _ _ _ _ _ (read_Some _ _ _ Hr)).
  - unfold file_from_modpath, file_info_from_modpath. unfold bind at 1.
    now rewrite (bind_Ok _ _ _ _ _ (read_Some _ _ _ Hr)).
Qed.

Lemma _find_spec_with_path_name search_path modname module_parts processed
  submodule_path st finder spec st' :
  has_pep420 w = false ->
  _find_spec_with_path w search_path modname module_parts processed
    submodule_path st = (Ok (finder, spec), st') ->
  name spec = modname.
Proof.
  intros Hpep H.
  pose proof (_find_spec_with_path_outcome search_path modname module_parts
                processed submodule_path st) as Ho.
  rewrite H, Hpep in Ho. cbn [fst] in Ho.
  destruct (imp_find_module w modname submodule_path) as [[location kind]|].
  - now inversion Ho.
  - destruct (_search_zip_loop w module_parts _) as [[[kind filename] archive]|e|f].
    + now inversion Ho.
    + destruct e; discriminate.
    + discriminate.
Qed.

Lemma _find_spec_loop_name r _path path module_parts x :
  has_pep420 w = false ->
  forall fuel processed submodule_path spec0 st pending spec st',
    heap st !! r = Some pending ->
    (pending = [] -> forall s, spec0 = Some s -> name s = x) ->
    (pending <> [] -> List.last pending "" = x) ->
    _find_spec_loop w fuel r _path path module_parts processed submodule_path
      spec0 st = (Ok spec, st') ->
    name spec = x.
Proof.
  intros Hpep.
  induction fuel as [|fuel IH];
    intros processed submodule_path spec0 st pending spec st' Hr H0 Hlast;
    cbn [_find_spec_loop]; rewrite (bind_Ok _ _ _ _ _ (read_Some _ _ _ Hr)).
  - destruct pending; [|discriminate].
    destruct spec0; [|discriminate]. intros [= <- <-]. now apply H0.
  - destruct pending as [|m rest].
    { destruct spec0; [|discriminate]. intros [= <- <-]. now apply H0. }
    rewrite (bind_Ok _ _ _ _ _ (pop0_cons _ _ _ _ Hr)).
    intros H.
    apply bind_inv in H as [(found & st2 & Hfind & H)|[(e & _ & [=])|(f & _ & [=])]].
    destruct found as [finder s1].
    pose proof (_find_spec_with_path_name _ _ _ _ _ _ _ _ _ Hpep Hfind) as Hname.
    apply keeps__find_spec_with_path in Hfind as [Hheap _].
    cbn [heap set_heap] in Hheap.
    assert (Hr2 : heap st2 !! r = Some rest).
    { rewrite Hheap. apply list_lookup_insert_eq.
      now apply lookup_lt_Some in Hr. }
    rewrite (bind_Ok _ _ _ _ _ (read_Some _ _ _ Hr2)) in H.
    eapply IH in H; [exact H|exact Hr2| |].
    + intros -> s [= <-].
      rewrite <- (Hlast ltac:(discriminate)). cbn [List.last].
      now destruct (type s1) as [|[]|].
    + intros Hne. rewrite <- (Hlast ltac:(discriminate)).
      destruct rest; [contradiction|reflexivity].
Qed.

Lemma _find_spec_name r path st l spec st' :
  has_pep420 w = false ->
  heap st !! r = Some l ->
  _find_spec w r path st = (Ok spec, st') ->
  name spec = List.last l "".
Proof.
  intros Hpep Hr. rewrite (_find_spec_unfold _ _ _ _ _ Hr).
  apply _find_spec_loop_name with (pending := l); [exact Hpep| | |].
  - cbn. rewrite lookup_app_r by lia. now rewrite Nat.sub_diag.
  - discriminate.
  - reflexivity.
Qed.

(** X22: where the PEP 420 finder is not in the chain, the descriptor that
    [_spec_from_modpath] returns bears the last component of the module
    path as its name, not the dotted name. *)
Theorem descriptor_is_named_after_last_component r path context st l spec st' :
  has_pep420 w = false ->
  heap st !! r = Some l ->
  _spec_from_modpath w r path context st = (Ok spec, st') ->
  name spec = List.last l "".
Proof.
  intros Hpep Hr H.
  apply _spec_from_modpath_Ok in H as (spec0 & st1 & Hlook & Hpost).
  apply _spec_from_modpath_post_Ok in Hpost as (_ & _ & _ & ->).
  unfold _spec_from_modpath_lookup in Hlook.
  destruct context as [context|];
    [|now apply (_find_spec_name r path st _ _ _ Hpep Hr Hlook)].
  unfold try_except in Hlook.
  destruct (_find_spec w r (Some [context]) st) as [[s|e|f] st2] eqn:E.
  - inversion Hlook; subst. now apply (_find_spec_name r _ st _ _ _ Hpep Hr E).
  - destruct (exc_eqb ImportError e); [|discriminate].
    apply keeps__find_spec in E as [_ Hgrow].
    now apply (_find_spec_name r path st2 _ _ _ Hpep (Hgrow _ _ Hr) Hlook).
  - discriminate.
Qed.

End Chain.

(** ** Standard modules (line 535) *)

Section Standard.
Variable w : World.
Import PyStr.

Lemma is_standard_module_loop_coherent filename std_path : forall st,
  cache_coherent w st ->
  fst (is_standard_module_loop w filename std_path st)
  = Ok (existsb (fun p => startswith filename (_normalize_path w p)) std_path).
Proof.
  induction std_path as [|path rest IH]; intros st Hc;
    cbn [is_standard_module_loop existsb]; [reflexivity|].
  destruct (_cache_normalize_path_coherent w path st Hc) as (st' & Hrun & Hc' & _).
  rewrite (bind_Ok _ _ _ _ _ Hrun).
  destruct (startswith filename (_normalize_path w path)); [reflexivity|].
  now apply IH.
Qed.

(** X23: what [is_standard_module] answers, from what the resolution of
    the first component of the name gives: false when it fails with
    [ImportError]; for a module without a file, true unless it is a
    declared namespace; for a file, true when it lies below one of the
    standard directories and not below the third-party root. Any other
    error of the resolution is not caught. *)
Theorem is_standard_module_decides modname std_path st r st1 :
  cache_coherent w st ->
  is_standard_module_lookup w (hd "" (split "." modname)) st = (r, st1) ->
  fst (is_standard_module w modname std_path st)
  = match r with
    | Ok None => Ok (negb (_is_namespace w (hd "" (split "." modname))))
    | Ok (Some filename) =>
        Ok (negb (startswith (_normalize_path w filename)
                    (_normalize_path w (EXT_LIB_DIR w)))
            && existsb
                 (fun p => startswith (_normalize_path w filename)
                             (_normalize_path w p))
                 (match std_path with
                  | None => STD_LIB_DIRS w
                  | Some l => l
                  end))
    | Raise ImportError => Ok false
    | Raise e => Raise e
    | Stuck f => Stuck f
    end.
Proof.
  intros Hc Hlook. unfold is_standard_module.
  assert (Hc1 : cache_coherent w st1).
  { apply keeps_is_standard_module_lookup in Hlook as [Hn _].
    unfold cache_coherent in *. now rewrite Hn. }
  unfold bind at 1. unfold try_except. unfold bind at 1. rewrite Hlook.
  destruct r as [[filename|]|e|f]; cbn [ret].
  - destruct (_cache_normalize_path_coherent w (EXT_LIB_DIR w) st1 Hc1)
      as (st2 & Hrun & Hc2 & _).
    rewrite (bind_Ok _ _ _ _ _ Hrun).
    destruct (startswith _ (_normalize_path w (EXT_LIB_DIR w))); [reflexivity|].
    cbn [negb andb]. now apply is_standard_module_loop_coherent.
  - reflexivity.
  - destruct e; reflexivity.
  - reflexivity.
Qed.

(** A module path of one component that the interpreter's finder knows. *)
Lemma _find_spec_single r st top location kind :
  heap st !! r = Some [top] ->
  imp_find_module w top PNone = Some (location, kind) ->
  exists st',
    _find_spec w r None st
    = (Ok (mkModuleSpec top (TyModule (_imp_type_to_module_type kind))
             location None PNone), st')
    /\ norm_cache st' = norm_cache st.
Proof.
  intros Hr Himp. rewrite (_find_spec_unfold _ _ _ _ _ Hr).
  set (st0 := set_heap (heap st ++ [[top]]) st).
  assert (H0 : heap st0 !! length (heap st) = Some [top]).
  { cbn. rewrite lookup_app_r by lia. now rewrite Nat.sub_diag. }
  cbn [length _find_spec_loop].
  rewrite (bind_Ok _ _ _ _ _ (read_Some _ _ _ H0)).
  rewrite (bind_Ok _ _ _ _ _ (pop0_cons _ _ _ _ H0)).
  cbn [list_or to_arg path_or path_truthy].
  destruct (_find_spec_with_path_imp w (sys_path w) top [top] [] PNone
              (set_heap (<[length (heap st) := []]> (heap st0)) st0) _ _ Himp)
    as (st2 & Hfind & Hheap).
  pose proof (keeps__find_spec_with_path w _ _ _ _ _ _ _ _ Hfind) as [_ Hnorm].
  rewrite (bind_Ok _ _ _ _ _ Hfind). cbn beta iota.
  assert (H2 : heap st2 !! length (heap st) = Some []).
  { rewrite Hheap. cbn [heap set_heap]. apply list_lookup_insert_eq.
    now apply lookup_lt_Some in H0. }
  rewrite (bind_Ok _ _ _ _ _ (read_Some _ _ _ H2)).
  rewrite (bind_Ok _ _ _ _ _ (read_Some _ _ _ H2)).
  exists st2. split; [|exact Hnorm].
  now destruct kind.
Qed.

(** X24: a module that the interpreter's finder reports as built in is a
    standard module, whatever location the finder gives for it and
    whatever the standard directories are, unless its name is a
    declared namespace. *)
Theorem builtin_module_is_standard modname std_path st location :
  imp_find_module w (hd "" (split "." modname)) PNone
  = Some (location, imp_C_BUILTIN) ->
  hd "" (split "." modname) <> "xml" ->
  fst (is_standard_module w modname std_path st)
  = Ok (negb (_is_namespace w (hd "" (split "." modname)))).
Proof.
  intros Himp Hxml. set (top := hd "" (split "." modname)) in *.
  unfold is_standard_module. fold top.
  unfold bind at 1. unfold try_except. unfold bind at 1.
  unfold is_standard_module_lookup, alloc. unfold bind at 1.
  unfold file_from_modpath. unfold bind at 1.
  unfold file_info_from_modpath. cbn [option_map].
  set (st0 := set_heap (heap st ++ [[top]]) st).
  assert (H0 : heap st0 !! length (heap st) = Some [top]).
  { cbn. rewrite lookup_app_r by lia. now rewrite Nat.sub_diag. }
  rewrite (bind_Ok _ _ _ _ _ (read_Some _ _ _ H0)).
  apply String.eqb_neq in Hxml. rewrite Hxml.
  rewrite bool_decide_eq_false_2 by discriminate.
  unfold _spec_from_modpath.
  rewrite (bind_Ok _ _ _ _ _ (read_Some _ _ _ H0)).
  unfold _spec_from_modpath_lookup.
  destruct (_find_spec_single _ _ _ _ _ H0 Himp) as (st' & Hfind & _).
  rewrite (bind_Ok _ _ _ _ _ Hfind). reflexivity.
Qed.

End Standard.

(** ** The module part of a dotted name (line 408) *)

Section ModulePart.
Variable w : World.
Import PyStr.

#[local] Arguments String.append !_ _ / : simpl nomatch.

Lemma split_nonempty c (s : string) : split c s <> [].
Proof.
  destruct s as [|a s]; cbn [split]; [discriminate|].
  destruct (Ascii.eqb a c); [discriminate|].
  destruct (split c s); discriminate.
Qed.

(** [sep.join(s.split(sep)) == s] *)
Lemma join_split c (s : string) : join (String c "") (split c s) = s.
Proof.
  unfold join. induction s as [|a s IH]; cbn [split]; [reflexivity|].
  pose proof (split_nonempty c s) as Hne.
  destruct (split c s) as [|h t]; [contradiction|].
  destruct (Ascii.eqb_spec a c) as [->|_].
  - change (String.concat (String c "") ("" :: h :: t))
      with ("" +:+ String c "" +:+ String.concat (String c "") (h :: t)).
    rewrite IH. reflexivity.
  - rewrite <- IH. destruct t; reflexivity.
Qed.

Lemma get_module_part_dots_Ok : forall rest starti context_file st r st',
  get_module_part_dots w rest starti context_file st = (r, st') ->
  st' = st
  /\ forall starti' context_file', r = Ok (starti', context_file') ->
       starti <= starti' < starti + length rest.
Proof.
  induction rest as [|part rest IH]; intros starti context_file st r st';
    cbn [get_module_part_dots length].
  - intros [= <- <-]. split; [reflexivity|discriminate].
  - destruct (String.eqb part "").
    + destruct context_file as [file|].
      * intros H. apply IH in H as [-> H]. split; [reflexivity|].
        intros s' c' Hr. apply H in Hr. lia.
      * intros [= <- <-]. split; [reflexivity|discriminate].
    + intros [= <- <-]. split; [reflexivity|]. intros s' c' [= <- <-]. lia.
Qed.

Lemma get_module_part_loop_Ok dotted_name parts starti path context_file :
  forall count i st s st',
    i + count = length parts ->
    get_module_part_loop w dotted_name parts starti path context_file count i st
    = (Ok s, st') ->
    s = dotted_name
    \/ exists k, Nat.max 1 (length parts - 2) <= k < length parts
                 /\ s = join "." (firstn k parts).
Proof.
  induction count as [|count IH]; intros i st s st' Hi;
    cbn [get_module_part_loop].
  - intros [= <- <-]. now left.
  - intros H.
    apply bind_inv in H as [(found & st1 & _ & H)|[(e & _ & [=])|(f & _ & [=])]].
    destruct found.
    + apply IH in H; [exact H|lia].
    + destruct (Nat.ltb_spec i (Nat.max 1 (length parts - 2))); [discriminate|].
      inversion H; subst. right. exists i. split; [lia|reflexivity].
Qed.

(** X25: but for the [os.path] shortcut, the module part is made of the
    first components of the dotted name; at most the last two are
    dropped, and never all of them. *)
Theorem get_module_part_keeps_a_prefix BUILTIN_MODULES dotted_name context_file
  st s st' :
  startswith dotted_name "os.path" = false ->
  get_module_part w BUILTIN_MODULES dotted_name context_file st = (Ok s, st') ->
  exists k,
    Nat.max 1 (length (split "." dotted_name) - 2) <= k
    /\ k <= length (split "." dotted_name)
    /\ s = join "." (firstn k (split "." dotted_name)).
Proof.
  intros Hos. unfold get_module_part. rewrite Hos.
  pose proof (split_nonempty "." dotted_name) as Hne.
  pose proof (join_split "." dotted_name) as Hjoin.
  set (parts := split "." dotted_name) in *.
  assert (Hlen : 1 <= length parts) by (destruct parts; [contradiction|cbn; lia]).
  destruct (is_some context_file && str_in (hd "" parts) BUILTIN_MODULES).
  { destruct (Nat.ltb_spec 2 (length parts)); [discriminate|].
    intros [= <- <-]. exists 1. repeat split; [lia|lia|].
    destruct parts as [|p0 rest]; [contradiction|reflexivity]. }
  destruct (String.eqb (hd "" parts) "" && negb (is_some context_file));
    [discriminate|].
  intros H.
  apply bind_inv in H as [(dots & st1 & Hdots & H)|[(e & _ & [=])|(f & _ & [=])]].
  destruct dots as [starti context_file'].
  apply get_module_part_dots_Ok in Hdots as [-> Hdots].
  specialize (Hdots _ _ eq_refl). rewrite length_skipn in Hdots.
  apply get_module_part_loop_Ok in H as [->|(k & Hk & ->)].
  - exists (length parts). repeat split; [lia|lia|].
    now rewrite firstn_all.
  - exists k. repeat split; [lia|lia].
  - destruct (String.eqb (hd "" parts) ""); lia.
Qed.

Lemma keeps_get_module_part_dots : forall rest starti context_file,
  keeps grows (get_module_part_dots w rest starti context_file).
Proof.
  induction rest as [|part rest IH]; intros starti context_file;
    cbn [get_module_part_dots]; effects. apply IH.
Qed.

Lemma keeps_get_module_part_loop dotted_name parts starti path context_file :
  forall count i,
    keeps grows
      (get_module_part_loop w dotted_name parts starti path context_file count i).
Proof.
  induction count as [|count IH]; intros i; cbn [get_module_part_loop]; effects;
    first [apply keeps_alloc | apply keeps_file_from_modpath | apply IH].
Qed.

Lemma keeps_get_module_part BUILTIN_MODULES dotted_name context_file :
  keeps grows (get_module_part w BUILTIN_MODULES dotted_name context_file).
Proof.
  unfold get_module_part. effects;
    first [apply keeps_get_module_part_dots | apply keeps_get_module_part_loop].
Qed.

Lemma safe_get_source_file filename include_no_ext :
  safe (get_source_file w filename include_no_ext).
Proof. unfold get_source_file. effects. Qed.

Lemma safe__spec_from_modpath_post spec : safe (_spec_from_modpath_post w spec).
Proof. unfold _spec_from_modpath_post. effects. apply safe_get_source_file. Qed.

Lemma _spec_from_modpath_safe r path context st l :
  heap st !! r = Some l ->
  forall res st', _spec_from_modpath w r path context st = (res, st') ->
  forall f, res <> Stuck f.
Proof.
  intros Hr res st'. unfold _spec_from_modpath.
  rewrite (bind_Ok _ _ _ _ _ (read_Some _ _ _ Hr)).
  destruct l as [|m l]; [intros [= <- <-]; discriminate|].
  intros H f.
  apply bind_inv in H as [(spec & st1 & _ & H)|[(e & _ & ->)|(f' & H & ->)]].
  - eapply safe__spec_from_modpath_post; eauto.
  - discriminate.
  - exfalso. revert H. unfold _spec_from_modpath_lookup.
    destruct context as [context|].
    + unfold try_except.
      destruct (_find_spec w r (Some [context]) st) as [[s|e|f0] st2] eqn:E.
      * discriminate.
      * destruct (exc_eqb ImportError e); [|discriminate].
        intros H. apply keeps__find_spec in E as [_ Hgrow].
        exact (_find_spec_safe w _ _ _ _ (Hgrow _ _ Hr) _ _ H f' eq_refl).
      * intros _. exact (_find_spec_safe w _ _ _ _ Hr _ _ E f0 eq_refl).
    + intros H. exact (_find_spec_safe w _ _ _ _ Hr _ _ H f' eq_refl).
Qed.

(** X26: the public resolvers of a module path and of a dotted name leave
    every list object of their caller as it is, and the path cache too;
    given a list that exists, [file_info_from_modpath] comes to an end
    with a descriptor or an exception. *)
Theorem entry_points_keep_caller_lists :
  (forall r path context_file,
      keeps grows (file_info_from_modpath w r path context_file)
      /\ keeps grows (file_from_modpath w r path context_file))
  /\ (forall BUILTIN_MODULES dotted_name context_file,
        keeps grows (get_module_part w BUILTIN_MODULES dotted_name context_file))
  /\ (forall r path context_file st l res st',
        heap st !! r = Some l ->
        file_info_from_modpath w r path context_file st = (res, st') ->
        forall f, res <> Stuck f).
Proof.
  split; [|split].
  - intros. split;
      [apply keeps_file_info_from_modpath | apply keeps_file_from_modpath].
  - intros. apply keeps_get_module_part.
  - intros r path context_file st l res st' Hr.
    unfold file_info_from_modpath.
    rewrite (bind_Ok _ _ _ _ _ (read_Some _ _ _ Hr)).
    destruct l as [|m0 rest]; [intros [= <- <-]; discriminate|].
    destruct (String.eqb m0 "xml").
    + unfold try_except, alloc. unfold bind at 1.
      match goal with
      | |- context [_spec_from_modpath w ?a ?p ?c ?s] =>
          destruct (_spec_from_modpath w a p c s) as [[s1|e|f0] st1] eqn:E
      end.
      * intros [= <- <-]. discriminate.
      * destruct (exc_eqb ImportError e); [|intros [= <- <-]; discriminate].
        apply keeps__spec_from_modpath in E as [_ Hgrow].
        apply _spec_from_modpath_safe with (l := m0 :: rest).
        apply Hgrow. cbn. now apply lookup_app_l_Some.
      * exfalso.
        refine (_spec_from_modpath_safe _ _ _ _ ("_xmlplus" :: rest) _ _ _ E
                  f0 eq_refl).
        cbn. rewrite lookup_app_r by lia. now rewrite Nat.sub_diag.
    + destruct (bool_decide _); [intros [= <- <-]; discriminate|].
      now apply _spec_from_modpath_safe with (l := m0 :: rest).
Qed.

End ModulePart.

(** ** The further properties on concrete hosts *)

Section FurtherOnHosts.
Import Scenario.

Lemma compiled_files_are_not_python_files_witness :
  PyStr.endswith "mod.pyc" ".pyc" = true /\ _is_python_file "mod.pyc" = false.
Proof.
  split; [reflexivity|].
  apply (compiled_files_are_not_python_files "mod.pyc"). left. reflexivity.
Defined.

Lemma python_source_is_python_file_witness :
  is_python_source plain "/r/pkg/mod.py" = true
  /\ _is_python_file "/r/pkg/mod.py" = true.
Proof.
  split; [reflexivity|].
  apply (python_source_is_python_file plain "/r/pkg/mod.py"). reflexivity.
Defined.

Lemma get_source_file_of_source_file_witness :
  _path_from_filename plain "/r/pkg/mod.py" = "/r/pkg/mod.py"
  /\ abspath plain "/r/pkg/mod.py" = "/r/pkg/mod.py"
  /\ snd (OsPath.splitext "/r/pkg/mod.py") = ".py"
  /\ exists_ plain "/r/pkg/mod.py" = true
  /\ get_source_file plain "/r/pkg/mod.py" false (fresh [])
     = (Ok "/r/pkg/mod.py", fresh []).
Proof.
  split; [reflexivity|]. split; [reflexivity|]. split; [reflexivity|].
  split; [reflexivity|].
  apply (get_source_file_of_source_file plain "/r/pkg/mod.py" false (fresh []));
    reflexivity.
Defined.

Lemma _path_from_filename_of_compiled_witness :
  lacks "$" "/r/mod" = true
  /\ _path_from_filename compiled_with_source "/r/mod$py.class" = "/r/mod.py".
Proof.
  split; [reflexivity|].
  apply (_path_from_filename_of_compiled compiled_with_source "/r/mod").
  reflexivity.
Defined.

Lemma _handle_blacklist_prunes_witness :
  List.NoDup ["CVS"; "pkg"] /\ List.NoDup ["setup.py"; "a.py"]
  /\ _handle_blacklist ["CVS"; "setup.py"] ["CVS"; "pkg"] ["setup.py"; "a.py"]
     = (["pkg"], ["a.py"])
  /\ ((forall n, In n ["pkg"] <->
                 In n ["CVS"; "pkg"] /\ ~ In n ["CVS"; "setup.py"])
      /\ (forall n, In n ["a.py"] -> In n ["setup.py"; "a.py"])
      /\ (forall n, In n ["setup.py"; "a.py"] ->
                    ~ In n ["CVS"; "setup.py"] -> In n ["a.py"])
      /\ (forall n, In n ["CVS"; "setup.py"] -> ~ In n ["CVS"; "pkg"] ->
                    ~ In n ["a.py"])).
Proof.
  assert (H1 : List.NoDup ["CVS"; "pkg"]).
  { repeat constructor; cbn; intuition discriminate. }
  assert (H2 : List.NoDup ["setup.py"; "a.py"]).
  { repeat constructor; cbn; intuition discriminate. }
  split; [exact H1|]. split; [exact H2|]. split; [reflexivity|].
  apply (_handle_blacklist_prunes ["CVS"; "setup.py"] ["CVS"; "pkg"]
           ["setup.py"; "a.py"] ["pkg"] ["a.py"] H1 H2).
  reflexivity.
Defined.

Lemma get_module_files_lists_python_files_witness :
  In "/r/pkg/mod.py" (get_module_files plain "/r" [] false)
  /\ _is_python_file "/r/pkg/mod.py" = true
  /\ forall tree, os_walk plain "/r" = Some tree ->
       faithful plain "/r" tree -> exists_ plain "/r/pkg/mod.py" = true.
Proof.
  assert (H : In "/r/pkg/mod.py" (get_module_files plain "/r" [] false)).
  { vm_compute. auto. }
  split; [exact H|].
  exact (get_module_files_lists_python_files plain "/r" [] false
           "/r/pkg/mod.py" H).
Defined.

Lemma plain_tree_distinct : distinct_entries plain_tree.
Proof.
  constructor.
  - repeat constructor; cbn; intuition discriminate.
  - repeat constructor; cbn; intuition discriminate.
Qed.

Lemma get_module_files_honours_blacklist_witness :
  os_walk plain "/r" = Some plain_tree
  /\ distinct_entries plain_tree
  /\ get_module_files plain "/r" ["pkg"] false = ["/r/__init__.py"]
  /\ tree_has false ["pkg"] "mod.py" plain_tree
  /\ ~ In "/r/pkg/mod.py" (get_module_files plain "/r" ["pkg"] false).
Proof.
  assert (H : tree_has false ["pkg"] "mod.py" plain_tree).
  { cbn. split; [discriminate|]. eexists. split; [left; reflexivity|].
    cbn. split; [discriminate|auto]. }
  split; [reflexivity|]. split; [exact plain_tree_distinct|].
  split; [reflexivity|]. split; [exact H|].
  refine (proj2 (get_module_files_honours_blacklist plain "/r" ["pkg"] false
                   plain_tree eq_refl plain_tree_distinct)
            eq_refl plain_tree_faithful ["pkg"] "mod.py" "pkg" H _ _).
  - now left.
  - now left.
Defined.

Lemma get_module_files_lists_every_module_witness :
  os_walk plain "/r" = Some plain_tree
  /\ tree_has true ["pkg"] "mod.py" plain_tree
  /\ _is_python_file "mod.py" = true
  /\ In "/r/pkg/mod.py" (get_module_files plain "/r" ["sub.py"] false).
Proof.
  assert (H : tree_has true ["pkg"] "mod.py" plain_tree).
  { cbn. split; [auto|]. eexists. split; [left; reflexivity|]. cbn. auto. }
  split; [reflexivity|]. split; [exact H|]. split; [reflexivity|].
  apply (get_module_files_lists_every_module plain "/r" ["sub.py"] false
           plain_tree ["pkg"] "mod.py" eq_refl plain_tree_distinct H eq_refl).
  - intros n [<-|[<-|[]]] [E|[]]; discriminate.
  - intros _ [E|[]]; discriminate.
Defined.

Lemma get_module_files_needs_init_witness :
  os_walk plain "/r" = Some plain_tree
  /\ In "__init__.py" ["__init__.py"]
  /\ get_module_files plain "/r" ["__init__.py"] false = [].
Proof.
  split; [reflexivity|]. split; [now left|].
  apply (get_module_files_needs_init plain "/r" ["__init__.py"]
           [("pkg", Dir [] ["__init__.py"; "sub.py"; "mod.py"])] ["__init__.py"]).
  - reflexivity.
  - repeat constructor; cbn; intuition discriminate.
  - right. now left.
Defined.

Lemma _cache_normalize_path_memoizes_witness :
  _cache_normalize_path plain "/r" (fresh [])
  = (Ok "/r", set_norm_cache (<["/r" := "/r"]> ∅) (fresh []))
  /\ forall w', _cache_normalize_path w' "/r"
                  (set_norm_cache (<["/r" := "/r"]> ∅) (fresh []))
                = (Ok "/r", set_norm_cache (<["/r" := "/r"]> ∅) (fresh [])).
Proof.
  split; [reflexivity|].
  exact (proj1 (_cache_normalize_path_memoizes plain "/r" (fresh []) "/r" _
                  eq_refl) eq_refl).
Defined.

Lemma extra_path_without_match_is_ignored_witness :
  Forall (fun k => root_matches plain (file_base plain "/r/pkg/mod.py")
                     (check_modpath_has_init plain) k = false)
    (map fst [("/elsewhere", "ext")])
  /\ modpath_from_file_with_callback plain "/r/pkg/mod.py"
       (Some [("/elsewhere", "ext")]) (check_modpath_has_init plain) (fresh [])
     = modpath_from_file_with_callback plain "/r/pkg/mod.py" None
         (check_modpath_has_init plain) (fresh []).
Proof.
  assert (H : Forall (fun k => root_matches plain
                                 (file_base plain "/r/pkg/mod.py")
                                 (check_modpath_has_init plain) k = false)
                (map fst [("/elsewhere", "ext")])).
  { repeat constructor. }
  split; [exact H|].
  exact (extra_path_without_match_is_ignored plain "/r/pkg/mod.py"
           [("/elsewhere", "ext")] (check_modpath_has_init plain) (fresh []) H).
Defined.

Lemma extra_path_key_must_be_canonical_witness :
  root_matches linked (file_base linked "/r/pkg/mod.py")
    (check_modpath_has_init linked) "/link" = true
  /\ _canonicalize_path linked "/link" = "/r"
  /\ modpath_from_file_with_callback linked "/r/pkg/mod.py"
       (Some [("/link", "ext")]) (check_modpath_has_init linked) (fresh [])
     = (Raise KeyError, fresh []).
Proof.
  split; [reflexivity|]. split; [reflexivity|].
  apply (extra_path_key_must_be_canonical linked "/r/pkg/mod.py"
           (check_modpath_has_init linked) [("/link", "ext")] [] "/link" []).
  - reflexivity.
  - constructor.
  - reflexivity.
  - cbn. intuition discriminate.
Defined.

Lemma modpath_from_file_first_root_that_takes_witness :
  cache_coherent plain (fresh [])
  /\ fst (modpath_from_file plain "/r/pkg/mod.py" None (fresh []))
     = Ok ["pkg"; "mod"].
Proof.
  split; [apply fresh_coherent|].
  exact (modpath_from_file_first_root_that_takes plain "/r/pkg/mod.py"
           (fresh []) (fresh_coherent plain [])).
Defined.

Lemma _search_zip_commits_to_first_archive_witness :
  pic two_eggs_scanned
  = [] ++ ("/r/a.egg", Some (ZipImporter "/r/a.egg"))
       :: [("/r/b.egg", Some (ZipImporter "/r/b.egg"))]
  /\ importer_find_module two_eggs (ZipImporter "/r/a.egg") "pkg" = true
  /\ importer_find_module two_eggs (ZipImporter "/r/b.egg") "pkg/sub" = true
  /\ _search_zip two_eggs ["pkg"; "sub"] two_eggs_scanned
     = (Raise ImportError, two_eggs_scanned).
Proof.
  split; [reflexivity|]. split; [reflexivity|]. split; [reflexivity|].
  apply (_search_zip_commits_to_first_archive two_eggs [] "/r/a.egg"
           (ZipImporter "/r/a.egg")
           [("/r/b.egg", Some (ZipImporter "/r/b.egg"))] "pkg" ["sub"]
           two_eggs_scanned).
  - reflexivity.
  - constructor.
  - reflexivity.
Defined.

Lemma file_info_from_modpath_kinds_witness :
  exists spec st',
    file_info_from_modpath plain 0 None None (fresh [["pkg"]]) = (Ok spec, st')
    /\ type spec <> TyModule PKG_DIRECTORY
    /\ type spec <> TyModule PY_COMPILED
    /\ (type spec = TyModule C_BUILTIN -> location spec = None).
Proof.
  eexists. eexists. split; [vm_compute; reflexivity|].
  eapply (file_info_from_modpath_kinds plain 0 None None (fresh [["pkg"]])).
  vm_compute. reflexivity.
Defined.

Lemma empty_module_path_raises_witness :
  heap (fresh [[]]) !! 0 = Some []
  /\ (fst (_find_spec plain 0 None (fresh [[]])) = Raise UnboundLocalError
      /\ fst (_spec_from_modpath plain 0 None None (fresh [[]]))
         = Raise AssertionError
      /\ fst (file_info_from_modpath plain 0 None None (fresh [[]]))
         = Raise IndexError
      /\ fst (file_from_modpath plain 0 None None (fresh [[]]))
         = Raise IndexError).
Proof.
  split; [reflexivity|].
  apply (empty_module_path_raises plain 0 None None (fresh [[]])). reflexivity.
Defined.

Lemma descriptor_is_named_after_last_component_witness :
  exists spec st',
    has_pep420 plain = false
    /\ heap (fresh [["pkg"; "sub"]]) !! 0 = Some ["pkg"; "sub"]
    /\ _spec_from_modpath plain 0 None None (fresh [["pkg"; "sub"]])
       = (Ok spec, st')
    /\ name spec = "sub".
Proof.
  eexists. eexists. split; [reflexivity|]. split; [reflexivity|].
  split; [vm_compute; reflexivity|].
  eapply (descriptor_is_named_after_last_component plain 0 None None
           (fresh [["pkg"; "sub"]]) ["pkg"; "sub"]).
  - reflexivity.
  - reflexivity.
  - vm_compute. reflexivity.
Defined.

Lemma is_standard_module_decides_witness :
  exists st1,
    cache_coherent site_packages (fresh [])
    /\ is_standard_module_lookup site_packages
         (hd "" (PyStr.split "." "six.moves")) (fresh [])
       = (Ok (Some "/usr/lib/python/site-packages/six.py"), st1)
    /\ fst (is_standard_module site_packages "six.moves" None (fresh []))
       = Ok false.
Proof.
  set (st1 := snd (is_standard_module_lookup site_packages "six" (fresh []))).
  assert (E : is_standard_module_lookup site_packages
                (hd "" (PyStr.split "." "six.moves")) (fresh [])
              = (Ok (Some "/usr/lib/python/site-packages/six.py"), st1)).
  { vm_compute. reflexivity. }
  exists st1. split; [apply fresh_coherent|]. split; [exact E|].
  exact (is_standard_module_decides site_packages "six.moves" None (fresh [])
           _ _ (fresh_coherent site_packages []) E).
Defined.

Lemma builtin_module_is_standard_witness :
  imp_find_module with_builtin (hd "" (PyStr.split "." "sys.path")) PNone
  = Some (None, imp_C_BUILTIN)
  /\ fst (is_standard_module with_builtin "sys.path" None (fresh []))
     = Ok true.
Proof.
  split; [reflexivity|].
  apply (builtin_module_is_standard with_builtin "sys.path" None (fresh []) None).
  - reflexivity.
  - discriminate.
Defined.

Lemma get_module_part_keeps_a_prefix_witness :
  exists st',
    PyStr.startswith "pkg.sub.dump" "os.path" = false
    /\ get_module_part plain ["sys"] "pkg.sub.dump" None (fresh [])
       = (Ok "pkg.sub", st')
    /\ exists k,
         Nat.max 1 (length (PyStr.split "." "pkg.sub.dump") - 2) <= k
         /\ k <= length (PyStr.split "." "pkg.sub.dump")
         /\ "pkg.sub" = PyStr.join "." (firstn k (PyStr.split "." "pkg.sub.dump")).
Proof.
  eexists. split; [reflexivity|]. split; [vm_compute; reflexivity|].
  eapply (get_module_part_keeps_a_prefix plain ["sys"] "pkg.sub.dump" None
           (fresh [])).
  - reflexivity.
  - vm_compute. reflexivity.
Defined.

Lemma entry_points_keep_caller_lists_witness :
  heap (fresh [["pkg"; "sub"]]) !! 0 = Some ["pkg"; "sub"]
  /\ forall f,
       fst (file_info_from_modpath plain 0 None None (fresh [["pkg"; "sub"]]))
       <> Stuck f.
Proof.
  split; [reflexivity|]. intros f.
  refine (proj2 (proj2 (entry_points_keep_caller_lists plain)) 0 None None
            (fresh [["pkg"; "sub"]]) ["pkg"; "sub"] _ _ eq_refl _ f).
  vm_compute. reflexivity.
Defined.

End FurtherOnHosts.
